(** * Rules-engine policy normalizer and DNS TXT token poller

    A shallow embedding of the logic of the Edgecast Terraform provider
    that has non-trivial control flow:

    - the policy normalizer of the rules-engine policy resource
      ([cleanPolicy], [cleanMatches], [standardizeMatchFeature]);
    - the read of the DNS TXT token data source, module [cps]
      ([CheckForRetry], [DataSourceDNSTXTTokenRead]);
    - the create, read and delete handlers of the policy resource, module
      [rulesengine], with the JSON decoder they rely on, module [json].

    Go maps are [gmap string _], Go slices are lists, a run-time panic and
    an [error] return are explicit results.  The definitions come first,
    the proofs follow. *)

From Stdlib Require Import String Ascii ZArith Lia.
From stdpp Require Import gmap strings list fin_maps.

#[local] Set Warnings "-register-all".
#[local] Open Scope string_scope.
#[local] Open Scope nat_scope.
#[local] Open Scope list_scope.
#[local] Open Scope stdpp_scope.

(** ** JSON trees as Go sees them *)

(** What [encoding/json] decodes into an [interface{}], plus the one
    dynamic type the normalizer itself introduces: it stores slices of type
    [[]map[string]interface{}] back into the tree, and a type assertion to
    [[]interface{}] does not match those. *)
Inductive value : Type :=
| VNull
| VBool (b : bool)
| VNum (bits : Z)                      (* float64, by its bit pattern *)
| VStr (s : string)
| VArr (l : list value)                (* []interface{} *)
| VObj (m : gmap string value)         (* map[string]interface{} *)
| VMaps (l : list (gmap string value)) (* []map[string]interface{} *).

Abbreviation obj := (gmap string value).

(** [json.Unmarshal (json.Marshal v)]: a typed slice of maps is written as
    an ordinary JSON array, and so comes back as [[]interface{}].  Strings
    and numbers come back as they are, as the well-formed UTF-8 strings and
    the finite numbers of a decoded tree do. *)
Fixpoint reload (v : value) : value :=
  match v with
  | VArr l => VArr (reload <$> l)
  | VObj m => VObj (reload <$> m)
  | VMaps l => VArr ((λ m, VObj (reload <$> m)) <$> l)
  | _ => v
  end.

(** A tree that came out of the decoder holds no typed slice. *)
Definition decoded (v : value) : Prop := reload v = v.

(** Nesting depth, the bound on the recursion of [cleanMatches]. *)
Fixpoint depth (v : value) : nat :=
  match v with
  | VArr l => S (foldr (λ x acc, depth x `max` acc) 0 l)
  | VObj m => S (map_fold (λ _ x acc, depth x `max` acc) 0 m)
  | VMaps l =>
      S (foldr (λ m acc,
           S (map_fold (λ _ x acc, depth x `max` acc) 0 m) `max` acc) 0 l)
  | _ => 0
  end.

(** ** Outcomes *)

Inductive result (A : Type) : Type :=
| Ok (a : A)
| Panic          (* a run-time panic, as of a failed type assertion *)
| OutOfFuel.     (* artefact of the recursion bound, never reached *)
Arguments Ok {A} a.
Arguments Panic {A}.
Arguments OutOfFuel {A}.

Definition bind {A B} (r : result A) (f : A → result B) : result B :=
  match r with
  | Ok a => f a
  | Panic => Panic
  | OutOfFuel => OutOfFuel
  end.

Notation "x ←! r ; k" := (bind r (λ x, k))
  (at level 20, r at level 100, k at level 200, right associativity,
   only parsing).

(** A [for ... range slice] loop whose body may panic: the loop stops at
    the first panic. *)
Fixpoint forEach {A B} (f : A → result B) (l : list A) : result (list B) :=
  match l with
  | [] => Ok []
  | x :: l' => y ←! f x; ys ←! forEach f l'; Ok (y :: ys)
  end.

(** [x.(map[string]interface{})], single-value form. *)
Definition asMap (v : value) : result obj :=
  match v with
  | VObj m => Ok m
  | _ => Panic
  end.

(** ** String helpers of the Go library *)

(** [strings.Replace(s, old, new, -1)] for a one-byte [old] and [new]. *)
Fixpoint strings_Replace (s : string) (old new : ascii) : string :=
  match s with
  | EmptyString => EmptyString
  | String c s' =>
      String (if Ascii.eqb c old then new else c) (strings_Replace s' old new)
  end.

(** [strings.Join(elems, sep)]. *)
Definition strings_Join (elems : list string) (sep : string) : string :=
  String.concat sep elems.

(** Modelled from the spec: [helper.ConvertSliceToStrings] is not among the
    sources.  The spec's words: the join happens when "every element of
    that array is representable as a string" and "an array element that is
    not string-representable (e.g., a nested object) aborts the join". The
    elements that are strings are taken as they are; any other element
    makes the conversion fail as a whole. *)
Fixpoint ConvertSliceToStrings (v : list value) : option (list string) :=
  match v with
  | [] => Some []
  | VStr s :: v' => cons s <$> ConvertSliceToStrings v'
  | _ :: _ => None
  end.

(** ** standardizeMatchFeature *)

Definition standardizeKey (k : string) : string := strings_Replace k "-" "_".

(** The value half of the loop body. *)
Definition standardizeValue (v : value) : value :=
  match v with
  | VArr valArray =>
      match ConvertSliceToStrings valArray with
      | Some stringArray => VStr (strings_Join stringArray " ")
      | None => v
      end
  | _ => v
  end.

(** One iteration of the loop body, at the entry of key [k]: the entry is
    deleted and stored again under the standardized key.  An entry that is
    no longer in the map is not produced by [range]. *)
Definition visit (m : obj) (k : string) : obj :=
  match m !! k with
  | Some v => <[standardizeKey k := standardizeValue v]> (delete k m)
  | None => m
  end.

(** The loop along a given sequence of keys.  Go leaves the order of a
    [range] over a map open, and an entry stored during the loop may or may
    not be produced later; a schedule lists the keys in the order the loop
    reaches them, entries stored by the loop itself included. *)
Definition standardizeAlong (sched : list string) (m : obj) : obj :=
  foldl visit m sched.

(** What Go does promise: every entry of the map the loop starts from is
    reached (none of them is removed before its turn here). *)
Definition covers (sched : list string) (m : obj) : Prop :=
  ∀ k, is_Some (m !! k) → k ∈ sched.

(** The iteration order of [range] over a map, as an oracle. *)
Record RangeOrder : Type := {
  range_keys : obj → list string;
  range_keys_covers : ∀ m, covers (range_keys m) m
}.

Definition standardizeMatchFeature (ro : RangeOrder) (matchFeatureMap : obj)
  : obj :=
  standardizeAlong (range_keys ro matchFeatureMap) matchFeatureMap.

(** The map built afresh, every entry transformed once. *)
Definition standardizeFresh (m : obj) : obj :=
  list_to_map
    ((λ kv : string * value, (standardizeKey kv.1, standardizeValue kv.2))
       <$> map_to_list m).

(** No two keys of the map standardize to the same key. *)
Definition collisionFree (m : obj) : Prop :=
  ∀ k1 k2, is_Some (m !! k1) → is_Some (m !! k2) →
           standardizeKey k1 = standardizeKey k2 → k1 = k2.

(** One concrete order: the keys as [map_to_list] enumerates them. *)
Definition listOrder : RangeOrder.
Proof.
  refine {| range_keys := λ m, (map_to_list m).*1 |}.
  intros m k [v Hv]. apply list_elem_of_fmap. exists (k, v). split; [done|].
  by apply elem_of_map_to_list.
Defined.

(** Boolean checks, for running the definitions on concrete maps. *)
Definition coversb (sched : list string) (m : obj) : bool :=
  forallb (λ k, bool_decide (k ∈ sched)) (map_to_list m).*1.

Definition collisionFreeb (m : obj) : bool :=
  bool_decide (NoDup (standardizeKey <$> (map_to_list m).*1)).

(** Where the loop stands after the keys [seen]: every entry is either the
    standardized form of an entry of the initial map [m0], or an entry of
    [m0] the loop has not reached; and every key of [m0] is still
    accounted for. *)
Definition loopInv (m0 : obj) (seen : list string) (m : obj) : Prop :=
  (∀ k' v', m !! k' = Some v' →
     (∃ k v, m0 !! k = Some v ∧ k' = standardizeKey k ∧ v' = standardizeValue v)
     ∨ (m0 !! k' = Some v' ∧ k' ∉ seen))
  ∧ (∀ k, is_Some (m0 !! k) →
       is_Some (m !! standardizeKey k) ∨ (is_Some (m !! k) ∧ k ∉ seen)).

(** A key without underscore: no other key standardizes to it. *)
Definition underscoreFree (t : string) : bool :=
  forallb (λ c, negb (Ascii.eqb c "_")) (list_ascii_of_string t).

(** ** cleanMatches and cleanPolicy *)

(** The pattern
    [if xs, ok := m[key].([]interface{}); ok { m[key] = clean(xs) }]:
    only a value of dynamic type [[]interface{}] is replaced; a missing key
    or any other value leaves the map as it is. *)
Definition replaceSlice (key : string)
    (clean : list value → result (list obj)) (m : obj) : result obj :=
  match m !! key with
  | Some (VArr xs) => cleaned ←! clean xs; Ok (<[key := VMaps cleaned]> m)
  | _ => Ok m
  end.

(** The body of the loop over [features]. *)
Definition cleanFeature (ro : RangeOrder) (feature : value) : result obj :=
  cleanedFeature ←! asMap feature;
  let cleanedFeature := delete "ordinal" cleanedFeature in
  Ok (standardizeMatchFeature ro cleanedFeature).

(** The body of the loop over [matches]; [recur] is the recursive call. *)
Definition cleanMatch (ro : RangeOrder)
    (recur : list value → result (list obj)) (match_ : value) : result obj :=
  cleanedMatch ←! asMap match_;
  let cleanedMatch := delete "ordinal" cleanedMatch in
  let cleanedMatch := standardizeMatchFeature ro cleanedMatch in
  cleanedMatch ←! replaceSlice "matches" recur cleanedMatch;
  replaceSlice "features" (forEach (cleanFeature ro)) cleanedMatch.

(** [cleanMatches] with its recursion bounded by [fuel]. *)
Fixpoint cleanMatchesFuel (ro : RangeOrder) (fuel : nat) (matches : list value)
  : result (list obj) :=
  match fuel with
  | 0 => OutOfFuel
  | S fuel' => forEach (cleanMatch ro (cleanMatchesFuel ro fuel')) matches
  end.

(** The nesting depth of the slice is fuel enough
    (see [cleanMatches_total]). *)
Definition cleanMatches (ro : RangeOrder) (matches : list value)
  : result (list obj) :=
  cleanMatchesFuel ro (depth (VArr matches)) matches.

(** The body of the loop over [rules]. *)
Definition cleanRule (ro : RangeOrder) (rule : value) : result obj :=
  ruleMap ←! asMap rule;
  let ruleMap := delete "id" ruleMap in
  let ruleMap := delete "@id" ruleMap in
  let ruleMap := delete "@type" ruleMap in
  let ruleMap := delete "ordinal" ruleMap in
  let ruleMap := delete "created_at" ruleMap in
  let ruleMap := delete "updated_at" ruleMap in
  replaceSlice "matches" (cleanMatches ro) ruleMap.

(** [policyMap["rules"].([]interface{})], single-value form: a missing key
    (the nil interface) and a value of any other type panic. *)
Definition asSlice (v : option value) : result (list value) :=
  match v with
  | Some (VArr l) => Ok l
  | _ => Panic
  end.

Definition cleanPolicy (ro : RangeOrder) (policyMap : obj) : result obj :=
  let policyMap := delete "id" policyMap in
  let policyMap := delete "@id" policyMap in
  let policyMap := delete "@type" policyMap in
  let policyMap := delete "policy_type" policyMap in
  let policyMap := delete "state" policyMap in
  let policyMap := delete "history" policyMap in
  let policyMap := delete "created_at" policyMap in
  let policyMap := delete "updated_at" policyMap in
  rules ←! asSlice (policyMap !! "rules");
  ruleMaps ←! forEach (cleanRule ro) rules;
  Ok (<["rules" := VMaps ruleMaps]> policyMap).

(** The keys the spec lists as server metadata, and the keys the rule loop
    deletes. *)
Definition policyMetadata : list string :=
  ["id"; "@id"; "@type"; "policy_type"; "state"; "history"; "created_at";
   "updated_at"].

Definition ruleMetadata : list string :=
  ["id"; "@id"; "@type"; "ordinal"; "created_at"; "updated_at"].

(** The objects held by a slice, of either slice type. *)
Definition objectsOf (v : value) : list obj :=
  match v with
  | VMaps l => l
  | VArr l => omap (λ x, match x with VObj m => Some m | _ => None end) l
  | _ => []
  end.

(** The objects in the slice stored under [key]. *)
Definition children (key : string) (m : obj) : list obj :=
  match m !! key with
  | Some v => objectsOf v
  | None => []
  end.

(** The match objects below a rule, at any depth of nested [matches]. *)
Inductive matchBelow (rule : obj) : obj → Prop :=
| matchBelow_top (m : obj) :
    m ∈ children "matches" rule → matchBelow rule m
| matchBelow_nested (m m' : obj) :
    matchBelow rule m → m' ∈ children "matches" m → matchBelow rule m'.

(** A match without [ordinal], in itself, in its features and in its
    nested matches. *)
Inductive ordinalFree : obj → Prop :=
| ordinalFree_intro (m : obj) :
    m !! "ordinal" = None →
    (∀ f, f ∈ children "features" m → f !! "ordinal" = None) →
    (∀ c, c ∈ children "matches" m → ordinalFree c) →
    ordinalFree m.

(** A map the loop of [standardizeMatchFeature] leaves alone. *)
Definition standardized (m : obj) : Prop :=
  ∀ k v, m !! k = Some v → standardizeKey k = k ∧ standardizeValue v = v.

(** A slice of maps after the JSON round trip. *)
Definition reloadMaps (l : list obj) : list value :=
  (λ m, VObj (reload <$> m)) <$> l.

(** ** Sample trees *)

(** A policy as the API returns it: one rule, one match with a nested
    match and a feature; the ordinals are the float64 numbers 1 and 3. *)
Definition samplePolicy : obj :=
  {[ "id" := VStr "1"; "name" := VStr "n";
     "rules" := VArr [ VObj {[
       "id" := VStr "2";
       "matches" := VArr [ VObj {[
         "ordinal" := VNum 4607182418800017408;
         "type" := VStr "match.always";
         "matches" := VArr [ VObj {[ "ordinal" := VNum 4613937818241073152;
                                     "matches" := VArr [] ]} ];
         "features" := VArr [ VObj {[
           "ordinal" := VNum 4607182418800017408;
           "value" := VArr [VStr "a"; VStr "b"];
           "ignore-case" := VBool true ]} ] ]} ] ]} ] ]}.

Definition sampleCleaned : obj :=
  {[ "name" := VStr "n";
     "rules" := VMaps [ {[
       "matches" := VMaps [ {[
         "type" := VStr "match.always";
         "matches" := VMaps [ {[ "matches" := VStr "" ]} ];
         "features" := VMaps [ {[
           "value" := VStr "a b";
           "ignore_case" := VBool true ]} ] ]} ] ]} ] ]}.

(** The policy [{"rules": []}]. *)
Definition noRulePolicy : obj := {[ "rules" := VArr [] ]}.

(** A policy whose only rule carries a [state] key. *)
Definition ruleStatePolicy : obj :=
  {[ "rules" := VArr [ VObj {[ "name" := VStr "r"; "state" := VStr "on" ]} ] ]}.

(** ** Iteration orders and collisions *)

(** An order that reaches the entry of [last] after all others: the keys
    as [map_to_list] enumerates them, [last] taken out and put at the end. *)
Definition lastOrder (last : string) : RangeOrder.
Proof.
  refine {| range_keys := λ m,
              filter (λ k, k ≠ last) (map_to_list m).*1 ++ [last] |}.
  intros m k [v Hv]. apply elem_of_app.
  destruct (decide (k = last)) as [->|Hne]; [right; by left|left].
  apply list_elem_of_filter. split; [done|].
  apply list_elem_of_fmap. exists (k, v). split; [done|].
  by apply elem_of_map_to_list.
Defined.

(** A map with two keys that standardize alike. *)
Definition collidingFeature : obj :=
  {[ "ignore-case_x" := VStr "hyphen first";
     "ignore_case-x" := VStr "hyphen last";
     "name" := VStr "n" ]}.

(** A map with a key and its standardized form. *)
Definition twinFeature : obj :=
  {[ "ignore-case" := VBool true; "ignore_case" := VBool false ]}.

(** Where the loop stands with respect to a key [k] with a hyphen: its
    entry is still there as it was, or it has been stored under the
    standardized key. *)
Definition hyphenInv (k : string) (v : value) (m : obj) : Prop :=
  m !! k = Some v
  ∨ (m !! k = None ∧ m !! standardizeKey k = Some (standardizeValue v)).

(** ** The trees the normalizer accepts *)

Definition isObject (v : value) : Prop := ∃ m, v = VObj m.

(** An element of a slice of matches that [cleanMatches] accepts: an
    object; if it holds under [matches] an array that is not one of
    strings only (which [standardizeMatchFeature] has joined by then), the
    elements of that array are accepted in turn; and if it holds such an
    array under [features], its elements are objects. *)
Inductive cleanableMatch : value → Prop :=
| cleanableMatch_intro (m : obj) :
    (∀ ms, m !! "matches" = Some (VArr ms) →
           ConvertSliceToStrings ms = None → Forall cleanableMatch ms) →
    (∀ fs, m !! "features" = Some (VArr fs) →
           ConvertSliceToStrings fs = None → Forall isObject fs) →
    cleanableMatch (VObj m).

(** A rule that [cleanPolicy] accepts: an object; if it holds an array
    under [matches], the elements of the array are accepted matches. *)
Definition cleanableRule (rule : value) : Prop :=
  ∃ m, rule = VObj m
       ∧ ∀ ms, m !! "matches" = Some (VArr ms) → Forall cleanableMatch ms.

Definition cleanablePolicy (policyMap : obj) : Prop :=
  ∃ rules, policyMap !! "rules" = Some (VArr rules)
           ∧ Forall cleanableRule rules.

(** What [cleanPolicy] leaves of a rule: the keys it does not delete, and
    under [matches] a slice of as many maps as there were elements, or
    what was there if that was no array. *)
Definition ruleKept (rule : value) (cleaned : obj) : Prop :=
  ∃ m, rule = VObj m
    ∧ (∀ k, k ∉ ruleMetadata → k ≠ "matches" → cleaned !! k = m !! k)
    ∧ match m !! "matches" with
      | Some (VArr ms) =>
          ∃ cms, cleaned !! "matches" = Some (VMaps cms)
                 ∧ length cms = length ms
      | other => cleaned !! "matches" = other
      end.

(** An element of a slice of matches in which no two keys collide: in the
    match itself, in the matches nested in it, in its features.  An element
    that is no object makes [cleanMatches] panic before any key is looked
    at. *)
Inductive collisionFreeMatch : value → Prop :=
| collisionFreeMatch_object (m : obj) :
    collisionFree m →
    (∀ ms, m !! "matches" = Some (VArr ms) → Forall collisionFreeMatch ms) →
    (∀ fs f, m !! "features" = Some (VArr fs) → VObj f ∈ fs →
             collisionFree f) →
    collisionFreeMatch (VObj m)
| collisionFreeMatch_other (v : value) :
    ¬ isObject v → collisionFreeMatch v.

Definition collisionFreePolicy (policyMap : obj) : Prop :=
  ∀ rules rule ms,
    policyMap !! "rules" = Some (VArr rules) → VObj rule ∈ rules →
    rule !! "matches" = Some (VArr ms) → Forall collisionFreeMatch ms.

(** A match whose keys and values are standardized, in itself, in its
    features and in its nested matches. *)
Inductive standardizedMatch : obj → Prop :=
| standardizedMatch_intro (m : obj) :
    standardized m →
    (∀ f, f ∈ children "features" m → standardized f) →
    (∀ c, c ∈ children "matches" m → standardizedMatch c) →
    standardizedMatch m.

(** A policy with a hyphenated key at every level of a match. *)
Definition hyphenPolicy : obj :=
  {[ "rules" := VArr [ VObj {[
       "matches" := VArr [ VObj {[
         "type" := VStr "match.always";
         "ignore-case" := VBool true;
         "matches" := VArr [ VObj {[ "relative-to" := VStr "root" ]} ];
         "features" := VArr [ VObj {[
           "header-name" := VStr "h";
           "value" := VArr [VStr "a"; VStr "b"] ]} ] ]} ] ]} ] ]}.

(** That policy after [cleanPolicy], with its one match. *)
Definition hyphenMatch : obj :=
  {[ "type" := VStr "match.always";
     "ignore_case" := VBool true;
     "matches" := VMaps [ {[ "relative_to" := VStr "root" ]} ];
     "features" := VMaps [ {[ "header_name" := VStr "h";
                              "value" := VStr "a b" ]} ] ]}.

Definition hyphenCleaned : obj :=
  {[ "rules" := VMaps [ {[ "matches" := VMaps [ hyphenMatch ] ]} ] ]}.

(** ** Errors and diagnostics *)

(** Go [error] values, by the way they are built. *)
Inductive error : Type :=
| errors_New (text : string)
| fmt_Errorf (format : string) (cause : error)   (* one [%v] or [%w] verb *)
| fmt_Errorf_s (format : string) (arg : string)  (* one [%s] verb *)
| lib_error (origin : string)                    (* from a library or the API *)
| TimeoutError (lastError : error).              (* the deadline of a retry loop *)

(** [diag.Diagnostics] with at most one entry: [None] is the empty list,
    [diag.FromErr err] is [err] itself. *)
Abbreviation Diagnostics := (option error).

(** * The DNS TXT token data source *)

Module cps.

(** [models.DcvToken], [models.DomainDcvFull] (its [DcvToken] is a
    pointer), and the two responses the read looks at. *)
Record DcvTokenT : Type := { Token : string }.
Record DomainDcvFull : Type := { DcvToken : option DcvTokenT }.
Record CertificateGetOK : Type := {
  ValidationType : string;
  WorkflowErrorMessage : string
}.
Record CertificateGetCertificateStatusOK : Type := { Status : string }.

Definition CdnProvidedCertificateValidationTypeDV : string := "DV".

(** The CPS service: what a call answers at the [n]-th attempt of the
    read.  [GetDomainMetadata] belongs to the package but is not among the
    sources; it is taken as part of the service. *)
Record CpsService : Type := {
  CertificateGet : Z → nat → CertificateGetOK + error;
  CertificateGetCertificateStatus :
    Z → nat → CertificateGetCertificateStatusOK + error;
  GetDomainMetadata : CertificateGetOK → nat → list DomainDcvFull
}.

(** The provider meta value [m]: a [ProviderConfig] or not, and for a
    config what [buildCPSService] makes of it. *)
Inductive ProviderMeta : Type :=
| NotProviderConfig
| ProviderConfig (built : CpsService + error).

(** What the read takes from libraries and helpers outside the sources. *)
Record Runtime : Type := {
  ToLower : string → string;              (* strings.ToLower *)
  ParseDuration : string → Z + error;     (* time.ParseDuration *)
  ParseInt64 : string → Z + error;        (* helper.ParseInt64 *)
  attemptsWithin : Z → nat;               (* further attempts a timeout allows *)
  GetUnixTimeStamp : nat → string         (* helper.GetUnixTimeStamp *)
}.

(** The resource data [d] of the data source. *)
Record ResourceData : Type := {
  certificate_id : string;
  wait_until_available : bool;
  wait_timeout : string;
  value : option string;    (* unset until [d.Set("value", _)] *)
  Id : string               (* empty until [d.SetId(_)] *)
}.

Inductive Call : Type :=
| CallCertificateGet (ID : Z)
| CallCertificateGetCertificateStatus (ID : Z).

(** The state a read runs in: the resource data, the API calls so far and
    the number of queries (runs of the retry function) so far. *)
Record PollState : Type := {
  d : ResourceData;
  calls : list Call;
  queries : nat
}.

Inductive RetryError : Type :=
| RetryableError (err : error)
| NonRetryableError (err : error).

(** The entries of [metadata] and [statusresp] are pointers in the source;
    they are taken as non-nil, the token object of an entry apart. *)
Definition CheckForRetry (rt : Runtime) (metadata : list DomainDcvFull)
    (statusresp : CertificateGetCertificateStatusOK) : bool :=
  if String.eqb (ToLower rt (Status statusresp)) "processing" then true
  else
    match metadata with
    | [] => true                               (* len(metadata) == 0 *)
    | first :: _ =>
        match DcvToken first with
        | None => true                         (* metadata[0].DcvToken == nil *)
        | Some token => String.length (Token token) =? 0
        end
    end.

(** [metadata[0].DcvToken.Token]: an index out of range and a nil pointer
    panic. *)
Definition firstToken (metadata : list DomainDcvFull) : result string :=
  match metadata with
  | [] => Panic
  | first :: _ =>
      match DcvToken first with
      | None => Panic
      | Some token => Ok (Token token)
      end
  end.

Definition logCall (c : Call) (st : PollState) : PollState :=
  {| d := d st; calls := calls st ++ [c]; queries := queries st |}.

(** The function handed to [resource.RetryContext]; one run is one query. *)
Definition retryFunc (rt : Runtime) (svc : CpsService) (certID : Z)
    (retry : bool) (st : PollState) : result (option RetryError * PollState) :=
  let n := queries st in
  let st := {| d := d st; calls := calls st; queries := S n |} in
  let st := logCall (CallCertificateGet certID) st in
  match CertificateGet svc certID n with
  | inr err =>
      Ok (Some (NonRetryableError
            (fmt_Errorf "error while retrieving certificate details: %w" err)),
          st)
  | inl resp =>
      let st := logCall (CallCertificateGetCertificateStatus certID) st in
      match CertificateGetCertificateStatus svc certID n with
      | inr err =>
          Ok (Some (NonRetryableError
                (fmt_Errorf "error while retrieving certificate details: %w"
                   err)),
              st)
      | inl statusresp =>
          if negb (String.eqb (ValidationType resp)
                     CdnProvidedCertificateValidationTypeDV)
          then Ok (Some (NonRetryableError
                     (errors_New "certificate must have validation type DV")),
                   st)
          else if 0 <? String.length (WorkflowErrorMessage resp)
          then Ok (Some (NonRetryableError
                     (fmt_Errorf_s "error in workflow: %s"
                        (WorkflowErrorMessage resp))),
                   st)
          else
            let metadata := GetDomainMetadata svc resp n in
            let needsRetry := CheckForRetry rt metadata statusresp in
            if needsRetry then
              if retry
              then Ok (Some (RetryableError (errors_New "token not available")),
                       st)
              else Ok (None, st)
            else
              token ←! firstToken metadata;
              let d' := {| certificate_id := certificate_id (d st);
                           wait_until_available := wait_until_available (d st);
                           wait_timeout := wait_timeout (d st);
                           value := Some token;
                           Id := GetUnixTimeStamp rt n |} in
              Ok (None, {| d := d'; calls := calls st; queries := queries st |})
      end
  end.

(** Modelled from the spec: [resource.RetryContext] is the plugin SDK's.
    The spec's words: "a generic bounded-retry utility: given a timeout and
    a unit of work returning {retry, fatal-error, success}, drives the
    Querying/Retrying loop"; a retry "re-enter[s] Querying, subject to the
    deadline", and "exceeding the deadline while in Retrying" gives a
    timeout error with "the last retry condition as the cause".  The
    deadline is counted in further attempts; the first attempt is always
    made. *)
Fixpoint RetryContext {St : Type} (budget : nat)
    (f : St → result (option RetryError * St)) (s : St)
  : result (option error * St) :=
  r ←! f s;
  match r with
  | (None, s') => Ok (None, s')
  | (Some (NonRetryableError err), s') => Ok (Some err, s')
  | (Some (RetryableError err), s') =>
      match budget with
      | 0 => Ok (Some (TimeoutError err), s')
      | S budget' => RetryContext budget' f s'
      end
  end.

Definition DataSourceDNSTXTTokenRead (rt : Runtime) (st : PollState)
    (m : ProviderMeta) : result (Diagnostics * PollState) :=
  match ParseDuration rt (wait_timeout (d st)) with
  | inr err => Ok (Some (fmt_Errorf "invalid wait_timeout: %v" err), st)
  | inl timeout =>
      match m with
      | NotProviderConfig =>
          Ok (Some (errors_New "failed to load configuration"), st)
      | ProviderConfig (inr err) =>
          Ok (Some (fmt_Errorf "failed to build CPS Service: %v" err), st)
      | ProviderConfig (inl svc) =>
          match ParseInt64 rt (certificate_id (d st)) with
          | inr err =>
              Ok (Some (fmt_Errorf "failed to parse certificate ID: %v" err), st)
          | inl certID =>
              let retry := wait_until_available (d st) in
              RetryContext (attemptsWithin rt timeout)
                (retryFunc rt svc certID retry) st
          end
      end
  end.

(** A read starts with no call and no query made. *)
Definition start (d0 : ResourceData) : PollState :=
  {| d := d0; calls := []; queries := 0 |}.

(** An error the retry loop passes on as it is, as opposed to the error of
    the deadline. *)
Definition fatal (err : error) : Prop :=
  match err with
  | TimeoutError _ => False
  | _ => True
  end.

(** The inputs of a read that gets as far as the retry loop. *)
Definition readyToPoll (rt : Runtime) (d0 : ResourceData) (m : ProviderMeta)
    (svc : CpsService) (certID : Z) : Prop :=
  (∃ timeout, ParseDuration rt (wait_timeout d0) = inl timeout)
  ∧ m = ProviderConfig (inl svc)
  ∧ ParseInt64 rt (certificate_id d0) = inl certID.

(** What a query that finds the token does to the resource data. *)
Definition tokenStored (rt : Runtime) (st st' : PollState) : Prop :=
  ∃ token, token ≠ ""
    ∧ d st' = {| certificate_id := certificate_id (d st);
                 wait_until_available := wait_until_available (d st);
                 wait_timeout := wait_timeout (d st);
                 value := Some token;
                 Id := GetUnixTimeStamp rt (queries st) |}.

(** What the service answers at attempt [n]: a DV certificate without
    workflow error whose token is not there yet, so that the query asks
    for a retry ... *)
Definition pendingAt (rt : Runtime) (svc : CpsService) (certID : Z) (n : nat)
  : Prop :=
  ∃ resp statusresp,
    CertificateGet svc certID n = inl resp
    ∧ CertificateGetCertificateStatus svc certID n = inl statusresp
    ∧ ValidationType resp = CdnProvidedCertificateValidationTypeDV
    ∧ WorkflowErrorMessage resp = ""
    ∧ CheckForRetry rt (GetDomainMetadata svc resp n) statusresp = true.

(** ... or such a certificate with the given token for its first domain. *)
Definition availableAt (rt : Runtime) (svc : CpsService) (certID : Z) (n : nat)
    (token : string) : Prop :=
  ∃ resp statusresp first rest,
    CertificateGet svc certID n = inl resp
    ∧ CertificateGetCertificateStatus svc certID n = inl statusresp
    ∧ ValidationType resp = CdnProvidedCertificateValidationTypeDV
    ∧ WorkflowErrorMessage resp = ""
    ∧ CheckForRetry rt (GetDomainMetadata svc resp n) statusresp = false
    ∧ GetDomainMetadata svc resp n = first :: rest
    ∧ DcvToken first = Some {| Token := token |}.

(** The two calls of one query, [n] times over. *)
Fixpoint callsOfQueries (certID : Z) (n : nat) : list Call :=
  match n with
  | 0 => []
  | S n' => CallCertificateGet certID
            :: CallCertificateGetCertificateStatus certID
            :: callsOfQueries certID n'
  end.

End cps.

(** ** A sample runtime and service for the token read *)

Module cps_sample.
Import cps.

(** Lower-casing of the ASCII letters; every other byte is kept. *)
Definition asciiLower (c : ascii) : ascii :=
  let n := nat_of_ascii c in
  if (65 <=? n) && (n <=? 90) then ascii_of_nat (n + 32) else c.

Fixpoint asciiToLower (s : string) : string :=
  match s with
  | EmptyString => EmptyString
  | String c s' => String (asciiLower c) (asciiToLower s')
  end.

Fixpoint digits (acc : Z) (s : string) : option (Z * string) :=
  match s with
  | EmptyString => Some (acc, s)
  | String c s' =>
      let n := Z.of_nat (nat_of_ascii c) in
      if (48 <=? n)%Z && (n <=? 57)%Z then digits (10 * acc + (n - 48)) s'
      else Some (acc, s)
  end.

(** Stand-ins that read the plain forms only: a decimal number, and a
    decimal number followed by [s], [m] or [h] (in nanoseconds). *)
Definition decimal (s : string) : Z + error :=
  match s, digits 0 s with
  | String _ _, Some (n, EmptyString) => inl n
  | _, _ => inr (lib_error "strconv.ParseInt")
  end.

Definition duration (s : string) : Z + error :=
  match s, digits 0 s with
  | String _ _, Some (n, "s") => inl (n * 1000000000)%Z
  | String _ _, Some (n, "m") => inl (n * 60000000000)%Z
  | String _ _, Some (n, "h") => inl (n * 3600000000000)%Z
  | _, _ => inr (lib_error "time.ParseDuration")
  end.

Definition runtime : Runtime :=
  {| ToLower := asciiToLower;
     ParseDuration := duration;
     ParseInt64 := decimal;
     attemptsWithin := λ timeout, Z.to_nat (timeout / 500000000);
     GetUnixTimeStamp := λ _, "1667114400" |}.

Definition certificate (validationType : string) : CertificateGetOK :=
  {| ValidationType := validationType; WorkflowErrorMessage := "" |}.

(** A service that answers every attempt alike: a certificate of the given
    validation type and status, with the given token for its one domain. *)
Definition service (validationType status : string) (token : option string)
  : CpsService :=
  {| CertificateGet := λ _ _, inl (certificate validationType);
     CertificateGetCertificateStatus := λ _ _, inl {| Status := status |};
     GetDomainMetadata := λ _ _,
       [ {| DcvToken := (λ t, {| Token := t |}) <$> token |} ] |}.

Definition data (retry : bool) (timeout : string) : ResourceData :=
  {| certificate_id := "42"; wait_until_available := retry;
     wait_timeout := timeout; value := None; Id := "" |}.

(** A service whose answers depend on the attempt: the certificate is
    returned as given, and the token of its one domain is there from the
    attempt [ready] on. *)
Definition serviceFrom (resp : CertificateGetOK + error)
    (status : CertificateGetCertificateStatusOK + error) (ready : nat)
    (token : string) : CpsService :=
  {| CertificateGet := λ _ _, resp;
     CertificateGetCertificateStatus := λ _ _, status;
     GetDomainMetadata := λ _ n,
       [ {| DcvToken := if ready <=? n then Some {| Token := token |}
                        else None |} ] |}.

End cps_sample.

(** * JSON texts *)

Module json.

(** The double quote and the backslash, by their codes. *)
Definition quote : ascii := "034"%char.
Definition backslash : ascii := "092"%char.

Definition code (c : ascii) : Z := Z.of_nat (nat_of_ascii c).
Definition byte (n : Z) : ascii := ascii_of_nat (Z.to_nat n).

(** The outcome of reading a text.  [OutOfRange] is a text of valid syntax
    with a number literal that no float64 holds: the decoder saves an
    [UnmarshalTypeError], puts nil in the number's place, goes on, and
    returns the saved error when it is through.  A syntax error anywhere in
    the text comes first, as the decoder checks the whole text before it
    builds anything.  [Exhausted] is an artefact of the recursion bound. *)
Inductive parsed (A : Type) : Type :=
| Parsed (a : A)
| OutOfRange (a : A)
| SyntaxError
| Exhausted.
Arguments Parsed {A} a.
Arguments OutOfRange {A} a.
Arguments SyntaxError {A}.
Arguments Exhausted {A}.

(** What follows a saved error carries it along. *)
Definition saveError {A} (p : parsed A) : parsed A :=
  match p with
  | Parsed a => OutOfRange a
  | _ => p
  end.

Definition andThen {A B} (p : parsed A) (f : A → parsed B) : parsed B :=
  match p with
  | Parsed a => f a
  | OutOfRange a => saveError (f a)
  | SyntaxError => SyntaxError
  | Exhausted => Exhausted
  end.

(** The scanner's limit on the number of objects and arrays open at a
    time. *)
Definition maxNestingDepth : Z := 10000.

Definition isSpace (c : ascii) : bool :=
  let n := code c in
  ((n =? 32) || (n =? 9) || (n =? 10) || (n =? 13))%Z.

Fixpoint skipSpace (s : string) : string :=
  match s with
  | String c s' => if isSpace c then skipSpace s' else s
  | EmptyString => s
  end.

(** *** String literals *)

Definition hexVal (c : ascii) : option Z :=
  let n := code c in
  if ((48 <=? n) && (n <=? 57))%Z then Some (n - 48)%Z
  else if ((97 <=? n) && (n <=? 102))%Z then Some (n - 87)%Z
  else if ((65 <=? n) && (n <=? 70))%Z then Some (n - 55)%Z
  else None.

(** [getu4] of the decoder: the value of four hex digits. *)
Definition hex4 (a b c d : ascii) : option Z :=
  match hexVal a, hexVal b, hexVal c, hexVal d with
  | Some x, Some y, Some z, Some w => Some (((x * 16 + y) * 16 + z) * 16 + w)%Z
  | _, _, _, _ => None
  end.

(** The UTF-8 bytes of a code point ([utf8.EncodeRune] on a valid one). *)
Definition utf8 (r : Z) : string :=
  (if r <? 128 then String (byte r) EmptyString
   else if r <? 2048 then
     String (byte (192 + r / 64)) (String (byte (128 + r mod 64)) EmptyString)
   else if r <? 65536 then
     String (byte (224 + r / 4096))
       (String (byte (128 + (r / 64) mod 64))
          (String (byte (128 + r mod 64)) EmptyString))
   else
     String (byte (240 + r / 262144))
       (String (byte (128 + (r / 4096) mod 64))
          (String (byte (128 + (r / 64) mod 64))
             (String (byte (128 + r mod 64)) EmptyString))))%Z.

Definition replacementChar : Z := 65533.

Definition isSurrogate (r : Z) : bool := ((55296 <=? r) && (r <? 57344))%Z.

(** [utf16.DecodeRune]. *)
Definition decodeSurrogates (r1 r2 : Z) : Z :=
  (if (55296 <=? r1) && (r1 <? 56320) && (56320 <=? r2) && (r2 <? 57344)
   then (r1 - 55296) * 1024 + (r2 - 56320) + 65536
   else replacementChar)%Z.

Definition isContinuation (c : ascii) (lo hi : Z) : bool :=
  ((lo <=? code c) && (code c <=? hi))%Z.

(** For a byte of 128 or more at the head of [String c s]: the number of
    bytes that follow it in a well-formed UTF-8 sequence, as
    [utf8.DecodeRune] accepts them. *)
Definition continuation (c : ascii) (s : string) : option nat :=
  let n := code c in
  let cont3 lo hi :=
    match s with
    | String c1 (String c2 (String c3 _)) =>
        if isContinuation c1 lo hi && isContinuation c2 128 191
           && isContinuation c3 128 191 then Some 3 else None
    | _ => None
    end in
  let cont2 lo hi :=
    match s with
    | String c1 (String c2 _) =>
        if isContinuation c1 lo hi && isContinuation c2 128 191
        then Some 2 else None
    | _ => None
    end in
  let cont1 :=
    match s with
    | String c1 _ => if isContinuation c1 128 191 then Some 1 else None
    | _ => None
    end in
  (if (194 <=? n) && (n <=? 223) then cont1
   else if n =? 224 then cont2 160 191
   else if ((225 <=? n) && (n <=? 236)) || (n =? 238) || (n =? 239)
     then cont2 128 191
   else if n =? 237 then cont2 128 159
   else if n =? 240 then cont3 144 191
   else if (241 <=? n) && (n <=? 243) then cont3 128 191
   else if n =? 244 then cont3 128 143
   else None)%Z.

Definition simpleEscape (c : ascii) : option ascii :=
  let n := code c in
  (if (n =? 34) || (n =? 92) || (n =? 47) then Some c
   else if n =? 98 then Some (byte 8)
   else if n =? 102 then Some (byte 12)
   else if n =? 110 then Some (byte 10)
   else if n =? 114 then Some (byte 13)
   else if n =? 116 then Some (byte 9)
   else None)%Z.

Definition prepend (pre : string) (p : option (string * string))
  : option (string * string) :=
  match p with
  | Some (str, rest) => Some ((pre ++ str)%string, rest)
  | None => None
  end.

(** The text after the opening quote of a string literal: the string it
    denotes and the text after the closing quote.  [pending] counts the
    bytes still to copy of a UTF-8 sequence found well-formed.  A control
    character and an unknown escape are errors; an ill-formed byte and a
    lone surrogate escape are replaced by U+FFFD. *)
Fixpoint readString (pending : nat) (s : string) : option (string * string) :=
  match s with
  | EmptyString => None
  | String c s' =>
      match pending with
      | S pending' => prepend (String c EmptyString) (readString pending' s')
      | 0 =>
          if Ascii.eqb c quote then Some (EmptyString, s')
          else if Ascii.eqb c backslash then
            match s' with
            | String e s'' =>
                match simpleEscape e with
                | Some c' => prepend (String c' EmptyString) (readString 0 s'')
                | None =>
                    if Ascii.eqb e "u" then
                      match s'' with
                      | String h1 (String h2 (String h3 (String h4 s3))) =>
                          match hex4 h1 h2 h3 h4 with
                          | None => None
                          | Some r =>
                              if isSurrogate r then
                                match s3 with
                                | String b (String u (String l1 (String l2
                                    (String l3 (String l4 s4))))) =>
                                    let r2 :=
                                      if Ascii.eqb b backslash && Ascii.eqb u "u"
                                      then hex4 l1 l2 l3 l4 else None in
                                    match r2 with
                                    | Some r2 =>
                                        let dec := decodeSurrogates r r2 in
                                        if (dec =? replacementChar)%Z
                                        then prepend (utf8 replacementChar)
                                               (readString 0 s3)
                                        else prepend (utf8 dec) (readString 0 s4)
                                    | None =>
                                        prepend (utf8 replacementChar)
                                          (readString 0 s3)
                                    end
                                | _ => prepend (utf8 replacementChar)
                                         (readString 0 s3)
                                end
                              else prepend (utf8 r) (readString 0 s3)
                          end
                      | _ => None
                      end
                    else None
                end
            | EmptyString => None
            end
          else if (code c <? 32)%Z then None
          else if (code c <? 128)%Z then
            prepend (String c EmptyString) (readString 0 s')
          else
            match continuation c s' with
            | Some k => prepend (String c EmptyString) (readString k s')
            | None => prepend (utf8 replacementChar) (readString 0 s')
            end
      end
  end.

(** *** Numbers *)

(** The digits at the head of a text: their value on top of [acc], their
    number, and the text after them. *)
Fixpoint takeDigits (acc : Z) (n : nat) (s : string) : Z * nat * string :=
  match s with
  | String c s' =>
      if ((48 <=? code c) && (code c <=? 57))%Z
      then takeDigits (10 * acc + (code c - 48))%Z (S n) s'
      else (acc, n, s)
  | EmptyString => (acc, n, s)
  end.

(** [strconv.ParseFloat(_, 64)] on the decimal [m * 10^e10] with [m >= 0],
    negated if [neg]: the bits of the nearest float64, ties to even; [None]
    when the nearest one is infinite. *)
Definition floatBits (neg : bool) (m e10 : Z) : option Z :=
  (let sign := if neg then 2 ^ 63 else 0 in
   if m =? 0 then Some sign
   else
     let num := if 0 <=? e10 then m * 10 ^ e10 else m in
     let den := if 0 <=? e10 then 1 else 10 ^ (- e10) in
     let scaled e := if 0 <=? e then (num, den * 2 ^ e) else (num * 2 ^ (- e), den) in
     let e0 := Z.log2 num - Z.log2 den - 52 in
     let e1 := if 2 ^ 52 * snd (scaled e0) <=? fst (scaled e0) then e0 else e0 - 1 in
     let e := Z.max e1 (- 1074) in
     let n := fst (scaled e) in
     let d := snd (scaled e) in
     let q := n / d in
     let r := n mod d in
     let q1 := if 2 * r <? d then q
               else if d <? 2 * r then q + 1
               else if Z.even q then q else q + 1 in
     let q2 := if q1 =? 2 ^ 53 then 2 ^ 52 else q1 in
     let e2 := if q1 =? 2 ^ 53 then e + 1 else e in
     if 971 <? e2 then None
     else if q2 <? 2 ^ 52 then Some (sign + q2)
     else Some (sign + (e2 + 1075) * 2 ^ 52 + (q2 - 2 ^ 52)))%Z.

(** A number literal at the head of a text: an optional minus, [0] or a
    digit sequence without leading zero, an optional fraction, an optional
    exponent.  [readNumber] gives the bits of the float64 and the text after
    the literal; the bits are [None] for a literal out of range. *)
Definition isDigit (c : ascii) : bool :=
  ((48 <=? code c) && (code c <=? 57))%Z.

Definition readExponent (s : string) : option (Z * string) :=
  let digitsOf (minus : bool) r :=
    let '(v, n, r') := takeDigits 0 0 r in
    match n with
    | 0 => None
    | _ => Some ((if minus then - v else v)%Z, r')
    end in
  match s with
  | String c r =>
      if Ascii.eqb c "e" || Ascii.eqb c "E" then
        match r with
        | String c' r' =>
            if Ascii.eqb c' "+" then digitsOf false r'
            else if Ascii.eqb c' "-" then digitsOf true r'
            else digitsOf false r
        | EmptyString => None
        end
      else Some (0%Z, s)
  | EmptyString => Some (0%Z, s)
  end.

Definition readFraction (int : Z) (s : string) : option (Z * nat * string) :=
  match s with
  | String c r =>
      if Ascii.eqb c "." then
        let '(v, n, r') := takeDigits int 0 r in
        match n with
        | 0 => None
        | _ => Some (v, n, r')
        end
      else Some (int, 0, s)
  | EmptyString => Some (int, 0, s)
  end.

Definition readInteger (s : string) : option (Z * string) :=
  match s with
  | String c r =>
      if Ascii.eqb c "0" then Some (0%Z, r)
      else if isDigit c
      then let '(v, _, r') := takeDigits 0 0 s in Some (v, r')
      else None
  | EmptyString => None
  end.

Definition readNumber (s : string) : option (option Z * string) :=
  let neg := match s with String c _ => Ascii.eqb c "-" | _ => false end in
  let s1 := match s with String c r => if Ascii.eqb c "-" then r else s | _ => s end in
  match readInteger s1 with
  | None => None
  | Some (i, s2) =>
      match readFraction i s2 with
      | None => None
      | Some (m, fracLen, s3) =>
          match readExponent s3 with
          | None => None
          | Some (e, s4) =>
              Some (floatBits neg m (e - Z.of_nat fracLen), s4)
          end
      end
  end.

(** *** Values *)

Fixpoint stripPrefix (pre s : string) : option string :=
  match pre with
  | EmptyString => Some s
  | String c pre' =>
      match s with
      | String c' s' => if Ascii.eqb c c' then stripPrefix pre' s' else None
      | EmptyString => None
      end
  end.

(** A text with the given byte at its head, and the text after it. *)
Definition headIs (c : ascii) (s : string) : option string :=
  match s with
  | String c' s' => if Ascii.eqb c' c then Some s' else None
  | EmptyString => None
  end.

(** A value at the head of a text, as the decoder builds it for an
    [interface{}]: the value and the text after it.  [open] counts the
    objects and arrays the value lies in; one more than [maxNestingDepth]
    is a syntax error.  In an object a later member replaces an earlier
    one of the same key. *)
Fixpoint readValue (fuel : nat) (open : Z) (s : string)
  : parsed (value * string) :=
  match fuel with
  | 0 => Exhausted
  | S fuel' =>
      let s0 := skipSpace s in
      match headIs "{" s0, headIs "[" s0, headIs quote s0 with
      | Some r, _, _ =>
          if (maxNestingDepth <=? open)%Z then SyntaxError
          else
            match headIs "}" (skipSpace r) with
            | Some r' => Parsed (VObj ∅, r')
            | None => readMembers fuel' (open + 1) ∅ (skipSpace r)
            end
      | _, Some r, _ =>
          if (maxNestingDepth <=? open)%Z then SyntaxError
          else
            match headIs "]" (skipSpace r) with
            | Some r' => Parsed (VArr [], r')
            | None => readElements fuel' (open + 1) [] (skipSpace r)
            end
      | _, _, Some r =>
          match readString 0 r with
          | Some (str, r') => Parsed (VStr str, r')
          | None => SyntaxError
          end
      | None, None, None =>
          match stripPrefix "null" s0, stripPrefix "true" s0,
                stripPrefix "false" s0 with
          | Some r', _, _ => Parsed (VNull, r')
          | _, Some r', _ => Parsed (VBool true, r')
          | _, _, Some r' => Parsed (VBool false, r')
          | None, None, None =>
              match readNumber s0 with
              | Some (Some bits, r') => Parsed (VNum bits, r')
              | Some (None, r') => OutOfRange (VNull, r')
              | None => SyntaxError
              end
          end
      end
  end
with readMembers (fuel : nat) (open : Z) (acc : obj) (s : string)
  : parsed (value * string) :=
  match fuel with
  | 0 => Exhausted
  | S fuel' =>
      match headIs quote s with
      | None => SyntaxError
      | Some r =>
          match readString 0 r with
          | None => SyntaxError
          | Some (key, r1) =>
              match headIs ":" (skipSpace r1) with
              | None => SyntaxError
              | Some r2 =>
                  andThen (readValue fuel' open r2) (λ '(v, r3),
                    let acc' := <[key := v]> acc in
                    match headIs "," (skipSpace r3),
                          headIs "}" (skipSpace r3) with
                    | Some r4, _ => readMembers fuel' open acc' (skipSpace r4)
                    | _, Some r4 => Parsed (VObj acc', r4)
                    | None, None => SyntaxError
                    end)
              end
          end
      end
  end
with readElements (fuel : nat) (open : Z) (acc : list value) (s : string)
  : parsed (value * string) :=
  match fuel with
  | 0 => Exhausted
  | S fuel' =>
      andThen (readValue fuel' open s) (λ '(v, r1),
        let acc' := acc ++ [v] in
        match headIs "," (skipSpace r1), headIs "]" (skipSpace r1) with
        | Some r2, _ => readElements fuel' open acc' r2
        | _, Some r2 => Parsed (VArr acc', r2)
        | None, None => SyntaxError
        end)
  end.

(** A whole text: one value, then white space only.  The length of the
    text bounds the recursion. *)
Definition decode (s : string) : parsed value :=
  andThen (readValue (S (String.length s)) 0 s) (λ '(v, rest),
    match skipSpace rest with
    | EmptyString => Parsed v
    | _ => SyntaxError
    end).

(** The tree the decoder builds from a text, whether or not a number of the
    text is out of range. *)
Definition decodesTo (s : string) (v : value) : Prop :=
  decode s = Parsed v ∨ decode s = OutOfRange v.

(** [json.Unmarshal(data, &policyMap)] on an empty map.  An object fills
    the map, also when a number of it is out of range: the member of such a
    number is nil, and the error is returned beside the filled map.  A
    syntax error and a value that is no object leave the map as it is;
    [null] sets the map to nil, which reads as an empty map (see
    [nilAfterUnmarshal]). *)
Definition Unmarshal (data : string) : obj * option error :=
  match decode data with
  | Parsed (VObj m) => (m, None)
  | OutOfRange (VObj m) =>
      (m, Some (lib_error "json: cannot unmarshal number into Go value of type float64"))
  | Parsed VNull => (∅, None)
  | Parsed _ | OutOfRange _ =>
      (∅, Some (lib_error "json: cannot unmarshal into Go value of type map[string]interface {}"))
  | SyntaxError | Exhausted => (∅, Some (lib_error "json: syntax error"))
  end.

(** Whether the map is nil after [json.Unmarshal(data, &policyMap)]: a
    lookup and a [delete] take a nil map as an empty one, a store into it
    panics. *)
Definition nilAfterUnmarshal (data : string) : bool :=
  match decode data with
  | Parsed VNull => true
  | _ => false
  end.

(** *** Compact texts *)

(** A string that a string literal holds as it is: written between quotes,
    it reads back as itself. *)
Definition verbatim (s : string) : Prop :=
  ∀ rest, readString 0 (s ++ String quote rest)%string = Some (s, rest).

(** Printable ASCII other than the quote and the backslash. *)
Definition plainChar (c : ascii) : bool :=
  ((32 <=? code c) && (code c <? 128))%Z
  && negb (Ascii.eqb c quote) && negb (Ascii.eqb c backslash).

Definition plain (s : string) : bool :=
  forallb plainChar (list_ascii_of_string s).

(** What may follow a value in a compact text. *)
Definition terminator (c : ascii) : bool :=
  Ascii.eqb c "," || Ascii.eqb c "]" || Ascii.eqb c "}".

Definition terminated (rest : string) : bool :=
  match rest with
  | EmptyString => true
  | String c _ => terminator c
  end.

(** A number literal and the bits it reads as. *)
Definition numeral (literal : string) (bits : Z) : Prop :=
  (∃ c s, literal = String c s ∧ Ascii.eqb c "-" || isDigit c = true)
  ∧ ∀ rest, terminated rest = true →
            readNumber (literal ++ rest)%string = Some (Some bits, rest).

(** Documents in writing order: the members of an object in the order they
    are written, a number with its literal. *)
Inductive doc : Type :=
| DNull
| DBool (b : bool)
| DNum (literal : string) (bits : Z)
| DStr (s : string)
| DArr (elems : list doc)
| DObj (members : list (string * doc)).

(** The compact text of a document: no white space, strings between
    quotes as they are. *)
Fixpoint write (d : doc) : string :=
  match d with
  | DNull => "null"
  | DBool b => if b then "true" else "false"
  | DNum literal _ => literal
  | DStr s => String quote (s ++ String quote EmptyString)
  | DArr elems => "[" ++ String.concat "," (map write elems) ++ "]"
  | DObj members =>
      "{" ++ String.concat ","
               (map (λ kv, match kv with
                           | (k, v) =>
                               String quote
                                 (k ++ String quote (String ":" (write v)))
                           end) members)
          ++ "}"
  end%string.

Definition insertMember (acc : obj) (kv : string * value) : obj :=
  <[kv.1 := kv.2]> acc.

Fixpoint toValue (d : doc) : value :=
  match d with
  | DNull => VNull
  | DBool b => VBool b
  | DNum _ bits => VNum bits
  | DStr s => VStr s
  | DArr elems => VArr (map toValue elems)
  | DObj members =>
      VObj (foldl insertMember ∅
              (map (λ kv, match kv with (k, v) => (k, toValue v) end) members))
  end.

(** The number of objects and arrays open at the innermost value. *)
Fixpoint nesting (d : doc) : Z :=
  match d with
  | DArr elems => 1 + foldr (λ x rest, Z.max (nesting x) rest) 0 elems
  | DObj members =>
      1 + foldr (λ kv rest, match kv with
                            | (_, v) => Z.max (nesting v) rest
                            end) 0 members
  | _ => 0
  end%Z.

(** Strings and keys that need no escape, numbers that read as noted. *)
Fixpoint wellFormed (d : doc) : Prop :=
  match d with
  | DNull | DBool _ => True
  | DNum literal bits => numeral literal bits
  | DStr s => verbatim s
  | DArr elems => foldr (λ x rest, wellFormed x ∧ rest) True elems
  | DObj members =>
      foldr (λ kv rest, match kv with
                        | (k, v) => verbatim k ∧ wellFormed v ∧ rest
                        end) True members
  end.

(** The bytes a written value starts with, the written form of a member,
    and what it means that the reader returns a written document. *)
Definition valueHead (c : ascii) : bool :=
  Ascii.eqb c quote || Ascii.eqb c "{" || Ascii.eqb c "[" || Ascii.eqb c "n"
  || Ascii.eqb c "t" || Ascii.eqb c "f" || Ascii.eqb c "-" || isDigit c.

Definition readsBack (d : doc) : Prop :=
  ∀ fuel open rest, terminated rest = true → String.length (write d) < fuel →
    (open + nesting d ≤ maxNestingDepth)%Z →
    readValue fuel open (write d ++ rest) = Parsed (toValue d, rest).

Definition member (kv : string * doc) : string :=
  match kv with
  | (k, v) => String quote (k ++ String quote (String ":" (write v)))
  end.

Definition memberValue (kv : string * doc) : string * value :=
  match kv with (k, v) => (k, toValue v) end.

End json.

(** * The rules-engine policy resource *)

Module rulesengine.

(** The template of the placeholder policy.  It is written here with an
    apostrophe wherever the source has a double quote; the template has no
    apostrophe of its own. *)
Definition emptyPolicyFormat : string :=
  Eval cbv in
    strings_Replace
      "{'@type':'policy-create','name':'Terraform Placeholder - %s','platform':'%s','rules':[{'@type':'rule-create','description':'Placeholder rule created by the Edgecast Terraform Provider','matches':[{'features':[{'type':'feature.comment','value':'Empty policy created on %s'}],'ordinal':1,'type':'match.always'}],'name':'Placeholder Rule'}],'state':'locked'}"
      "'" json.quote.

(** [fmt.Sprintf] for a format whose only verb is [%s], with string
    operands. *)
Fixpoint Sprintf (format : string) (args : list string) : string :=
  match format with
  | String "%" (String "s" rest) =>
      match args with
      | a :: args' => (a ++ Sprintf rest args')%string
      | [] => ("%!s(MISSING)" ++ Sprintf rest [])%string
      end
  | String c rest => String c (Sprintf rest args)
  | EmptyString => EmptyString
  end.

(** [strconv.Atoi]: an optional sign, then decimal digits, at least one;
    the value has to fit a 64-bit [int]. *)
Fixpoint atoiDigits (acc : Z) (s : string) : option Z :=
  match s with
  | EmptyString => Some acc
  | String c s' =>
      if ((48 <=? json.code c) && (json.code c <=? 57))%Z
      then atoiDigits (10 * acc + (json.code c - 48))%Z s'
      else None
  end.

Definition Atoi (s : string) : Z + error :=
  let syntax := inr (lib_error "strconv.Atoi: invalid syntax") in
  let neg := match s with String "-" _ => true | _ => false end in
  let digits :=
    match s with
    | String "-" r => r
    | String "+" r => r
    | _ => s
    end in
  match digits with
  | EmptyString => syntax
  | _ =>
      match atoiDigits 0 digits with
      | None => syntax
      | Some n =>
          let v := (if neg then - n else n)%Z in
          if ((- 2 ^ 63 <=? v) && (v <? 2 ^ 63))%Z then inl v
          else inr (lib_error "strconv.Atoi: value out of range")
      end
  end.

(** The resource data [d] of the policy resource. *)
Record ResourceData : Type := {
  Id : string;
  policy : string;
  deploy_to : string;
  deploy_request_id : string;
  account_number : string;
  portaltypeid : string;
  customeruserid : string
}.

Definition SetId (id : string) (d : ResourceData) : ResourceData :=
  {| Id := id; policy := policy d; deploy_to := deploy_to d;
     deploy_request_id := deploy_request_id d;
     account_number := account_number d; portaltypeid := portaltypeid d;
     customeruserid := customeruserid d |}.

Definition Set_policy (p : string) (d : ResourceData) : ResourceData :=
  {| Id := Id d; policy := p; deploy_to := deploy_to d;
     deploy_request_id := deploy_request_id d;
     account_number := account_number d; portaltypeid := portaltypeid d;
     customeruserid := customeruserid d |}.

Definition Set_deploy_request_id (r : string) (d : ResourceData)
  : ResourceData :=
  {| Id := Id d; policy := policy d; deploy_to := deploy_to d;
     deploy_request_id := r;
     account_number := account_number d; portaltypeid := portaltypeid d;
     customeruserid := customeruserid d |}.

(** [api.ClientConfig], the one field the handlers write. *)
Record ClientConfig : Type := { AccountNumber : string }.

Record AddDeployRequest : Type := {
  Message : string;
  PolicyID : Z;
  Environment : string
}.

Record AddPolicyOK : Type := { ID : string }.
Record DeployPolicyOK : Type := { DeployID : string }.

(** The remote service behind the API client: the answer to each request. *)
Record API : Type := {
  GetPolicy : string → string → string → Z → obj + error;
  AddPolicy : string → string → string → string → AddPolicyOK + error;
  DeployPolicy :
    AddDeployRequest → string → string → string → DeployPolicyOK + error
}.

(** The requests the handlers send; the client is used for nothing else. *)
Inductive Call : Type :=
| CallGetPolicy (accountNumber customerUserID portalTypeID : string)
    (policyID : Z)
| CallAddPolicy (body accountNumber portalTypeID customerUserID : string)
| CallDeployPolicy (request : AddDeployRequest)
    (accountNumber portalTypeID customerUserID : string).

(** What the handlers take from outside the sources. *)
Record Runtime : Type := {
  api : API;
  Now : string;                      (* time.Now().Format(time.RFC3339) *)
  Marshal : obj → string + error;    (* json.Marshal *)
  order : RangeOrder
}.

Record State : Type := {
  d : ResourceData;
  config : ClientConfig;
  calls : list Call
}.

Definition withData (f : ResourceData → ResourceData) (st : State) : State :=
  {| d := f (d st); config := config st; calls := calls st |}.

Definition logCall (c : Call) (st : State) : State :=
  {| d := d st; config := config st; calls := calls st ++ [c] |}.

Definition getDeployRequestData (d : ResourceData) (policyID : Z)
  : AddDeployRequest :=
  {| Message := "Auto-submitted policy";
     PolicyID := policyID;
     Environment := deploy_to d |}.

Definition getPolicy (rt : Runtime) (st : State) : (obj + error) * State :=
  let st := {| d := d st;
               config := {| AccountNumber := account_number (d st) |};
               calls := calls st |} in
  let portalTypeID := portaltypeid (d st) in
  let customerUserID := customeruserid (d st) in
  match Atoi (Id (d st)) with
  | inr err =>
      (inr (fmt_Errorf "error parsing Policy ID from state file: %v" err), st)
  | inl policyID =>
      let accountNumber := AccountNumber (config st) in
      (GetPolicy (api rt) accountNumber customerUserID portalTypeID policyID,
       logCall (CallGetPolicy accountNumber customerUserID portalTypeID
                  policyID) st)
  end.

Definition addPolicy (rt : Runtime) (policy : string) (isEmptyPolicy : bool)
    (st : State) : option error * State :=
  let customerID := account_number (d st) in
  let customerUserID := customeruserid (d st) in
  let portalTypeID := portaltypeid (d st) in
  let st := logCall (CallAddPolicy policy customerID portalTypeID
                       customerUserID) st in
  match AddPolicy (api rt) policy customerID portalTypeID customerUserID with
  | inr err => (Some (fmt_Errorf "addPolicy: %v" err), st)
  | inl parsedResponse =>
      match Atoi (ID parsedResponse) with
      | inr err => (Some (fmt_Errorf "addPolicy: parsing policy ID: %v" err), st)
      | inl policyID =>
          let st :=
            if isEmptyPolicy then st
            else withData (λ d, Set_policy policy (SetId (ID parsedResponse) d))
                   st in
          let deployRequest := getDeployRequestData (d st) policyID in
          let st := logCall (CallDeployPolicy deployRequest customerID
                               portalTypeID customerUserID) st in
          match DeployPolicy (api rt) deployRequest customerID portalTypeID
                  customerUserID with
          | inr deployErr => (Some (fmt_Errorf "addPolicy: %v" deployErr), st)
          | inl deployResponse =>
              let st :=
                if isEmptyPolicy then withData (SetId "") st
                else withData (Set_deploy_request_id (DeployID deployResponse))
                       st in
              (None, st)
          end
      end
  end.

(** [v.(string)], single-value form. *)
Definition asString (v : option value) : result string :=
  match v with
  | Some (VStr s) => Ok s
  | _ => Panic
  end.

Definition ResourcePolicyRead (rt : Runtime) (st : State)
  : result (Diagnostics * State) :=
  match getPolicy rt st with
  | (inr err, st) => Ok (Some err, withData (SetId "") st)
  | (inl policy, st) =>
      id ←! asString (policy !! "id");
      let st := withData (SetId id) st in
      policy ←! cleanPolicy (order rt) policy;
      match Marshal rt policy with
      | inr err =>
          Ok (Some (fmt_Errorf "error marshaling policy to json : %v" err),
              withData (SetId "") st)
      | inl policyAsString =>
          Ok (None, withData (Set_policy policyAsString) st)
      end
  end.

Definition ResourcePolicyCreate (rt : Runtime) (st : State)
  : result (Diagnostics * State) :=
  let policy := policy (d st) in
  let policyMap := fst (json.Unmarshal policy) in  (* the error is dropped *)
  if json.nilAfterUnmarshal policy then Panic      (* a store into a nil map *)
  else
    let policyMap := <["state" := VStr "locked"]> policyMap in
    match Marshal rt policyMap with
    | inr err => Ok (Some err, st)
    | inl policy =>
        match addPolicy rt policy false st with
        | (Some err, st) => Ok (Some err, st)
        | (None, st) => ResourcePolicyRead rt st
        end
    end.

Definition ResourcePolicyUpdate (rt : Runtime) (st : State)
  : result (Diagnostics * State) :=
  ResourcePolicyCreate rt st.

Definition ResourcePolicyDelete (rt : Runtime) (st : State)
  : result (Diagnostics * State) :=
  match getPolicy rt st with
  | (inr err, st) => Ok (Some err, st)
  | (inl policy, st) =>
      platform ←! asString (policy !! "platform");
      let timestamp := Now rt in
      let emptyPolicyJSON :=
        Sprintf emptyPolicyFormat [timestamp; platform; timestamp] in
      Ok (addPolicy rt emptyPolicyJSON true st)
  end.

Definition cleanPolicyForTerrafomState (rt : Runtime) (val : string)
  : result string :=
  if String.length val =? 0 then Ok val
  else
    let policyMap := fst (json.Unmarshal val) in
    policyMap ←! cleanPolicy (order rt) policyMap;
    match Marshal rt policyMap with
    | inr err => Panic
    | inl jsonBytes => Ok jsonBytes
    end.

(** The placeholder policy as a document. *)
Definition placeholder (timestamp platform : string) : json.doc :=
  json.DObj [
    ("@type", json.DStr "policy-create");
    ("name", json.DStr ("Terraform Placeholder - " ++ timestamp)%string);
    ("platform", json.DStr platform);
    ("rules", json.DArr [ json.DObj [
       ("@type", json.DStr "rule-create");
       ("description",
        json.DStr "Placeholder rule created by the Edgecast Terraform Provider");
       ("matches", json.DArr [ json.DObj [
          ("features", json.DArr [ json.DObj [
             ("type", json.DStr "feature.comment");
             ("value",
              json.DStr ("Empty policy created on " ++ timestamp)%string) ] ]);
          ("ordinal", json.DNum "1" 4607182418800017408);
          ("type", json.DStr "match.always") ] ]);
       ("name", json.DStr "Placeholder Rule") ] ]);
    ("state", json.DStr "locked") ].

End rulesengine.

(** ** A sample runtime and state for the policy resource *)

Module rulesengine_sample.
Import rulesengine.

(** A service that returns a policy of the given platform for every
    identifier and accepts every policy and every deploy request. *)
Definition service (platform : string) : API :=
  {| GetPolicy := λ _ _ _ _,
       inl {[ "id" := VStr "7"; "platform" := VStr platform;
              "rules" := VArr [] ]};
     AddPolicy := λ _ _ _ _, inl {| ID := "8" |};
     DeployPolicy := λ _ _ _ _, inl {| DeployID := "9" |} |}.

(** [Marshal] is a stand-in that fails; the runs below do not reach it. *)
Definition runtime (platform : string) : Runtime :=
  {| api := service platform;
     Now := "2022-10-30T07:20:00Z";
     Marshal := λ _, inr (lib_error "json.Marshal");
     order := listOrder |}.

Definition state (id : string) : State :=
  {| d := {| Id := id; policy := "{}"; deploy_to := "staging";
             deploy_request_id := ""; account_number := "0001";
             portaltypeid := "1"; customeruserid := "u" |};
     config := {| AccountNumber := "" |};
     calls := [] |}.

(** A platform name with a double quote in it. *)
Definition quotedPlatform : string :=
  String "a" (String json.quote (String "b" EmptyString)).

(** The written form of the members of an object. *)
Definition members (kvs : list (string * option string))
  : option (list string) :=
  mapM (λ kv : string * option string,
          (λ t, String json.quote
                  (kv.1 ++ String json.quote (String ":" t)))%string
          <$> kv.2) kvs.

(** An object and an array around their written parts. *)
Definition braces (parts : list string) : string :=
  ("{" ++ String.concat "," parts ++ "}")%string.

Definition brackets (parts : list string) : string :=
  ("[" ++ String.concat "," parts ++ "]")%string.

(** A stand-in for [json.Marshal] on trees without numbers: the compact
    text, strings between quotes as they are, the members of an object in
    the order of [map_to_list].  ([json.Marshal] escapes strings and sorts
    the members by key; the samples depend on neither.) *)
Fixpoint compact (v : value) : option string :=
  match v with
  | VNull => Some "null"
  | VBool b => Some (if b then "true" else "false")
  | VNum _ => None
  | VStr s =>
      Some (String json.quote (s ++ String json.quote EmptyString))%string
  | VArr l => brackets <$> mapM compact l
  | VObj m => braces <$> members (map_to_list (compact <$> m))
  | VMaps l =>
      brackets
        <$> mapM (λ m : gmap string value,
                    braces <$> members (map_to_list (compact <$> m))) l
  end.

(** The stand-in refuses what it does not write. *)
Definition marshal (m : obj) : string + error :=
  match compact (VObj m) with
  | Some text => inl text
  | None => inr (lib_error "json: unsupported value")
  end.

(** A service with fixed answers. *)
Definition serviceWith (fetched : obj + error) (added : AddPolicyOK + error)
    (deployed : DeployPolicyOK + error) : API :=
  {| GetPolicy := λ _ _ _ _, fetched;
     AddPolicy := λ _ _ _ _, added;
     DeployPolicy := λ _ _ _ _, deployed |}.

(** A runtime over a given service, with the stand-in for [json.Marshal]. *)
Definition runtimeWith (service : API) : Runtime :=
  {| api := service;
     Now := "2022-10-30T07:20:00Z";
     Marshal := marshal;
     order := listOrder |}.

(** A policy as the service returns it. *)
Definition fetchedPolicy : obj :=
  {[ "id" := VStr "8"; "state" := VStr "locked"; "platform" := VStr "adn";
     "name" := VStr "p";
     "rules" := VArr [ VObj {[ "id" := VStr "r1"; "name" := VStr "r" ]} ] ]}.

(** That policy after [cleanPolicy]. *)
Definition fetchedCleaned : obj :=
  {[ "platform" := VStr "adn"; "name" := VStr "p";
     "rules" := VMaps [ {[ "name" := VStr "r" ]} ] ]}.

(** A policy text with a number that no float64 holds. *)
Definition outOfRangePolicy : string :=
  strings_Replace "{'rules':[],'x':1e400}" "'" json.quote.

(** [n] arrays, one inside the other, around nothing. *)
Fixpoint nested (n : nat) (tail : string) : string :=
  match n with
  | 0 => tail
  | S n' => String "[" (nested n' (String "]" tail))
  end.

(** The text the stand-in makes of a map. *)
Definition textOf (m : obj) : string :=
  match marshal m with
  | inl text => text
  | inr _ => ""
  end.

(** A state with the given identifier and policy text. *)
Definition stateOf (id policy : string) : State :=
  {| d := {| Id := id; policy := policy; deploy_to := "staging";
             deploy_request_id := ""; account_number := "0001";
             portaltypeid := "1"; customeruserid := "u" |};
     config := {| AccountNumber := "" |};
     calls := [] |}.

End rulesengine_sample.

(** * Proofs *)

(** ** Facts about the loop of [standardizeMatchFeature] *)

Lemma strings_Replace_idem (s : string) (old new : ascii) :
  old ≠ new →
  strings_Replace (strings_Replace s old new) old new = strings_Replace s old new.
Proof.
  intros Hne. induction s as [|c s IH]; simpl; [done|]. rewrite IH. f_equal.
  destruct (Ascii.eqb c old) eqn:Hc; [|by rewrite Hc].
  destruct (Ascii.eqb new old) eqn:Hn; [|done].
  apply Ascii.eqb_eq in Hn. congruence.
Qed.

Lemma standardizeKey_idem (k : string) :
  standardizeKey (standardizeKey k) = standardizeKey k.
Proof. by apply strings_Replace_idem. Qed.

Lemma standardizeValue_idem (v : value) :
  standardizeValue (standardizeValue v) = standardizeValue v.
Proof.
  destruct v as [| | | |l| |]; simpl; try done.
  destruct (ConvertSliceToStrings l) eqn:Hl; simpl; [done|]. by rewrite Hl.
Qed.

Lemma loopInv_init (m0 : obj) : loopInv m0 [] m0.
Proof.
  split.
  - intros k' v' Hk. right. split; [done|]. by apply not_elem_of_nil.
  - intros k Hk. right. split; [done|]. by apply not_elem_of_nil.
Qed.

Lemma loopInv_visit (m0 : obj) (seen : list string) (m : obj) (x : string) :
  loopInv m0 seen m → loopInv m0 (seen ++ [x]) (visit m x).
Proof.
  intros [Hent Hkeys]. unfold visit. destruct (m !! x) as [v|] eqn:Hx.
  - split.
    + intros k' v' Hk'. destruct (decide (k' = standardizeKey x)) as [->|Hne].
      * rewrite lookup_insert_eq in Hk'. injection Hk' as <-. left.
        destruct (Hent _ _ Hx) as [(k & v0 & H0 & -> & ->)|[H0 ?]].
        -- exists k, v0. by rewrite standardizeKey_idem, standardizeValue_idem.
        -- by exists x, v.
      * rewrite lookup_insert_ne in Hk' by done.
        apply lookup_delete_Some in Hk' as [Hxk Hk'].
        destruct (Hent _ _ Hk') as [?|[H0 Hseen]]; [by left|right].
        split; [done|]. rewrite elem_of_app, list_elem_of_singleton. by intros [?|?].
    + intros k Hk. destruct (decide (standardizeKey x = standardizeKey k)) as [He|Hne].
      * left. rewrite <- He, lookup_insert_eq. by eexists.
      * destruct (Hkeys _ Hk) as [Hs|[Hs Hseen]].
        -- left. rewrite lookup_insert_ne by done.
           rewrite lookup_delete_ne; [done|]. intros ->.
           by rewrite standardizeKey_idem in Hne.
        -- destruct (decide (x = k)) as [->|Hxk]; [done|].
           right. split.
           ++ destruct (decide (standardizeKey x = k)) as [<-|Hk'].
              ** rewrite lookup_insert_eq. by eexists.
              ** rewrite lookup_insert_ne by done. by rewrite lookup_delete_ne.
           ++ rewrite elem_of_app, list_elem_of_singleton. by intros [?|?].
  - split.
    + intros k' v' Hk'. destruct (Hent _ _ Hk') as [?|[H0 Hseen]]; [by left|right].
      split; [done|]. rewrite elem_of_app, list_elem_of_singleton.
      intros [?| ->]; [done|congruence].
    + intros k Hk. destruct (Hkeys _ Hk) as [?|[[w Hs] Hseen]]; [by left|right].
      split; [by eexists|]. rewrite elem_of_app, list_elem_of_singleton.
      intros [?| ->]; [done|congruence].
Qed.

Lemma loopInv_along (m0 : obj) (sched seen : list string) (m : obj) :
  loopInv m0 seen m → loopInv m0 (seen ++ sched) (standardizeAlong sched m).
Proof.
  revert seen m. induction sched as [|x sched IH]; intros seen m Hinv; simpl.
  - by rewrite app_nil_r.
  - replace (seen ++ x :: sched) with ((seen ++ [x]) ++ sched)
      by (by rewrite <- app_assoc).
    apply IH. by apply loopInv_visit.
Qed.

(** After a covering schedule every entry is a standardized entry of the
    initial map. *)
Lemma standardizeAlong_entry (sched : list string) (m : obj) (k' : string) (v' : value) :
  covers sched m →
  standardizeAlong sched m !! k' = Some v' →
  ∃ k v, m !! k = Some v ∧ k' = standardizeKey k ∧ v' = standardizeValue v.
Proof.
  intros Hcov Hk'.
  destruct (loopInv_along m sched [] m (loopInv_init m)) as [Hent _].
  destruct (Hent _ _ Hk') as [?|[H0 Hseen]]; [done|].
  exfalso. apply Hseen. simpl. apply Hcov. by eexists.
Qed.

(** ... and every key of the initial map is there in standardized form. *)
Lemma standardizeAlong_key (sched : list string) (m : obj) (k : string) :
  covers sched m →
  is_Some (m !! k) → is_Some (standardizeAlong sched m !! standardizeKey k).
Proof.
  intros Hcov Hk.
  destruct (loopInv_along m sched [] m (loopInv_init m)) as [_ Hkeys].
  destruct (Hkeys _ Hk) as [?|[_ Hseen]]; [done|].
  exfalso. apply Hseen. simpl. by apply Hcov.
Qed.

(** An entry whose standardized key no other entry shares ends up under
    that key with its own standardized value. *)
Lemma standardizeAlong_lookup (sched : list string) (m : obj) (k : string) (v : value) :
  covers sched m →
  m !! k = Some v →
  (∀ k2, is_Some (m !! k2) → standardizeKey k2 = standardizeKey k → k2 = k) →
  standardizeAlong sched m !! standardizeKey k = Some (standardizeValue v).
Proof.
  intros Hcov Hk Huniq.
  destruct (standardizeAlong_key sched m k Hcov) as [w Hw]; [by eexists|].
  destruct (standardizeAlong_entry _ _ _ _ Hcov Hw) as (k2 & v2 & H2 & He & ->).
  assert (k2 = k) as -> by (apply Huniq; [by eexists|done]).
  rewrite Hw. congruence.
Qed.

(** *** Keys and values, one at a time *)







(** *** Collision-free maps *)

Lemma collisionFree_NoDup (m : obj) :
  collisionFree m → NoDup (standardizeKey <$> (map_to_list m).*1).
Proof.
  intros Hcf. apply NoDup_fmap_2_strong; [|apply NoDup_fst_map_to_list].
  intros k1 k2 H1 H2. apply Hcf.
  - apply list_elem_of_fmap in H1 as ([k v] & -> & H1).
    apply elem_of_map_to_list in H1. by eexists.
  - apply list_elem_of_fmap in H2 as ([k v] & -> & H2).
    apply elem_of_map_to_list in H2. by eexists.
Qed.

Lemma standardizeFresh_lookup (m : obj) (k : string) (v : value) :
  collisionFree m → m !! k = Some v →
  standardizeFresh m !! standardizeKey k = Some (standardizeValue v).
Proof.
  intros Hcf Hk. unfold standardizeFresh. apply elem_of_list_to_map.
  - rewrite <- list_fmap_compose.
    pose proof (collisionFree_NoDup m Hcf) as Hnd.
    by rewrite <- list_fmap_compose in Hnd.
  - apply list_elem_of_fmap. exists (k, v). split; [done|].
    by apply elem_of_map_to_list.
Qed.

Lemma standardizeFresh_entry (m : obj) (k' : string) (v' : value) :
  standardizeFresh m !! k' = Some v' →
  ∃ k v, m !! k = Some v ∧ k' = standardizeKey k ∧ v' = standardizeValue v.
Proof.
  intros Hk'. apply elem_of_list_to_map_2 in Hk'.
  apply list_elem_of_fmap in Hk' as ([k v] & [= -> ->] & Hkv).
  apply elem_of_map_to_list in Hkv. by exists k, v.
Qed.

Lemma standardizeAlong_fresh (sched : list string) (m : obj) :
  collisionFree m → covers sched m → standardizeAlong sched m = standardizeFresh m.
Proof.
  intros Hcf Hcov. apply map_eq. intros k'.
  destruct (standardizeAlong sched m !! k') as [v'|] eqn:Hk'.
  - destruct (standardizeAlong_entry _ _ _ _ Hcov Hk') as (k & v & Hk & -> & ->).
    symmetry. by apply standardizeFresh_lookup.
  - destruct (standardizeFresh m !! k') as [v'|] eqn:Hf; [|done].
    destruct (standardizeFresh_entry _ _ _ Hf) as (k & v & Hk & -> & ->).
    destruct (standardizeAlong_key sched m k Hcov) as [w Hw]; [by eexists|].
    congruence.
Qed.

Lemma coversb_covers (sched : list string) (m : obj) :
  coversb sched m = true → covers sched m.
Proof.
  unfold coversb. rewrite forallb_forall. intros Hall k [v Hk].
  eapply bool_decide_eq_true_1, Hall. apply list_elem_of_In, list_elem_of_fmap.
  exists (k, v). split; [done|]. by apply elem_of_map_to_list.
Qed.

Lemma NoDup_fmap_inj_on {A B} (f : A → B) (l : list A) (x y : A) :
  NoDup (f <$> l) → x ∈ l → y ∈ l → f x = f y → x = y.
Proof.
  induction l as [|a l IH]; simpl; intros Hnd Hx Hy Hf.
  - by apply elem_of_nil in Hx.
  - apply NoDup_cons in Hnd as [Ha Hnd].
    apply elem_of_cons in Hx as [->|Hx]; apply elem_of_cons in Hy as [->|Hy].
    + done.
    + destruct Ha. rewrite Hf. by apply list_elem_of_fmap_2.
    + destruct Ha. rewrite <- Hf. by apply list_elem_of_fmap_2.
    + by apply IH.
Qed.

Lemma collisionFreeb_collisionFree (m : obj) :
  collisionFreeb m = true → collisionFree m.
Proof.
  intros Hb. apply bool_decide_eq_true in Hb. intros k1 k2 [v1 H1] [v2 H2].
  apply (NoDup_fmap_inj_on _ _ _ _ Hb).
  - apply list_elem_of_fmap. exists (k1, v1). split; [done|].
    by apply elem_of_map_to_list.
  - apply list_elem_of_fmap. exists (k2, v2). split; [done|].
    by apply elem_of_map_to_list.
Qed.

(** ** The claims about [standardizeMatchFeature] *)

Example standardize_feature_list :
  standardizeMatchFeature listOrder
    {[ "type" := VStr "feature.list";
       "value" := VArr [VStr "a"; VStr "b"; VStr "c"] ]}
  = {[ "type" := VStr "feature.list"; "value" := VStr "a b c" ]}.
Proof. by vm_compute. Qed.

Example standardize_hyphen_key :
  standardizeMatchFeature listOrder
    {[ "ignore-case" := VBool true; "codes" := VArr [VStr "x"; VNum 7] ]}
  = {[ "ignore_case" := VBool true; "codes" := VArr [VStr "x"; VNum 7] ]}.
Proof. by vm_compute. Qed.

(** With two keys that standardize alike the order decides which value
    stays. *)
Example standardize_collision :
  let m : obj := {[ "a-b_c" := VNum 1; "a_b-c" := VNum 2 ]} in
  standardizeAlong ["a-b_c"; "a_b-c"] m = {[ "a_b_c" := VNum 2 ]}
  ∧ standardizeAlong ["a_b-c"; "a-b_c"] m = {[ "a_b_c" := VNum 1 ]}.
Proof. split; by vm_compute. Qed.


(** C10: on a map in which no two keys standardize to the same key,
    [standardizeMatchFeature] gives the same map under any two iteration
    orders of the map, and that map is the one built afresh by transforming
    each key and each value once.  The same holds of the delete-and-store
    loop along every schedule that reaches all entries of the map, whether
    or not it reaches again the entries the loop has stored. *)
Theorem standardizeMatchFeature_order_independent
    (m : obj) (ro1 ro2 : RangeOrder) :
  collisionFree m →
  standardizeMatchFeature ro1 m = standardizeMatchFeature ro2 m
  ∧ standardizeMatchFeature ro1 m = standardizeFresh m
  ∧ ∀ sched, covers sched m → standardizeAlong sched m = standardizeFresh m.
Proof.
  intros Hcf.
  assert (∀ ro, standardizeMatchFeature ro m = standardizeFresh m) as Hro.
  { intros ro. unfold standardizeMatchFeature.
    apply standardizeAlong_fresh; [done|]. apply range_keys_covers. }
  split_and!.
  - by rewrite !Hro.
  - apply Hro.
  - intros sched Hcov. by apply standardizeAlong_fresh.
Qed.

Lemma standardizeMatchFeature_order_independent_witness :
  let m : obj := {[ "ignore-case" := VBool true;
                    "value" := VArr [VStr "a"; VStr "b"] ]} in
  standardizeMatchFeature listOrder m
  = standardizeMatchFeature (lastOrder "ignore-case") m
  ∧ standardizeMatchFeature listOrder m = standardizeFresh m
  ∧ standardizeAlong ["value"; "ignore-case"; "ignore_case"; "value"] m
    = standardizeFresh m.
Proof.
  intros m.
  destruct (standardizeMatchFeature_order_independent m listOrder
              (lastOrder "ignore-case")) as (Hsame & Hfresh & Halong).
  - apply collisionFreeb_collisionFree. by vm_compute.
  - split; [exact Hsame|]. split; [exact Hfresh|].
    apply Halong, coversb_covers. by vm_compute.
Defined.

(** ** Outcomes and loops *)

Lemma bind_Ok {A B} (r : result A) (f : A → result B) (b : B) :
  bind r f = Ok b ↔ ∃ a, r = Ok a ∧ f a = Ok b.
Proof.
  destruct r as [a| |]; simpl; split; try done.
  - intros Hf. by exists a.
  - by intros (a' & [= <-] & Hf).
  - by intros (a' & [=] & _).
  - by intros (a' & [=] & _).
Qed.

Lemma forEach_Ok {A B} (f : A → result B) (l : list A) (l' : list B) :
  forEach f l = Ok l' ↔ Forall2 (λ x y, f x = Ok y) l l'.
Proof.
  revert l'. induction l as [|x l IH]; intros l'; simpl.
  - split; [intros [= <-]; constructor|by intros ->%Forall2_nil_inv_l].
  - rewrite bind_Ok. split.
    + intros (y & Hy & (ys & Hys & [= <-])%bind_Ok). constructor; [done|].
      by apply IH.
    + intros (y & ys & Hy & Hys & ->)%Forall2_cons_inv_l. exists y.
      split; [done|]. apply bind_Ok. exists ys. split; [by apply IH|done].
Qed.

Lemma forEach_Ok_elem {A B} (f : A → result B) (l : list A) (l' : list B) (y : B) :
  forEach f l = Ok l' → y ∈ l' → ∃ x, x ∈ l ∧ f x = Ok y.
Proof.
  intros Hl%forEach_Ok. induction Hl as [|x y' l l' Hx Hl IH].
  - by intros ?%elem_of_nil.
  - intros [->|Hy]%elem_of_cons.
    + exists x. split; [by left|done].
    + destruct (IH Hy) as (x' & Hx' & Hf). exists x'. split; [by right|done].
Qed.

Lemma forEach_fueled {A B} (f : A → result B) (l : list A) :
  (∀ x, x ∈ l → f x ≠ OutOfFuel) → forEach f l ≠ OutOfFuel.
Proof.
  induction l as [|x l IH]; intros Hf; simpl; [done|].
  destruct (f x) as [y| |] eqn:Hx; simpl; [|done|].
  - destruct (forEach f l) eqn:Hl; simpl; try done.
    exfalso. apply IH; [|done]. intros z Hz. apply Hf. by right.
  - exfalso. by apply (Hf x); [left|].
Qed.

Lemma forEach_mono {A B} (f g : A → result B) (l : list A) :
  (∀ x, x ∈ l → f x ≠ OutOfFuel → g x = f x) →
  forEach f l ≠ OutOfFuel → forEach g l = forEach f l.
Proof.
  induction l as [|x l IH]; intros Hfg; simpl; [done|].
  pose proof (Hfg x (list_elem_of_here _ _)) as Hx.
  destruct (f x) as [y| |] eqn:Hfx; simpl; [| |done].
  - rewrite Hx by done. simpl. intros Hl.
    rewrite IH; [done| |].
    + intros z Hz. apply Hfg. by right.
    + intros Hl'. by rewrite Hl' in Hl.
  - by rewrite Hx.
Qed.

Lemma replaceSlice_mono (key : string)
    (c1 c2 : list value → result (list obj)) (m : obj) :
  (∀ l, c1 l ≠ OutOfFuel → c2 l = c1 l) →
  replaceSlice key c1 m ≠ OutOfFuel →
  replaceSlice key c2 m = replaceSlice key c1 m.
Proof.
  intros Hc. unfold replaceSlice.
  destruct (m !! key) as [[| | | |l| |]|]; try done.
  intros Hl. rewrite Hc; [done|]. intros Hl'. by rewrite Hl' in Hl.
Qed.

Lemma replaceSlice_Ok (key : string)
    (clean : list value → result (list obj)) (m m' : obj) :
  replaceSlice key clean m = Ok m' →
  (∃ xs cleaned, m !! key = Some (VArr xs) ∧ clean xs = Ok cleaned
                 ∧ m' = <[key := VMaps cleaned]> m)
  ∨ ((∀ xs, m !! key ≠ Some (VArr xs)) ∧ m' = m).
Proof.
  unfold replaceSlice. destruct (m !! key) as [v|] eqn:Hk.
  - destruct v as [| | | |xs| |]; try (intros [= <-]; by right).
    intros (cleaned & Hc & [= <-])%bind_Ok. left. by exists xs, cleaned.
  - intros [= <-]. by right.
Qed.

Lemma replaceSlice_skip (key : string)
    (clean : list value → result (list obj)) (m : obj) :
  (∀ xs, m !! key ≠ Some (VArr xs)) → replaceSlice key clean m = Ok m.
Proof.
  intros Hk. unfold replaceSlice.
  destruct (m !! key) as [[| | | |xs| |]|]; try done. by destruct (Hk xs).
Qed.

Lemma replaceSlice_slice (key : string)
    (clean : list value → result (list obj)) (m : obj)
    (xs : list value) (cleaned : list obj) :
  m !! key = Some (VArr xs) → clean xs = Ok cleaned →
  replaceSlice key clean m = Ok (<[key := VMaps cleaned]> m).
Proof. intros Hk Hc. unfold replaceSlice. by rewrite Hk, Hc. Qed.

(** ** Depth *)

Lemma depth_elem (l : list value) (x : value) :
  x ∈ l → depth x < depth (VArr l).
Proof.
  simpl. induction l as [|y l IH]; simpl.
  - by intros ?%elem_of_nil.
  - intros [->|Hx%IH]%elem_of_cons; lia.
Qed.

Lemma depth_lookup (m : obj) (k : string) (v : value) :
  m !! k = Some v → depth v < depth (VObj m).
Proof.
  simpl. revert k v.
  apply (map_fold_weak_ind
    (λ r (m : obj), ∀ k v, m !! k = Some v → depth v < S r)).
  - intros k v. by rewrite lookup_empty.
  - intros i x m' r Hi IH k v.
    rewrite lookup_insert. case_decide as Hik.
    + intros [= ->]. lia.
    + intros Hk. specialize (IH _ _ Hk). lia.
Qed.

Lemma standardizeValue_slice (v : value) (xs : list value) :
  standardizeValue v = VArr xs →
  v = VArr xs ∧ ConvertSliceToStrings xs = None.
Proof.
  destruct v as [| | | |l| |]; simpl; try done.
  destruct (ConvertSliceToStrings l) eqn:Hl; [done|]. by intros [= <-].
Qed.

(** A slice found in a standardized map was in the map before. *)
Lemma standardizeMatchFeature_slice (ro : RangeOrder) (m : obj)
    (k' : string) (xs : list value) :
  standardizeMatchFeature ro m !! k' = Some (VArr xs) →
  ∃ k, m !! k = Some (VArr xs) ∧ k' = standardizeKey k
       ∧ ConvertSliceToStrings xs = None.
Proof.
  intros Hk'.
  destruct (standardizeAlong_entry _ _ _ _ (range_keys_covers ro m) Hk')
    as (k & v & Hk & -> & Hv).
  symmetry in Hv. apply standardizeValue_slice in Hv as [-> Hxs]. by exists k.
Qed.

(** ** The recursion bound of [cleanMatches] is never reached *)

Lemma cleanFeature_fueled (ro : RangeOrder) (feature : value) :
  cleanFeature ro feature ≠ OutOfFuel.
Proof. by destruct feature. Qed.

Lemma cleanMatch_mono (ro : RangeOrder)
    (c1 c2 : list value → result (list obj)) (match_ : value) :
  (∀ l, c1 l ≠ OutOfFuel → c2 l = c1 l) →
  cleanMatch ro c1 match_ ≠ OutOfFuel →
  cleanMatch ro c2 match_ = cleanMatch ro c1 match_.
Proof.
  intros Hc. unfold cleanMatch. destruct (asMap match_) as [m| |]; simpl; try done.
  intros Hf.
  rewrite (replaceSlice_mono _ c1 c2) by
    (try done; intros Hr; by rewrite Hr in Hf).
  done.
Qed.

Lemma cleanMatchesFuel_mono (ro : RangeOrder) (fuel fuel' : nat)
    (matches : list value) :
  fuel ≤ fuel' →
  cleanMatchesFuel ro fuel matches ≠ OutOfFuel →
  cleanMatchesFuel ro fuel' matches = cleanMatchesFuel ro fuel matches.
Proof.
  revert fuel' matches. induction fuel as [|fuel IH]; intros fuel' matches Hle.
  - done.
  - destruct fuel' as [|fuel']; [lia|]. simpl. apply forEach_mono.
    intros x _. apply cleanMatch_mono. intros l. apply IH. lia.
Qed.

Lemma cleanMatchesFuel_fueled (ro : RangeOrder) (fuel : nat)
    (matches : list value) :
  depth (VArr matches) ≤ fuel → cleanMatchesFuel ro fuel matches ≠ OutOfFuel.
Proof.
  revert matches. induction fuel as [|fuel IH]; intros matches Hd.
  - simpl in Hd. lia.
  - simpl. apply forEach_fueled. intros x Hx. apply depth_elem in Hx.
    unfold cleanMatch. destruct x as [| | | | |m|]; try done. simpl.
    destruct (replaceSlice "matches" _ _) as [m'| |] eqn:Hm; simpl; [|done|].
    + unfold replaceSlice. destruct (m' !! "features") as [[| | | |fs| |]|];
        try done.
      destruct (forEach (cleanFeature ro) fs) eqn:Hfs; try done.
      by apply forEach_fueled in Hfs; [|intros; apply cleanFeature_fueled].
    + unfold replaceSlice in Hm.
      destruct (standardizeMatchFeature ro (delete "ordinal" m) !! "matches")
        as [[| | | |cs| |]|] eqn:Hcs; try done.
      apply standardizeMatchFeature_slice in Hcs as (k & Hk & _).
      apply lookup_delete_Some in Hk as [_ Hk]. apply depth_lookup in Hk.
      destruct (cleanMatchesFuel ro fuel cs) eqn:Hr; try done.
      apply IH in Hr; [done|lia].
Qed.

(** [cleanMatches] returns: with a proper result or with a panic. *)
Lemma cleanMatches_total (ro : RangeOrder) (matches : list value) :
  cleanMatches ro matches ≠ OutOfFuel.
Proof. by apply cleanMatchesFuel_fueled. Qed.

(** Any bound that gives a result gives the result of [cleanMatches]. *)
Lemma cleanMatches_fuel (ro : RangeOrder) (fuel : nat)
    (matches : list value) (r : result (list obj)) :
  cleanMatchesFuel ro fuel matches = r → r ≠ OutOfFuel →
  cleanMatches ro matches = r.
Proof.
  intros <- Hr. unfold cleanMatches.
  destruct (Nat.le_ge_cases fuel (depth (VArr matches))) as [Hle|Hle].
  - by apply cleanMatchesFuel_mono.
  - symmetry. apply cleanMatchesFuel_mono; [done|]. apply cleanMatches_total.
Qed.

(** The unfolding of [cleanMatches]: the loop over the slice, with
    [cleanMatches] itself on the nested slices. *)
Lemma cleanMatches_unfold (ro : RangeOrder) (matches : list value) :
  cleanMatches ro matches = forEach (cleanMatch ro (cleanMatches ro)) matches.
Proof.
  pose proof (cleanMatches_total ro matches) as Htot.
  unfold cleanMatches in *. destruct (depth (VArr matches)) as [|fuel] eqn:Hd.
  - done.
  - simpl in *. symmetry. apply forEach_mono; [|done].
    intros x _ Hx. apply cleanMatch_mono; [|done].
    intros l Hl. by apply (cleanMatches_fuel ro fuel).
Qed.

Lemma cleanRule_total (ro : RangeOrder) (rule : value) :
  cleanRule ro rule ≠ OutOfFuel.
Proof.
  unfold cleanRule. destruct rule as [| | | | |m|]; try done. simpl.
  unfold replaceSlice. destruct (_ !! "matches") as [[| | | |ms| |]|]; try done.
  pose proof (cleanMatches_total ro ms). by destruct (cleanMatches ro ms).
Qed.

(** [cleanPolicy] returns: with the cleaned map or with a panic. *)
Lemma cleanPolicy_total (ro : RangeOrder) (policyMap : obj) :
  cleanPolicy ro policyMap ≠ OutOfFuel.
Proof.
  unfold cleanPolicy. destruct (asSlice _) as [rules| |] eqn:Hr; simpl; try done.
  - destruct (forEach (cleanRule ro) rules) eqn:Hf; try done.
    by apply forEach_fueled in Hf; [|intros; apply cleanRule_total].
  - unfold asSlice in Hr. by destruct (_ !! "rules") as [[]|].
Qed.

(** ** Trees as the decoder leaves them *)

Lemma decoded_VObj (m : obj) :
  decoded (VObj m) ↔ ∀ k v, m !! k = Some v → decoded v.
Proof.
  unfold decoded. simpl. split.
  - intros [= Hm] k v Hk. apply (f_equal (.!! k)) in Hm.
    rewrite lookup_fmap, Hk in Hm. by injection Hm.
  - intros Hm. f_equal. apply map_eq. intros k. rewrite lookup_fmap.
    destruct (m !! k) as [v|] eqn:Hk; simpl; [|done]. f_equal. by apply (Hm k).
Qed.

Lemma decoded_VArr (l : list value) : decoded (VArr l) ↔ Forall decoded l.
Proof.
  unfold decoded. simpl. split.
  - intros [= Hl]. induction l as [|x l IH]; [done|].
    injection Hl as Hx Hl. constructor; [done|by apply IH].
  - intros Hl. f_equal. induction Hl as [|x l Hx Hl IH]; [done|].
    rewrite fmap_cons. by f_equal.
Qed.

Lemma decoded_obj_fmap (m : obj) : decoded (VObj m) → reload <$> m = m.
Proof. by intros [= Hm]. Qed.

Lemma decoded_delete (k : string) (m : obj) :
  decoded (VObj m) → decoded (VObj (delete k m)).
Proof.
  rewrite !decoded_VObj. intros Hm k' v [_ Hk']%lookup_delete_Some.
  by apply (Hm k').
Qed.

Lemma decoded_standardizeValue (v : value) :
  decoded v → decoded (standardizeValue v).
Proof.
  destruct v as [| | | |l| |]; simpl; try done.
  by destruct (ConvertSliceToStrings l).
Qed.

Lemma decoded_standardizeMatchFeature (ro : RangeOrder) (m : obj) :
  decoded (VObj m) → decoded (VObj (standardizeMatchFeature ro m)).
Proof.
  rewrite !decoded_VObj. intros Hm k' v' Hk'.
  destruct (standardizeAlong_entry _ _ _ _ (range_keys_covers ro m) Hk')
    as (k & v & Hk & -> & ->).
  apply decoded_standardizeValue. by apply (Hm k).
Qed.

(** In a decoded map, a key that holds no [[]interface{}] holds no slice
    at all. *)
Lemma children_decoded_nil (key : string) (m : obj) :
  decoded (VObj m) → (∀ xs, m !! key ≠ Some (VArr xs)) → children key m = [].
Proof.
  rewrite decoded_VObj. intros Hm Hk. unfold children.
  destruct (m !! key) as [v|] eqn:Hv; [|done].
  destruct v as [| | | |xs| |l]; try done.
  - by destruct (Hk xs).
  - by specialize (Hm _ _ Hv).
Qed.

(** ** Keys that standardization cannot produce from another key *)

Lemma strings_Replace_inv (k t : string) (old new : ascii) :
  strings_Replace k old new = t → (∀ i, String.get i t ≠ Some new) → k = t.
Proof.
  revert t. induction k as [|c k IH]; intros t; simpl; [done|].
  destruct t as [|c' t]; [done|]. intros [= Hc Hk] Hno. f_equal.
  - subst c'. destruct (Ascii.eqb c old); [|done]. by destruct (Hno 0).
  - apply IH; [done|]. intros i. apply (Hno (S i)).
Qed.

Lemma underscoreFree_get (t : string) (i : nat) :
  underscoreFree t = true → String.get i t ≠ Some "_"%char.
Proof.
  unfold underscoreFree. revert i. induction t as [|c t IH]; intros i; simpl.
  - done.
  - intros [Hc Ht]%andb_prop. destruct i as [|i]; [|by apply IH].
    intros [= ->]. by rewrite Ascii.eqb_refl in Hc.
Qed.

Lemma standardizeKey_inv (k t : string) :
  underscoreFree t = true → standardizeKey k = t → k = t.
Proof.
  intros Ht Hk. eapply strings_Replace_inv; [done|].
  intros i. by apply underscoreFree_get.
Qed.

(** The lookup of such a key in a standardized map is the standardized
    lookup in the map before. *)
Lemma standardizeMatchFeature_lookup_plain (ro : RangeOrder) (m : obj) (t : string) :
  underscoreFree t = true → standardizeKey t = t →
  standardizeMatchFeature ro m !! t = standardizeValue <$> m !! t.
Proof.
  intros Ht Hst. pose proof (range_keys_covers ro m) as Hcov.
  unfold standardizeMatchFeature. destruct (m !! t) as [v|] eqn:Hk; simpl.
  - rewrite <- Hst at 1. apply standardizeAlong_lookup; [done..|].
    intros k2 _ H2. rewrite Hst in H2. by apply standardizeKey_inv.
  - destruct (standardizeAlong _ m !! t) as [v'|] eqn:Hk'; [|done].
    destruct (standardizeAlong_entry _ _ _ _ Hcov Hk') as (k & v & Hkv & He & _).
    symmetry in He. apply standardizeKey_inv in He; [|done]. congruence.
Qed.

Lemma standardizeMatchFeature_no_ordinal (ro : RangeOrder) (m : obj) :
  standardizeMatchFeature ro (delete "ordinal" m) !! "ordinal" = None.
Proof.
  rewrite standardizeMatchFeature_lookup_plain by done.
  by rewrite lookup_delete_eq.
Qed.

(** ** What the loop bodies return *)

Lemma cleanFeature_Ok (ro : RangeOrder) (feature : value) (f : obj) :
  cleanFeature ro feature = Ok f →
  ∃ m, feature = VObj m ∧ f = standardizeMatchFeature ro (delete "ordinal" m).
Proof. destruct feature; try done. intros [= <-]. by eexists. Qed.

Lemma cleanMatch_Ok (ro : RangeOrder)
    (recur : list value → result (list obj)) (match_ : value) (y : obj) :
  cleanMatch ro recur match_ = Ok y →
  ∃ m m3, match_ = VObj m
    ∧ replaceSlice "matches" recur
        (standardizeMatchFeature ro (delete "ordinal" m)) = Ok m3
    ∧ replaceSlice "features" (forEach (cleanFeature ro)) m3 = Ok y.
Proof.
  unfold cleanMatch. destruct match_ as [| | | | |m|]; try done. simpl.
  intros (m3 & H3 & Hy)%bind_Ok. by exists m, m3.
Qed.

(** ** No [ordinal] below a cleaned slice of matches *)

Lemma cleanMatch_ordinalFree (ro : RangeOrder)
    (recur : list value → result (list obj)) (match_ : value) (y : obj) :
  (∀ cs ccs, Forall decoded cs → recur cs = Ok ccs → Forall ordinalFree ccs) →
  decoded match_ → cleanMatch ro recur match_ = Ok y → ordinalFree y.
Proof.
  intros Hrec Hdec (m & m3 & -> & H3 & Hy)%cleanMatch_Ok.
  set (m2 := standardizeMatchFeature ro (delete "ordinal" m)) in *.
  assert (decoded (VObj m2)) as Hm2
    by by apply decoded_standardizeMatchFeature, decoded_delete.
  assert (m2 !! "ordinal" = None) as Hord
    by apply standardizeMatchFeature_no_ordinal.
  assert (m3 !! "ordinal" = None ∧ m3 !! "features" = m2 !! "features"
          ∧ ∀ c, c ∈ children "matches" m3 → ordinalFree c) as (Ho3 & Hf3 & Hc3).
  { apply replaceSlice_Ok in H3 as [(cs & ccs & Hcs & Hr & ->)|[Hcs ->]].
    - rewrite !lookup_insert_ne by done. split_and!; [done..|].
      unfold children. rewrite lookup_insert_eq. simpl. intros c Hc.
      eapply Forall_forall; [|exact Hc]. eapply Hrec; [|done].
      apply decoded_VArr. rewrite decoded_VObj in Hm2. by apply (Hm2 "matches").
    - split_and!; [done..|]. rewrite children_decoded_nil by done.
      by intros c ?%elem_of_nil. }
  apply replaceSlice_Ok in Hy as [(fs & cfs & Hfs & Hr & ->)|[Hfs ->]].
  - constructor.
    + by rewrite lookup_insert_ne.
    + unfold children. rewrite lookup_insert_eq. simpl. intros f Hf.
      destruct (forEach_Ok_elem _ _ _ _ Hr Hf)
        as (x & _ & (mf & -> & ->)%cleanFeature_Ok).
      apply standardizeMatchFeature_no_ordinal.
    + unfold children in *. by rewrite lookup_insert_ne.
  - constructor; [done| |done].
    rewrite Hf3 in Hfs. assert (children "features" m3 = []) as ->.
    { unfold children. rewrite Hf3.
      pose proof (children_decoded_nil "features" m2 Hm2 Hfs) as Hnil.
      by unfold children in Hnil. }
    by intros f ?%elem_of_nil.
Qed.

Lemma cleanMatchesFuel_ordinalFree (ro : RangeOrder) (fuel : nat)
    (matches : list value) (cleaned : list obj) :
  Forall decoded matches → cleanMatchesFuel ro fuel matches = Ok cleaned →
  Forall ordinalFree cleaned.
Proof.
  revert matches cleaned. induction fuel as [|fuel IH]; [done|].
  intros matches cleaned Hdec Hc. simpl in Hc. apply Forall_forall. intros y Hy.
  destruct (forEach_Ok_elem _ _ _ _ Hc Hy) as (x & Hx & Hxy).
  eapply cleanMatch_ordinalFree; [apply IH| |exact Hxy].
  by eapply Forall_forall in Hdec.
Qed.

Lemma cleanMatches_ordinalFree (ro : RangeOrder)
    (matches : list value) (cleaned : list obj) :
  Forall decoded matches → cleanMatches ro matches = Ok cleaned →
  Forall ordinalFree cleaned.
Proof. apply cleanMatchesFuel_ordinalFree. Qed.

Lemma matchBelow_ordinalFree (rule m : obj) :
  (∀ c, c ∈ children "matches" rule → ordinalFree c) →
  matchBelow rule m → ordinalFree m.
Proof.
  intros Htop. induction 1 as [m Hm|m m' _ IH Hm']; [by apply Htop|].
  destruct IH as [m _ _ Hnested]. by apply Hnested.
Qed.

Lemma cleanRule_Ok (ro : RangeOrder) (rule : value) (ruleMap : obj) :
  cleanRule ro rule = Ok ruleMap →
  ∃ m, rule = VObj m
    ∧ replaceSlice "matches" (cleanMatches ro)
        (delete "updated_at" (delete "created_at" (delete "ordinal"
           (delete "@type" (delete "@id" (delete "id" m)))))) = Ok ruleMap.
Proof. destruct rule as [| | | | |m|]; try done. intros Hr. by exists m. Qed.

Lemma cleanPolicy_Ok (ro : RangeOrder) (policyMap r : obj) :
  cleanPolicy ro policyMap = Ok r →
  let stripped :=
    delete "updated_at" (delete "created_at" (delete "history"
      (delete "state" (delete "policy_type" (delete "@type"
        (delete "@id" (delete "id" policyMap))))))) in
  ∃ rules ruleMaps,
    stripped !! "rules" = Some (VArr rules)
    ∧ forEach (cleanRule ro) rules = Ok ruleMaps
    ∧ r = <["rules" := VMaps ruleMaps]> stripped.
Proof.
  unfold cleanPolicy. intros (rules & Hrules & (ruleMaps & Hr & [= <-])%bind_Ok)%bind_Ok.
  exists rules, ruleMaps. split_and!; [|done..].
  unfold asSlice in Hrules.
  by destruct (_ !! "rules") as [[| | | |l| |]|]; try done; injection Hrules as ->.
Qed.

(** C3, as the code has it: on a decoded policy tree that [cleanPolicy]
    accepts, the cleaned root holds none of id, @id, @type, policy_type,
    state, history, created_at, updated_at; every rule holds none of id,
    @id, @type, ordinal, created_at, updated_at; and no match below a rule,
    at any depth of nested matches, and no feature of such a match holds
    ordinal. *)
Theorem cleanPolicy_metadata_removed (ro : RangeOrder) (policyMap r : obj) :
  decoded (VObj policyMap) → cleanPolicy ro policyMap = Ok r →
  (∀ k, k ∈ policyMetadata → r !! k = None)
  ∧ (∀ rule, rule ∈ children "rules" r →
       (∀ k, k ∈ ruleMetadata → rule !! k = None)
       ∧ (∀ m, matchBelow rule m →
            m !! "ordinal" = None
            ∧ ∀ f, f ∈ children "features" m → f !! "ordinal" = None)).
Proof.
  intros Hdec (rules & ruleMaps & Hrules & Hr & ->)%cleanPolicy_Ok. split.
  - intros k Hk. unfold policyMetadata in Hk.
    repeat (apply elem_of_cons in Hk as [->|Hk]);
      [rewrite lookup_insert_ne by done; rewrite !lookup_delete;
       repeat case_decide; done..|].
    by apply elem_of_nil in Hk.
  - intros rule Hrule. unfold children in Hrule.
    rewrite lookup_insert_eq in Hrule. simpl in Hrule.
    destruct (forEach_Ok_elem _ _ _ _ Hr Hrule)
      as (x & Hx & (m & -> & Hm)%cleanRule_Ok).
    assert (decoded (VObj m)) as Hdm.
    { do 8 apply lookup_delete_Some in Hrules as [_ Hrules].
      rewrite decoded_VObj in Hdec. specialize (Hdec _ _ Hrules).
      apply decoded_VArr in Hdec. by eapply Forall_forall in Hdec. }
    set (stripped := delete "updated_at" _) in Hm.
    assert (decoded (VObj stripped)) as Hds by by do 6 apply decoded_delete.
    split.
    + intros k Hk.
      assert (stripped !! k = None) as Hsk.
      { unfold ruleMetadata in Hk. subst stripped.
        repeat (apply elem_of_cons in Hk as [->|Hk]);
          [rewrite !lookup_delete; repeat case_decide; done..|].
        by apply elem_of_nil in Hk. }
      assert (k ≠ "matches") as Hkm.
      { intros ->. unfold ruleMetadata in Hk.
        repeat (apply elem_of_cons in Hk as [?|Hk]; [done|]).
        by apply elem_of_nil in Hk. }
      apply replaceSlice_Ok in Hm as [(ms & cms & _ & _ & ->)|[_ ->]];
        [by rewrite lookup_insert_ne|done].
    + intros mt Hmt.
      assert (ordinalFree mt) as [mt' Ho Hf _]; [|done].
      eapply matchBelow_ordinalFree; [|exact Hmt].
      apply replaceSlice_Ok in Hm as [(ms & cms & Hms & Hc & ->)|[Hms ->]].
      * unfold children. rewrite lookup_insert_eq. simpl. intros c Hc'.
        eapply Forall_forall; [|exact Hc'].
        eapply cleanMatches_ordinalFree; [|exact Hc].
        apply decoded_VArr. rewrite decoded_VObj in Hds.
        by apply (Hds "matches").
      * rewrite children_decoded_nil by done. by intros c ?%elem_of_nil.
Qed.

(** ** Cleaning what was cleaned, serialized and decoded again *)

Lemma visit_standardized (m : obj) (k : string) :
  standardized m → visit m k = m.
Proof.
  intros Hm. unfold visit. destruct (m !! k) as [v|] eqn:Hk; [|done].
  destruct (Hm _ _ Hk) as [-> ->]. rewrite insert_delete_eq. by apply insert_id.
Qed.

Lemma standardizeAlong_standardized (sched : list string) (m : obj) :
  standardized m → standardizeAlong sched m = m.
Proof.
  intros Hm. induction sched as [|k sched IH]; simpl; [done|].
  by rewrite visit_standardized.
Qed.

Lemma standardizeMatchFeature_standardized (ro : RangeOrder) (m : obj) :
  standardized (standardizeMatchFeature ro m).
Proof.
  intros k' v' Hk'.
  destruct (standardizeAlong_entry _ _ _ _ (range_keys_covers ro m) Hk')
    as (k & v & _ & -> & ->).
  by rewrite standardizeKey_idem, standardizeValue_idem.
Qed.

Lemma standardizeValue_reloadMaps (l : list obj) :
  l ≠ [] → standardizeValue (VArr (reloadMaps l)) = VArr (reloadMaps l).
Proof. by destruct l. Qed.

Lemma ConvertSliceToStrings_None_nonempty (xs : list value) :
  ConvertSliceToStrings xs = None → xs ≠ [].
Proof. by destruct xs. Qed.

Lemma forEach_length {A B} (f : A → result B) (l : list A) (l' : list B) :
  forEach f l = Ok l' → length l' = length l.
Proof. intros Hl%forEach_Ok. symmetry. by eapply Forall2_length. Qed.

Lemma forEach_fmap_id {A B} (f : A → result B) (g : B → A) (l : list B) :
  (∀ y, y ∈ l → f (g y) = Ok y) → forEach f (g <$> l) = Ok l.
Proof.
  induction l as [|y l IH]; intros Hf; [done|]. rewrite fmap_cons. simpl.
  rewrite Hf by left. simpl. rewrite IH; [done|]. intros z Hz. apply Hf.
  by right.
Qed.

Lemma replaceSlice_lookup_ne (key : string)
    (clean : list value → result (list obj)) (m m' : obj) (k : string) :
  replaceSlice key clean m = Ok m' → k ≠ key → m' !! k = m !! k.
Proof.
  intros [(xs & cleaned & _ & _ & ->)|[_ ->]]%replaceSlice_Ok Hk; [|done].
  by rewrite lookup_insert_ne.
Qed.

Lemma replaceSlice_lookup (key : string)
    (clean : list value → result (list obj)) (m m' : obj) :
  replaceSlice key clean m = Ok m' →
  (∃ xs cleaned, m !! key = Some (VArr xs) ∧ clean xs = Ok cleaned
                 ∧ m' !! key = Some (VMaps cleaned))
  ∨ ((∀ xs, m !! key ≠ Some (VArr xs)) ∧ m' !! key = m !! key).
Proof.
  intros [(xs & cleaned & Hxs & Hc & ->)|[Hxs ->]]%replaceSlice_Ok; [left|by right].
  exists xs, cleaned. by rewrite lookup_insert_eq.
Qed.

(** The second run of the replace pattern, on a map [n] that holds under
    [key] the reloaded form of what the first run left there: it leaves
    under [key] what the first run left, and nothing else changes. *)
Lemma replaceSlice_again (key : string)
    (clean clean' : list value → result (list obj)) (m m' n : obj) :
  replaceSlice key clean m = Ok m' →
  (∀ xs cleaned, m !! key = Some (VArr xs) → clean xs = Ok cleaned →
     clean' (reloadMaps cleaned) = Ok cleaned) →
  (∀ v, m !! key = Some v → decoded v) →
  n !! key = reload <$> m' !! key →
  replaceSlice key clean' n = Ok (partial_alter (λ _, m' !! key) key n).
Proof.
  intros [(xs & cleaned & Hxs & Hc & Hm')|[Hxs Hm']]%replaceSlice_lookup
    Hclean Hdec Hn; rewrite Hm' in *.
  - change (reload <$> Some (VMaps cleaned))
      with (Some (VArr (reloadMaps cleaned))) in Hn.
    unfold replaceSlice. rewrite Hn. by rewrite (Hclean _ _ Hxs Hc).
  - destruct (m !! key) as [v|] eqn:Hv; simpl in Hn.
    + rewrite (Hdec v eq_refl) in Hn.
      rewrite replaceSlice_skip by (intros ys; rewrite Hn; intros [= ->]; by destruct (Hxs ys)).
      f_equal. symmetry. exact (insert_id n key v Hn).
    + rewrite replaceSlice_skip by (intros ys; by rewrite Hn).
      f_equal. symmetry. exact (delete_id n key Hn).
Qed.

Lemma cleanFeature_again (ro ro' : RangeOrder) (feature : value) (f : obj) :
  decoded feature → cleanFeature ro feature = Ok f →
  cleanFeature ro' (VObj (reload <$> f)) = Ok f.
Proof.
  intros Hdec (m & -> & ->)%cleanFeature_Ok.
  rewrite decoded_obj_fmap
    by by apply decoded_standardizeMatchFeature, decoded_delete.
  unfold cleanFeature. simpl. f_equal.
  rewrite delete_id by apply standardizeMatchFeature_no_ordinal.
  apply standardizeAlong_standardized, standardizeMatchFeature_standardized.
Qed.

Lemma cleanFeatures_again (ro ro' : RangeOrder)
    (features : list value) (cleaned : list obj) :
  Forall decoded features →
  forEach (cleanFeature ro) features = Ok cleaned →
  forEach (cleanFeature ro') (reloadMaps cleaned) = Ok cleaned.
Proof.
  intros Hdec Hc. apply forEach_fmap_id. intros f Hf.
  destruct (forEach_Ok_elem _ _ _ _ Hc Hf) as (x & Hx & Hxf).
  eapply cleanFeature_again; [|exact Hxf]. by eapply Forall_forall in Hdec.
Qed.

Lemma cleanMatch_again (ro ro' : RangeOrder)
    (recur recur' : list value → result (list obj)) (match_ : value) (y : obj) :
  (∀ cs ccs, Forall decoded cs → recur cs = Ok ccs →
     length ccs = length cs ∧ recur' (reloadMaps ccs) = Ok ccs) →
  decoded match_ → cleanMatch ro recur match_ = Ok y →
  cleanMatch ro' recur' (VObj (reload <$> y)) = Ok y.
Proof.
  intros Hrec Hdec (m & m3 & -> & H3 & Hy)%cleanMatch_Ok.
  set (m2 := standardizeMatchFeature ro (delete "ordinal" m)) in *.
  assert (decoded (VObj m2)) as Hm2
    by by apply decoded_standardizeMatchFeature, decoded_delete.
  pose proof (proj1 (decoded_VObj m2) Hm2) as Hm2v.
  assert (standardized m2) as Hst2 by apply standardizeMatchFeature_standardized.
  assert (m2 !! "ordinal" = None) as Hord
    by apply standardizeMatchFeature_no_ordinal.
  assert (∀ k, k ≠ "matches" → k ≠ "features" → y !! k = m2 !! k) as Yne.
  { intros k Hk1 Hk2. rewrite (replaceSlice_lookup_ne _ _ _ _ _ Hy) by done.
    by rewrite (replaceSlice_lookup_ne _ _ _ _ _ H3). }
  assert (y !! "matches" = m3 !! "matches") as Ym
    by by rewrite (replaceSlice_lookup_ne _ _ _ _ _ Hy).
  assert (m3 !! "features" = m2 !! "features") as M3f
    by by rewrite (replaceSlice_lookup_ne _ _ _ _ _ H3).
  set (n := reload <$> y).
  assert (∀ k, n !! k = reload <$> y !! k) as Hn
    by (intros k; apply lookup_fmap).
  assert (∀ k v, m2 !! k = Some v → reload <$> m2 !! k = Some v) as Hre.
  { intros k v Hk. rewrite Hk. simpl. f_equal. by apply (Hm2v k). }
  assert (standardized n) as Hstn.
  { intros k v. rewrite Hn.
    destruct (decide (k = "matches")) as [->|Hk1];
      [|destruct (decide (k = "features")) as [->|Hk2]].
    - rewrite Ym.
      destruct (replaceSlice_lookup _ _ _ _ H3)
        as [(cs & ccs & Hcs & Hr & ->)|[_ ->]].
      + intros [= <-]. split; [done|]. apply standardizeValue_reloadMaps.
        destruct (Hst2 _ _ Hcs) as [_ [_ Hne%ConvertSliceToStrings_None_nonempty]%standardizeValue_slice].
        destruct (Hrec cs ccs) as [Hlen _]; [|done|].
        * apply decoded_VArr. by apply (Hm2v "matches").
        * intros ->. by destruct cs.
      + destruct (m2 !! "matches") as [v0|] eqn:H0; [|done].
        rewrite <- H0, (Hre _ _ H0). intros [= <-]. by apply Hst2 in H0.
    - destruct (replaceSlice_lookup _ _ _ _ Hy)
        as [(fs & cfs & Hfs & Hr & ->)|[_ ->]].
      + intros [= <-]. split; [done|]. apply standardizeValue_reloadMaps.
        rewrite M3f in Hfs.
        destruct (Hst2 _ _ Hfs) as [_ [_ Hne%ConvertSliceToStrings_None_nonempty]%standardizeValue_slice].
        apply forEach_length in Hr. intros ->. by destruct fs.
      + rewrite M3f. destruct (m2 !! "features") as [v0|] eqn:H0; [|done].
        rewrite <- H0, (Hre _ _ H0). intros [= <-]. by apply Hst2 in H0.
    - rewrite Yne by done. destruct (m2 !! k) as [v0|] eqn:H0; [|done].
      rewrite <- H0, (Hre _ _ H0). intros [= <-]. by apply Hst2 in H0. }
  unfold cleanMatch. simpl. fold n.
  rewrite delete_id by (by rewrite Hn, Yne, Hord).
  unfold standardizeMatchFeature. rewrite standardizeAlong_standardized by done.
  rewrite (replaceSlice_again "matches" recur recur' m2 m3 n H3); simpl.
  - rewrite (replaceSlice_again "features" (forEach (cleanFeature ro))
               (forEach (cleanFeature ro')) m3 y _ Hy).
    + f_equal. apply map_eq. intros k.
      destruct (decide (k = "features")) as [->|Hk2];
        [by rewrite lookup_partial_alter_eq|].
      rewrite lookup_partial_alter_ne by done.
      destruct (decide (k = "matches")) as [->|Hk1];
        [by rewrite lookup_partial_alter_eq|].
      rewrite lookup_partial_alter_ne by done.
      rewrite Hn, Yne by done.
      destruct (m2 !! k) as [v0|] eqn:H0; [|done]. by rewrite <- H0, (Hre _ _ H0).
    + intros fs cfs Hfs. apply cleanFeatures_again.
      apply decoded_VArr. rewrite M3f in Hfs. by apply (Hm2v "features").
    + intros v. rewrite M3f. apply Hm2v.
    + by rewrite lookup_partial_alter_ne, Hn.
  - intros cs ccs Hcs Hr. apply (Hrec cs ccs); [|done].
    apply decoded_VArr. by apply (Hm2v "matches").
  - apply Hm2v.
  - by rewrite Hn, Ym.
Qed.

Lemma cleanMatchesFuel_again (ro ro' : RangeOrder) (fuel : nat)
    (matches : list value) (cleaned : list obj) :
  Forall decoded matches → cleanMatchesFuel ro fuel matches = Ok cleaned →
  length cleaned = length matches
  ∧ cleanMatchesFuel ro' fuel (reloadMaps cleaned) = Ok cleaned.
Proof.
  revert matches cleaned. induction fuel as [|fuel IH]; [done|].
  intros matches cleaned Hdec Hc. simpl in *.
  split; [by eapply forEach_length|].
  apply forEach_fmap_id. intros y Hy.
  destruct (forEach_Ok_elem _ _ _ _ Hc Hy) as (x & Hx & Hxy).
  eapply cleanMatch_again; [apply IH| |exact Hxy].
  by eapply Forall_forall in Hdec.
Qed.

Lemma cleanMatches_again (ro ro' : RangeOrder)
    (matches : list value) (cleaned : list obj) :
  Forall decoded matches → cleanMatches ro matches = Ok cleaned →
  cleanMatches ro' (reloadMaps cleaned) = Ok cleaned.
Proof.
  intros Hdec Hc. eapply cleanMatches_fuel; [|done].
  by eapply cleanMatchesFuel_again.
Qed.

Lemma ruleMetadata_deleted (m : obj) (k : string) :
  k ∈ ruleMetadata →
  delete "updated_at" (delete "created_at" (delete "ordinal"
    (delete "@type" (delete "@id" (delete "id" m))))) !! k = None.
Proof.
  intros Hk. unfold ruleMetadata in Hk.
  repeat (apply elem_of_cons in Hk as [->|Hk]);
    [rewrite !lookup_delete; repeat case_decide; done..|].
  by apply elem_of_nil in Hk.
Qed.

Lemma policyMetadata_deleted (m : obj) (k : string) :
  k ∈ policyMetadata →
  delete "updated_at" (delete "created_at" (delete "history"
    (delete "state" (delete "policy_type" (delete "@type"
      (delete "@id" (delete "id" m))))))) !! k = None.
Proof.
  intros Hk. unfold policyMetadata in Hk.
  repeat (apply elem_of_cons in Hk as [->|Hk]);
    [rewrite !lookup_delete; repeat case_decide; done..|].
  by apply elem_of_nil in Hk.
Qed.

Lemma cleanRule_again (ro ro' : RangeOrder) (rule : value) (ruleMap : obj) :
  decoded rule → cleanRule ro rule = Ok ruleMap →
  cleanRule ro' (VObj (reload <$> ruleMap)) = Ok ruleMap.
Proof.
  intros Hdec (m & -> & Hm)%cleanRule_Ok.
  set (stripped := delete "updated_at" _) in Hm.
  assert (decoded (VObj stripped)) as Hds by by do 6 apply decoded_delete.
  pose proof (proj1 (decoded_VObj _) Hds) as Hdv.
  set (n := reload <$> ruleMap).
  assert (∀ k, k ≠ "matches" → n !! k = stripped !! k) as Hn.
  { intros k Hk. unfold n.
    rewrite lookup_fmap, (replaceSlice_lookup_ne _ _ _ _ _ Hm) by done.
    destruct (stripped !! k) as [v|] eqn:Hv; [|done]. simpl. f_equal.
    by apply (Hdv k). }
  assert (∀ k, k ∈ ruleMetadata → n !! k = None) as Hnone.
  { intros k Hk. rewrite Hn; [by apply ruleMetadata_deleted|].
    intros ->. unfold ruleMetadata in Hk.
    repeat (apply elem_of_cons in Hk as [?|Hk]; [done|]).
    by apply elem_of_nil in Hk. }
  unfold cleanRule. simpl. fold n.
  repeat match goal with
         | |- context [delete ?k n] =>
             rewrite (delete_id n k)
               by (apply Hnone; unfold ruleMetadata; set_solver)
         end.
  rewrite (replaceSlice_again "matches" (cleanMatches ro) (cleanMatches ro')
             stripped ruleMap n Hm).
  - f_equal. apply map_eq. intros k.
    destruct (decide (k = "matches")) as [->|Hk];
      [by rewrite lookup_partial_alter_eq|].
    rewrite lookup_partial_alter_ne, Hn by done.
    by rewrite (replaceSlice_lookup_ne _ _ _ _ _ Hm).
  - intros ms cms Hms. apply cleanMatches_again.
    apply decoded_VArr. by apply (Hdv "matches").
  - apply Hdv.
  - apply lookup_fmap.
Qed.

(** ** The claims about [cleanPolicy] *)

Example cleanPolicy_sample : cleanPolicy listOrder samplePolicy = Ok sampleCleaned.
Proof. by vm_compute. Qed.

(** What [cleanPolicy] returns holds its rules as a typed slice, which the
    assertion to [[]interface{}] at the head of [cleanPolicy] rejects. *)
Lemma cleanPolicy_on_own_result (ro ro' : RangeOrder) (policyMap r : obj) :
  cleanPolicy ro policyMap = Ok r → cleanPolicy ro' r = Panic.
Proof.
  intros (rules & ruleMaps & _ & _ & ->)%cleanPolicy_Ok. unfold cleanPolicy.
  rewrite !lookup_delete_ne by done. by rewrite lookup_insert_eq.
Qed.

(** C1 as stated fails: on the policy [{"rules": []}] the first run of
    [cleanPolicy] succeeds and the second run, on the map the first one
    returned, panics. *)
Lemma cleanPolicy_twice_panics :
  ∃ r, cleanPolicy listOrder noRulePolicy = Ok r
       ∧ cleanPolicy listOrder r = Panic
       ∧ cleanPolicy listOrder r ≠ cleanPolicy listOrder noRulePolicy.
Proof.
  exists {[ "rules" := VMaps [] ]}. split_and!; [by vm_compute..|].
  by vm_compute.
Qed.

(** C1, as the code has it: for a policy tree as the JSON decoder returns
    it, if [cleanPolicy] returns [r], then [cleanPolicy] run on the decoded
    serialization of [r] returns [r] again, whatever the iteration orders
    of the maps in the two runs. *)
Theorem cleanPolicy_idempotent_reload (ro ro' : RangeOrder) (policyMap r : obj) :
  decoded (VObj policyMap) → cleanPolicy ro policyMap = Ok r →
  cleanPolicy ro' (reload <$> r) = Ok r.
Proof.
  intros Hdec (rules & ruleMaps & Hrules & Hr & ->)%cleanPolicy_Ok.
  set (stripped := delete "updated_at" _) in *.
  assert (decoded (VObj stripped)) as Hds by by do 8 apply decoded_delete.
  pose proof (proj1 (decoded_VObj _) Hds) as Hdv.
  rewrite fmap_insert, (decoded_obj_fmap _ Hds).
  change (reload (VMaps ruleMaps)) with (VArr (reloadMaps ruleMaps)).
  set (n := <["rules" := VArr (reloadMaps ruleMaps)]> stripped).
  assert (∀ k, k ∈ policyMetadata → n !! k = None) as Hnone.
  { intros k Hk. unfold n. rewrite lookup_insert_ne.
    - by apply policyMetadata_deleted.
    - intros <-. unfold policyMetadata in Hk.
      repeat (apply elem_of_cons in Hk as [?|Hk]; [done|]).
      by apply elem_of_nil in Hk. }
  unfold cleanPolicy.
  repeat match goal with
         | |- context [delete ?k n] =>
             rewrite (delete_id n k)
               by (apply Hnone; unfold policyMetadata; set_solver)
         end.
  unfold n at 1. rewrite lookup_insert_eq. cbn [asSlice bind].
  unfold reloadMaps at 1. rewrite forEach_fmap_id.
  - simpl. unfold n. by rewrite insert_insert_eq.
  - intros y Hy. destruct (forEach_Ok_elem _ _ _ _ Hr Hy) as (x & Hx & Hxy).
    eapply cleanRule_again; [|exact Hxy].
    specialize (Hdv _ _ Hrules). apply decoded_VArr in Hdv.
    by eapply Forall_forall in Hdv.
Qed.

Lemma cleanPolicy_idempotent_reload_witness :
  cleanPolicy listOrder (reload <$> sampleCleaned) = Ok sampleCleaned.
Proof.
  apply (cleanPolicy_idempotent_reload listOrder listOrder samplePolicy);
    by vm_compute.
Defined.

(** The keys that may be missing without harm: a rule without [matches],
    a match without [matches] and [features]. *)
Lemma cleanRule_no_matches (ro : RangeOrder) (m : obj) :
  m !! "matches" = None →
  cleanRule ro (VObj m)
  = Ok (delete "updated_at" (delete "created_at" (delete "ordinal"
         (delete "@type" (delete "@id" (delete "id" m)))))).
Proof.
  intros Hm. unfold cleanRule. simpl. apply replaceSlice_skip.
  intros xs. by rewrite !lookup_delete_ne, Hm.
Qed.

Lemma cleanMatch_no_matches_no_features (ro : RangeOrder)
    (recur : list value → result (list obj)) (m : obj) :
  m !! "matches" = None → m !! "features" = None →
  cleanMatch ro recur (VObj m)
  = Ok (standardizeMatchFeature ro (delete "ordinal" m)).
Proof.
  intros Hm Hf. unfold cleanMatch. simpl.
  rewrite replaceSlice_skip; simpl.
  - apply replaceSlice_skip. intros xs.
    rewrite standardizeMatchFeature_lookup_plain by done.
    by rewrite lookup_delete_ne, Hf.
  - intros xs. rewrite standardizeMatchFeature_lookup_plain by done.
    by rewrite lookup_delete_ne, Hm.
Qed.

Lemma cleanPolicy_no_rules (ro : RangeOrder) (policyMap : obj) :
  policyMap !! "rules" = None → cleanPolicy ro policyMap = Panic.
Proof.
  intros Hr. unfold cleanPolicy. by rewrite !lookup_delete_ne, Hr.
Qed.

(** C2 fails at the root: on the policy [{}], which has no [rules] key,
    [cleanPolicy] panics, whatever the iteration order of maps; and so it
    does on [{"name": "x"}]. *)
Theorem cleanPolicy_missing_rules_panics (ro : RangeOrder) :
  cleanPolicy ro ∅ = Panic
  ∧ cleanPolicy ro {[ "name" := VStr "x" ]} = Panic.
Proof. split; by apply cleanPolicy_no_rules. Qed.

(** C3 as stated fails: a rule keeps its [state] key. *)
Lemma cleanPolicy_rule_keeps_state :
  ∃ r rule, cleanPolicy listOrder ruleStatePolicy = Ok r
            ∧ rule ∈ children "rules" r
            ∧ "state" ∈ policyMetadata
            ∧ rule !! "state" = Some (VStr "on").
Proof.
  exists {[ "rules" := VMaps [ {[ "name" := VStr "r"; "state" := VStr "on" ]} ] ]},
         {[ "name" := VStr "r"; "state" := VStr "on" ]}.
  split_and!; [by vm_compute| |unfold policyMetadata; set_solver|by vm_compute].
  unfold children. rewrite lookup_singleton_eq. simpl. by left.
Qed.

(** The sample has a match below its rule, a match nested in that match,
    and a feature. *)
Example sampleCleaned_matches :
  ∃ rule m m' f,
    rule ∈ children "rules" sampleCleaned
    ∧ matchBelow rule m ∧ m' ∈ children "matches" m ∧ matchBelow rule m'
    ∧ f ∈ children "features" m.
Proof.
  exists {[ "matches" := VMaps [ {[
             "type" := VStr "match.always";
             "matches" := VMaps [ {[ "matches" := VStr "" ]} ];
             "features" := VMaps [ {[
               "value" := VStr "a b";
               "ignore_case" := VBool true ]} ] ]} ] ]},
         {[ "type" := VStr "match.always";
            "matches" := VMaps [ {[ "matches" := VStr "" ]} ];
            "features" := VMaps [ {[
              "value" := VStr "a b";
              "ignore_case" := VBool true ]} ] ]},
         {[ "matches" := VStr "" ]},
         {[ "value" := VStr "a b"; "ignore_case" := VBool true ]}.
  assert (∀ (x : obj) l, x ∈ x :: l) as Hhere by (intros; by left).
  split_and!.
  - vm_compute. apply Hhere.
  - apply matchBelow_top. vm_compute. apply Hhere.
  - vm_compute. apply Hhere.
  - eapply matchBelow_nested; [apply matchBelow_top|];
      vm_compute; apply Hhere.
  - vm_compute. apply Hhere.
Qed.

Lemma cleanPolicy_metadata_removed_witness :
  (∀ k, k ∈ policyMetadata → sampleCleaned !! k = None)
  ∧ (∀ rule, rule ∈ children "rules" sampleCleaned →
       (∀ k, k ∈ ruleMetadata → rule !! k = None)
       ∧ (∀ m, matchBelow rule m →
            m !! "ordinal" = None
            ∧ ∀ f, f ∈ children "features" m → f !! "ordinal" = None)).
Proof.
  apply (cleanPolicy_metadata_removed listOrder samplePolicy sampleCleaned);
    by vm_compute.
Defined.

(** * The token read *)

Section TokenRead.
Import cps.
Variable rt : Runtime.

Lemma CheckForRetry_true (metadata : list DomainDcvFull)
    (statusresp : CertificateGetCertificateStatusOK) :
  CheckForRetry rt metadata statusresp = true
  ↔ ToLower rt (Status statusresp) = "processing"
    ∨ metadata = []
    ∨ ∃ first rest, metadata = first :: rest
        ∧ (DcvToken first = None
           ∨ ∃ token, DcvToken first = Some token ∧ Token token = "").
Proof.
  unfold CheckForRetry.
  destruct (String.eqb_spec (ToLower rt (Status statusresp)) "processing")
    as [Hp|Hp]; [by split; [left|]|].
  destruct metadata as [|first rest]; [by split; [right; left|]|].
  destruct (DcvToken first) as [token|] eqn:Htok.
  - split.
    + intros Hlen%Nat.eqb_eq. right. right. exists first, rest. split; [done|].
      right. exists token. split; [done|]. by destruct (Token token).
    + intros [?|[?|(f & r & [= <- <-] & [Hn|(t & Ht & Hempty)])]]; try done.
      * congruence.
      * rewrite Htok in Ht. injection Ht as <-. by rewrite Hempty.
  - split; [|done]. intros _. right. right. exists first, rest. by split; [|left].
Qed.

Lemma CheckForRetry_false (metadata : list DomainDcvFull)
    (statusresp : CertificateGetCertificateStatusOK) :
  CheckForRetry rt metadata statusresp = false →
  ∃ first rest token, metadata = first :: rest ∧ DcvToken first = Some token
                      ∧ firstToken metadata = Ok (Token token).
Proof.
  unfold CheckForRetry, firstToken. destruct (String.eqb _ _); [done|].
  destruct metadata as [|first rest]; [done|].
  destruct (DcvToken first) as [token|] eqn:Htok; [|done].
  intros _. by exists first, rest, token.
Qed.

Lemma read_polls (d0 : ResourceData) (m : ProviderMeta)
    (svc : CpsService) (certID : Z) :
  readyToPoll rt d0 m svc certID →
  ∃ budget,
    DataSourceDNSTXTTokenRead rt (start d0) m
    = RetryContext budget
        (retryFunc rt svc certID (wait_until_available d0)) (start d0).
Proof.
  intros ([timeout Ht] & -> & Hid). exists (attemptsWithin rt timeout).
  unfold DataSourceDNSTXTTokenRead. simpl. by rewrite Ht, Hid.
Qed.

End TokenRead.

Section TokenReadClaims.
Import cps.
Variable rt : Runtime.

(** C5: [CheckForRetry] is true exactly when the lower-cased status is
    "processing", or there is no domain metadata, or the first domain has
    no token object, or the first domain's token string is empty; and when
    it is false on the first query of a read (both calls answered, a DV
    certificate, no workflow error), the read ends after that one query
    without error, with [value] set to the first domain's token. *)
Theorem CheckForRetry_spec :
  (∀ metadata statusresp,
     CheckForRetry rt metadata statusresp = true
     ↔ ToLower rt (Status statusresp) = "processing"
       ∨ metadata = []
       ∨ ∃ first rest, metadata = first :: rest
           ∧ (DcvToken first = None
              ∨ ∃ token, DcvToken first = Some token ∧ Token token = ""))
  ∧ (∀ d0 m svc certID resp statusresp,
       readyToPoll rt d0 m svc certID →
       CertificateGet svc certID 0 = inl resp →
       CertificateGetCertificateStatus svc certID 0 = inl statusresp →
       ValidationType resp = CdnProvidedCertificateValidationTypeDV →
       WorkflowErrorMessage resp = "" →
       CheckForRetry rt (GetDomainMetadata svc resp 0) statusresp = false →
       ∃ first rest token st',
         GetDomainMetadata svc resp 0 = first :: rest
         ∧ DcvToken first = Some token
         ∧ DataSourceDNSTXTTokenRead rt (start d0) m = Ok (None, st')
         ∧ value (d st') = Some (Token token)
         ∧ queries st' = 1).
Proof.
  split; [apply CheckForRetry_true|].
  intros d0 m svc certID resp statusresp Hready Hget Hstatus Hdv Hwf Hcheck.
  destruct (read_polls rt _ _ _ _ Hready) as [budget ->].
  destruct (CheckForRetry_false rt _ _ Hcheck)
    as (first & rest & token & Hmd & Htok & Hfirst).
  exists first, rest, token. eexists. split_and!; [done..| | |].
  - destruct budget; simpl; unfold retryFunc; simpl;
      rewrite Hget, Hstatus, Hdv, Hwf; simpl; rewrite Hcheck, Hfirst; done.
  - done.
  - done.
Qed.

(** C6: a read that gets as far as the retry loop, on a certificate whose
    validation type is not DV: the first query ends the read with an error
    that is not the deadline's, whatever [wait_until_available] says;
    nothing is set, and the two calls of that query are the only ones. *)
Theorem non_DV_is_fatal (d0 : ResourceData) (m : ProviderMeta)
    (svc : CpsService) (certID : Z) (resp : CertificateGetOK) :
  readyToPoll rt d0 m svc certID →
  CertificateGet svc certID 0 = inl resp →
  ValidationType resp ≠ CdnProvidedCertificateValidationTypeDV →
  ∃ err st',
    DataSourceDNSTXTTokenRead rt (start d0) m = Ok (Some err, st')
    ∧ fatal err
    ∧ queries st' = 1
    ∧ d st' = d0
    ∧ calls st' = [CallCertificateGet certID;
                   CallCertificateGetCertificateStatus certID].
Proof.
  intros Hready Hget Hdv.
  destruct (read_polls rt _ _ _ _ Hready) as [budget ->].
  apply String.eqb_neq in Hdv.
  destruct (CertificateGetCertificateStatus svc certID 0) as [statusresp|err]
    eqn:Hstatus.
  - exists (errors_New "certificate must have validation type DV"). eexists.
    split; [|split_and!].
    + destruct budget; simpl; unfold retryFunc; simpl;
        by rewrite Hget, Hstatus, Hdv.
    + done.
    + done.
    + done.
    + done.
  - exists (fmt_Errorf "error while retrieving certificate details: %w" err).
    eexists. split; [|split_and!].
    + destruct budget; simpl; unfold retryFunc; simpl;
        by rewrite Hget, Hstatus.
    + done.
    + done.
    + done.
    + done.
Qed.

(** C7: a read that gets as far as the retry loop with
    [wait_until_available] false, whose first query finds that a retry is
    needed: the read ends after that one query with no error, and neither
    [value] nor the identifier is set. *)
Theorem no_retry_early_exit (d0 : ResourceData) (m : ProviderMeta)
    (svc : CpsService) (certID : Z) (resp : CertificateGetOK)
    (statusresp : CertificateGetCertificateStatusOK) :
  readyToPoll rt d0 m svc certID →
  wait_until_available d0 = false →
  CertificateGet svc certID 0 = inl resp →
  CertificateGetCertificateStatus svc certID 0 = inl statusresp →
  ValidationType resp = CdnProvidedCertificateValidationTypeDV →
  WorkflowErrorMessage resp = "" →
  CheckForRetry rt (GetDomainMetadata svc resp 0) statusresp = true →
  ∃ st',
    DataSourceDNSTXTTokenRead rt (start d0) m = Ok (None, st')
    ∧ d st' = d0
    ∧ queries st' = 1.
Proof.
  intros Hready Hretry Hget Hstatus Hdv Hwf Hcheck.
  destruct (read_polls rt _ _ _ _ Hready) as [budget ->].
  eexists. split; [|split].
  - destruct budget; simpl; unfold retryFunc; simpl;
      by rewrite Hget, Hstatus, Hdv, Hwf, Hretry; simpl; rewrite Hcheck.
  - done.
  - done.
Qed.

End TokenReadClaims.

Section TokenReadSamples.
Import cps cps_sample.

Lemma sample_ready (retry : bool) (svc : CpsService) :
  readyToPoll runtime (data retry "20m") (ProviderConfig (inl svc)) svc 42%Z.
Proof. split; [by eexists|by split]. Qed.

(** The spec's "poller success": status "complete" and a first domain with
    token "XYZ". *)
Example read_complete :
  ∃ st', DataSourceDNSTXTTokenRead runtime (start (data true "20m"))
           (ProviderConfig (inl (service "DV" "complete" (Some "XYZ"))))
         = Ok (None, st')
         ∧ value (d st') = Some "XYZ" ∧ queries st' = 1.
Proof. eexists. split; [by vm_compute|]. by split. Qed.

(** With retries wanted and a certificate that stays in "Processing", the
    read asks again until the deadline and ends with its error. *)
Example read_processing_times_out :
  ∃ st', DataSourceDNSTXTTokenRead runtime (start (data true "2s"))
           (ProviderConfig (inl (service "DV" "Processing" (Some "XYZ"))))
         = Ok (Some (TimeoutError (errors_New "token not available")), st')
         ∧ value (d st') = None ∧ queries st' = 5.
Proof. eexists. split; [by vm_compute|]. by split. Qed.

Lemma CheckForRetry_spec_witness :
  ∃ first rest token st',
    GetDomainMetadata (service "DV" "complete" (Some "XYZ"))
      (certificate "DV") 0 = first :: rest
    ∧ DcvToken first = Some token
    ∧ DataSourceDNSTXTTokenRead runtime (start (data false "20m"))
        (ProviderConfig (inl (service "DV" "complete" (Some "XYZ"))))
      = Ok (None, st')
    ∧ value (d st') = Some (Token token)
    ∧ queries st' = 1.
Proof.
  apply (proj2 (CheckForRetry_spec runtime) (data false "20m") _
           (service "DV" "complete" (Some "XYZ")) 42%Z (certificate "DV")
           {| Status := "complete" |}); try done.
  apply sample_ready.
Defined.

Lemma non_DV_is_fatal_witness :
  ∃ err st',
    DataSourceDNSTXTTokenRead runtime (start (data true "20m"))
      (ProviderConfig (inl (service "OV" "complete" (Some "XYZ"))))
    = Ok (Some err, st')
    ∧ fatal err
    ∧ queries st' = 1
    ∧ d st' = data true "20m"
    ∧ calls st' = [CallCertificateGet 42%Z;
                   CallCertificateGetCertificateStatus 42%Z].
Proof.
  apply (non_DV_is_fatal runtime (data true "20m") _
           (service "OV" "complete" (Some "XYZ")) 42%Z (certificate "OV"));
    [apply sample_ready|done|done].
Defined.

Lemma no_retry_early_exit_witness :
  ∃ st',
    DataSourceDNSTXTTokenRead runtime (start (data false "20m"))
      (ProviderConfig (inl (service "DV" "PROCESSING" None)))
    = Ok (None, st')
    ∧ d st' = data false "20m"
    ∧ queries st' = 1.
Proof.
  apply (no_retry_early_exit runtime (data false "20m") _
           (service "DV" "PROCESSING" None) 42%Z (certificate "DV")
           {| Status := "PROCESSING" |}); try done.
  apply sample_ready.
Defined.

End TokenReadSamples.

(** * Reading back what was written *)

Section JsonRoundTrip.
Import json.

Lemma string_app_assoc (a b c : string) :
  ((a ++ b) ++ c = a ++ (b ++ c))%string.
Proof.
  induction a as [|x a IH]; [done|].
  change (String x ((a ++ b) ++ c) = String x (a ++ (b ++ c)))%string.
  by f_equal.
Qed.

Lemma string_app_nil_r (a : string) : (a ++ "")%string = a.
Proof.
  induction a as [|x a IH]; [done|].
  change (String x (a ++ "") = String x a)%string. by f_equal.
Qed.

Lemma string_length_app (a b : string) :
  String.length (a ++ b) = String.length a + String.length b.
Proof.
  induction a as [|x a IH]; [done|].
  change (S (String.length (a ++ b)) = S (String.length a + String.length b)).
  by f_equal.
Qed.

Lemma readString_plainChar (c : ascii) (s : string) :
  plainChar c = true →
  readString 0 (String c s) = prepend (String c EmptyString) (readString 0 s).
Proof.
  unfold plainChar. intros [[[Hlo Hhi]%andb_prop Hq]%andb_prop Hb]%andb_prop.
  apply negb_true_iff in Hq, Hb. cbn [readString]. rewrite Hq, Hb.
  apply Z.leb_le in Hlo. apply Z.ltb_lt in Hhi.
  destruct (code c <? 32)%Z eqn:H32; [apply Z.ltb_lt in H32; lia|].
  destruct (code c <? 128)%Z eqn:H128; [done|]. apply Z.ltb_ge in H128. lia.
Qed.

Lemma plain_app_verbatim (pre s : string) :
  plain pre = true → verbatim s → verbatim (pre ++ s).
Proof.
  intros Hpre Hs. induction pre as [|c pre IH]; [done|].
  unfold plain in Hpre. cbn [list_ascii_of_string forallb] in Hpre.
  apply andb_prop in Hpre as [Hc Hpre]. intros rest.
  change (readString 0 (String c ((pre ++ s) ++ String quote rest))
          = Some (String c (pre ++ s), rest))%string.
  rewrite readString_plainChar by done. by rewrite (IH Hpre rest).
Qed.

Lemma verbatim_empty : verbatim "".
Proof. by intros rest. Qed.

Lemma plain_verbatim (s : string) : plain s = true → verbatim s.
Proof.
  intros Hs. rewrite <- (string_app_nil_r s).
  by apply plain_app_verbatim, verbatim_empty.
Qed.


Lemma readValue_unfold (fuel : nat) (open : Z) (s : string) :
  readValue (S fuel) open s =
    let s0 := skipSpace s in
    match headIs "{" s0, headIs "[" s0, headIs quote s0 with
    | Some r, _, _ =>
        if (maxNestingDepth <=? open)%Z then SyntaxError
        else
          match headIs "}" (skipSpace r) with
          | Some r' => Parsed (VObj ∅, r')
          | None => readMembers fuel (open + 1) ∅ (skipSpace r)
          end
    | _, Some r, _ =>
        if (maxNestingDepth <=? open)%Z then SyntaxError
        else
          match headIs "]" (skipSpace r) with
          | Some r' => Parsed (VArr [], r')
          | None => readElements fuel (open + 1) [] (skipSpace r)
          end
    | _, _, Some r =>
        match readString 0 r with
        | Some (str, r') => Parsed (VStr str, r')
        | None => SyntaxError
        end
    | None, None, None =>
        match stripPrefix "null" s0, stripPrefix "true" s0,
              stripPrefix "false" s0 with
        | Some r', _, _ => Parsed (VNull, r')
        | _, Some r', _ => Parsed (VBool true, r')
        | _, _, Some r' => Parsed (VBool false, r')
        | None, None, None =>
            match readNumber s0 with
            | Some (Some bits, r') => Parsed (VNum bits, r')
            | Some (None, r') => OutOfRange (VNull, r')
            | None => SyntaxError
            end
        end
    end.
Proof. reflexivity. Qed.

Lemma readMembers_unfold (fuel : nat) (open : Z) (acc : obj) (s : string) :
  readMembers (S fuel) open acc s =
    match headIs quote s with
    | None => SyntaxError
    | Some r =>
        match readString 0 r with
        | None => SyntaxError
        | Some (key, r1) =>
            match headIs ":" (skipSpace r1) with
            | None => SyntaxError
            | Some r2 =>
                andThen (readValue fuel open r2) (λ '(v, r3),
                  let acc' := <[key := v]> acc in
                  match headIs "," (skipSpace r3),
                        headIs "}" (skipSpace r3) with
                  | Some r4, _ => readMembers fuel open acc' (skipSpace r4)
                  | _, Some r4 => Parsed (VObj acc', r4)
                  | None, None => SyntaxError
                  end)
            end
        end
    end.
Proof. reflexivity. Qed.

Lemma readElements_unfold (fuel : nat) (open : Z) (acc : list value)
    (s : string) :
  readElements (S fuel) open acc s =
    andThen (readValue fuel open s) (λ '(v, r1),
      let acc' := acc ++ [v] in
      match headIs "," (skipSpace r1), headIs "]" (skipSpace r1) with
      | Some r2, _ => readElements fuel open acc' r2
      | _, Some r2 => Parsed (VArr acc', r2)
      | None, None => SyntaxError
      end).
Proof. reflexivity. Qed.

Lemma valueHead_inert (c : ascii) :
  valueHead c = true →
  isSpace c = false ∧ Ascii.eqb c "]" = false ∧ Ascii.eqb c "}" = false.
Proof. destruct c as [[] [] [] [] [] [] [] []]; by vm_compute. Qed.

Lemma numberHead_inert (c : ascii) :
  Ascii.eqb c "-" || isDigit c = true →
  isSpace c = false ∧ Ascii.eqb c "{" = false ∧ Ascii.eqb c "[" = false
  ∧ Ascii.eqb c quote = false ∧ Ascii.eqb "n" c = false
  ∧ Ascii.eqb "t" c = false ∧ Ascii.eqb "f" c = false.
Proof. destruct c as [[] [] [] [] [] [] [] []]; by vm_compute. Qed.

Lemma terminator_inert (c : ascii) :
  terminator c = true → isSpace c = false.
Proof. destruct c as [[] [] [] [] [] [] [] []]; by vm_compute. Qed.

Lemma write_head (d : doc) :
  wellFormed d → ∃ c s, write d = String c s ∧ valueHead c = true.
Proof.
  destruct d as [|[]|lit bits|s|l|ms]; simpl; try by (intros _; eauto).
  - intros [(c & s & -> & Hc) _]. exists c, s. split; [done|].
    unfold valueHead. apply orb_prop in Hc as [->| ->];
      rewrite ?orb_true_r; done.
Qed.


Lemma doc_nested_ind (Q : doc → Prop) :
  Q DNull → (∀ b, Q (DBool b)) → (∀ lit bits, Q (DNum lit bits)) →
  (∀ s, Q (DStr s)) →
  (∀ l, Forall Q l → Q (DArr l)) →
  (∀ ms, Forall (λ kv, Q kv.2) ms → Q (DObj ms)) →
  ∀ d, Q d.
Proof.
  intros Hnull Hbool Hnum Hstr Harr Hobj. fix IH 1. intros [| | | |l|ms].
  - apply Hnull.
  - apply Hbool.
  - apply Hnum.
  - apply Hstr.
  - apply Harr. induction l as [|x l IHl]; constructor; [apply IH|apply IHl].
  - apply Hobj. induction ms as [|[k v] ms IHms]; constructor;
      [apply IH|apply IHms].
Qed.

Lemma skipSpace_inert (c : ascii) (s : string) :
  isSpace c = false → skipSpace (String c s) = String c s.
Proof. intros Hc. cbn [skipSpace]. by rewrite Hc. Qed.

Lemma concat_cons2 (sep a b : string) (l : list string) :
  String.concat sep (a :: b :: l)
  = (a ++ sep ++ String.concat sep (b :: l))%string.
Proof. reflexivity. Qed.

Lemma elems_nesting_nonneg (l : list doc) :
  (0 ≤ foldr (λ x rest, Z.max (nesting x) rest) 0 l)%Z.
Proof. induction l as [|x l IH]; cbn [foldr]; lia. Qed.

Lemma members_nesting_nonneg (ms : list (string * doc)) :
  (0 ≤ foldr (λ kv rest, match kv with
                         | (_, v) => Z.max (nesting v) rest
                         end) 0 ms)%Z.
Proof. induction ms as [|[k v] ms IH]; cbn [foldr]; lia. Qed.

Lemma readElements_written (x : doc) (l : list doc) :
  Forall readsBack (x :: l) → Forall wellFormed (x :: l) →
  ∀ fuel open acc rest,
    String.length (String.concat "," (map write (x :: l))) + 1 < fuel →
    (open + foldr (λ x rest, Z.max (nesting x) rest) 0 (x :: l)
     ≤ maxNestingDepth)%Z →
    readElements fuel open acc
      (String.concat "," (map write (x :: l)) ++ String "]" rest)
    = Parsed (VArr (acc ++ map toValue (x :: l)), rest).
Proof.
  revert x. induction l as [|y l IH];
    intros x Hrb Hwf fuel open acc rest Hlen Hopen;
    (destruct fuel as [|fuel]; [lia|]);
    apply Forall_cons in Hrb as [Hx Hrb]; apply Forall_cons in Hwf as [Hwx Hwf];
    rewrite foldr_cons in Hopen.
  - cbn [foldr] in Hopen. cbn [map String.concat] in *.
    rewrite readElements_unfold.
    rewrite (Hx fuel open (String "]" rest)) by (done || lia). reflexivity.
  - cbn [map] in *. rewrite concat_cons2 in *.
    rewrite !string_length_app in Hlen. cbn [String.length] in Hlen.
    rewrite !string_app_assoc. rewrite readElements_unfold.
    change ("," ++ ?a)%string with (String "," a).
    rewrite (Hx fuel open) by (done || lia). cbn [andThen].
    rewrite (skipSpace_inert ",") by done.
    change (headIs "," (String "," ?a)) with (Some a). cbv iota beta zeta.
    rewrite (IH y Hrb Hwf) by lia. by rewrite <- app_assoc.
Qed.


Lemma member_app (k : string) (v : doc) (tail : string) :
  (member (k, v) ++ tail)%string
  = String quote (k ++ String quote (String ":" (write v ++ tail))).
Proof.
  change (String quote ((k ++ String quote (String ":" (write v))) ++ tail)
          = String quote (k ++ String quote (String ":" (write v ++ tail))))%string.
  by rewrite string_app_assoc.
Qed.

Lemma member_length (k : string) (v : doc) :
  String.length (member (k, v))
  = String.length k + String.length (write v) + 3.
Proof.
  change (S (String.length (k ++ String quote (String ":" (write v))))
          = String.length k + String.length (write v) + 3).
  rewrite string_length_app. cbn [String.length]. lia.
Qed.

Lemma members_head (kv : string * doc) (ms : list (string * doc)) :
  ∃ s, String.concat "," (map member (kv :: ms)) = String quote s.
Proof.
  destruct kv as [k v]. destruct ms; cbn [map]; [by eexists|].
  rewrite concat_cons2. by eexists.
Qed.

Lemma members_inert (kv : string * doc) (ms : list (string * doc))
    (tail : string) :
  let text := (String.concat "," (map member (kv :: ms)) ++ tail)%string in
  skipSpace text = text ∧ headIs "}" text = None.
Proof.
  destruct (members_head kv ms) as [s ->].
  change (String quote s ++ tail)%string with (String quote (s ++ tail)).
  by split.
Qed.

Lemma readMembers_written (kv : string * doc) (ms : list (string * doc)) :
  Forall (λ kv, readsBack kv.2) (kv :: ms) →
  Forall (λ kv, verbatim kv.1 ∧ wellFormed kv.2) (kv :: ms) →
  ∀ fuel open acc rest,
    String.length (String.concat "," (map member (kv :: ms))) + 1 < fuel →
    (open + foldr (λ kv rest, match kv with
                              | (_, v) => Z.max (nesting v) rest
                              end) 0 (kv :: ms)
     ≤ maxNestingDepth)%Z →
    readMembers fuel open acc
      (String.concat "," (map member (kv :: ms)) ++ String "}" rest)
    = Parsed (VObj (foldl insertMember acc (map memberValue (kv :: ms))), rest).
Proof.
  revert kv. induction ms as [|kv' ms IH];
    intros [k v] Hrb Hwf fuel open acc rest Hlen Hopen;
    (destruct fuel as [|fuel]; [lia|]);
    apply Forall_cons in Hrb as [Hv Hrb];
    apply Forall_cons in Hwf as [[Hk Hwv] Hwf]; cbn [fst snd] in *;
    rewrite foldr_cons in Hopen.
  - cbn [foldr] in Hopen. cbn [map String.concat] in *.
    rewrite member_length in Hlen.
    rewrite member_app, readMembers_unfold.
    cbn [headIs]. rewrite Ascii.eqb_refl, Hk.
    rewrite (skipSpace_inert ":") by done.
    change (headIs ":" (String ":" ?a)) with (Some a). cbv iota.
    rewrite (Hv fuel open (String "}" rest)) by (done || lia). reflexivity.
  - cbn [map] in *. rewrite concat_cons2 in *.
    rewrite !string_length_app, member_length in Hlen.
    cbn [String.length] in Hlen.
    rewrite string_app_assoc, member_app, readMembers_unfold.
    cbn [headIs]. rewrite Ascii.eqb_refl, Hk.
    rewrite (skipSpace_inert ":") by done.
    change (headIs ":" (String ":" ?a)) with (Some a). cbv iota.
    rewrite string_app_assoc.
    change ("," ++ ?a)%string with (String "," a).
    rewrite (Hv fuel open) by (done || lia). cbn [andThen].
    rewrite (skipSpace_inert ",") by done.
    change (headIs "," (String "," ?a)) with (Some a). cbv iota beta zeta.
    rewrite (proj1 (members_inert kv' ms _)).
    by rewrite (IH kv' Hrb Hwf) by lia.
Qed.

Lemma wellFormed_elems (l : list doc) :
  wellFormed (DArr l) → Forall wellFormed l.
Proof.
  cbn [wellFormed]. induction l as [|x l IH]; cbn [foldr]; [done|].
  intros [Hx Hl]. constructor; [done|by apply IH].
Qed.

Lemma wellFormed_members (ms : list (string * doc)) :
  wellFormed (DObj ms) → Forall (λ kv, verbatim kv.1 ∧ wellFormed kv.2) ms.
Proof.
  cbn [wellFormed]. induction ms as [|[k v] ms IH]; cbn [foldr]; [done|].
  intros (Hk & Hv & Hms). constructor; [done|by apply IH].
Qed.

Lemma elements_head (x : doc) (l : list doc) :
  wellFormed x →
  ∃ c s, String.concat "," (map write (x :: l)) = String c s
         ∧ valueHead c = true.
Proof.
  intros (c & s & Hx & Hc)%write_head. destruct l as [|y l]; cbn [map].
  - exists c, s. by cbn [String.concat].
  - rewrite concat_cons2, Hx. by eexists c, _.
Qed.

Lemma elements_inert (x : doc) (l : list doc) (tail : string) :
  wellFormed x →
  let text := (String.concat "," (map write (x :: l)) ++ tail)%string in
  skipSpace text = text ∧ headIs "]" text = None.
Proof.
  intros Hx. destruct (elements_head x l Hx) as (c & s & -> & Hc).
  destruct (valueHead_inert c Hc) as (Hsp & Hb & _).
  change (String c s ++ tail)%string with (String c (s ++ tail)).
  split; [by apply skipSpace_inert|]. cbn [headIs]. by rewrite Hb.
Qed.

Lemma written_readsBack (d : doc) : wellFormed d → readsBack d.
Proof.
  induction d as [|b|lit bits|s|l IH|ms IH] using doc_nested_ind;
    intros Hwf fuel open rest Hterm Hlen Hopen;
    (destruct fuel as [|fuel]; [lia|]); rewrite readValue_unfold.
  - reflexivity.
  - by destruct b.
  - destruct Hwf as [(c & s & -> & Hc) Hnum]. specialize (Hnum rest Hterm).
    cbn [write toValue] in *.
    change (String c s ++ rest)%string with (String c (s ++ rest)) in *.
    destruct (numberHead_inert c Hc) as (Hsp & H1 & H2 & H3 & H4 & H5 & H6).
    rewrite skipSpace_inert by done. cbv zeta. cbn [headIs stripPrefix].
    by rewrite H1, H2, H3, H4, H5, H6, Hnum.
  - cbn [write toValue wellFormed] in *.
    change (String quote (s ++ String quote "") ++ rest)%string
      with (String quote ((s ++ String quote "") ++ rest)).
    rewrite string_app_assoc.
    change (String quote "" ++ rest)%string with (String quote rest).
    rewrite skipSpace_inert by done. cbv zeta.
    change (headIs "{" (String quote ?a)) with (@None string).
    change (headIs "[" (String quote ?a)) with (@None string).
    change (headIs quote (String quote ?a)) with (Some a). cbv iota.
    by rewrite Hwf.
  - apply wellFormed_elems in Hwf. cbn [write toValue] in *.
    change ("[" ++ ?a)%string with (String "[" a) in *.
    change (String "[" ?a ++ rest)%string with (String "[" (a ++ rest)).
    rewrite string_app_assoc.
    change ("]" ++ rest)%string with (String "]" rest).
    rewrite skipSpace_inert by done. cbv zeta.
    change (headIs "{" (String "[" ?a)) with (@None string).
    change (headIs "[" (String "[" ?a)) with (Some a). cbv iota.
    cbn [nesting] in Hopen. pose proof (elems_nesting_nonneg l).
    destruct (Z.leb_spec maxNestingDepth open); [lia|].
    destruct l as [|x l]; [reflexivity|].
    destruct (elements_inert x l (String "]" rest)) as [-> ->];
      [by apply Forall_cons in Hwf as [? _]|].
    rewrite readElements_written; [done| |done| |lia].
    + eapply Forall_impl; [|intros d' Hd'; exact Hd'].
      apply Forall_forall. intros d' Hd'.
      eapply Forall_forall in IH; [|exact Hd']. apply IH.
      by eapply Forall_forall in Hwf.
    + cbn [String.length] in Hlen. rewrite string_length_app in Hlen.
      cbn [String.length] in Hlen. lia.
  - apply wellFormed_members in Hwf. cbn [write toValue] in *.
    fold member. fold member in Hlen. fold memberValue.
    change ("{" ++ ?a)%string with (String "{" a) in *.
    change (String "{" ?a ++ rest)%string with (String "{" (a ++ rest)).
    rewrite string_app_assoc.
    change ("}" ++ rest)%string with (String "}" rest).
    rewrite skipSpace_inert by done. cbv zeta.
    change (headIs "{" (String "{" ?a)) with (Some a). cbv iota.
    cbn [nesting] in Hopen. pose proof (members_nesting_nonneg ms).
    destruct (Z.leb_spec maxNestingDepth open); [lia|].
    destruct ms as [|[k v] ms]; [reflexivity|].
    destruct (members_inert (k, v) ms (String "}" rest)) as [-> ->].
    rewrite readMembers_written; [done| |done| |lia].
    + apply Forall_forall. intros kv Hkv.
      eapply Forall_forall in IH; [|exact Hkv]. apply IH.
      eapply Forall_forall in Hwf; [|exact Hkv]. apply Hwf.
    + cbn [String.length] in Hlen. rewrite string_length_app in Hlen.
      cbn [String.length] in Hlen. lia.
Qed.

(** A well-formed document written compactly, of no more open objects and
    arrays than the scanner allows, decodes to its value. *)
Lemma decode_write (d : doc) :
  wellFormed d → (nesting d ≤ maxNestingDepth)%Z →
  decode (write d) = Parsed (toValue d).
Proof.
  intros Hwf Hopen. unfold decode.
  rewrite <- (string_app_nil_r (write d)) at 2.
  rewrite (written_readsBack d Hwf) by (done || lia). reflexivity.
Qed.

End JsonRoundTrip.

(** * The policy resource *)

Section PolicyResource.
Import rulesengine.

Lemma numeral_one : json.numeral "1" 4607182418800017408.
Proof.
  split; [by exists "1"%char, ""|]. intros [|c rest] Hterm; [reflexivity|].
  change ("1" ++ String c rest)%string with (String "1" (String c rest)).
  destruct c as [[] [] [] [] [] [] [] []];
    try (vm_compute in Hterm; discriminate); reflexivity.
Qed.

Lemma placeholder_wellFormed (timestamp platform : string) :
  json.verbatim timestamp → json.verbatim platform →
  json.wellFormed (placeholder timestamp platform).
Proof.
  intros Hts Hp. unfold placeholder. cbn [json.wellFormed foldr].
  repeat match goal with
         | |- _ ∧ _ => split
         | |- True => exact I
         | |- json.numeral _ _ => exact numeral_one
         | |- json.verbatim timestamp => exact Hts
         | |- json.verbatim platform => exact Hp
         | |- json.verbatim (_ ++ timestamp) =>
             apply plain_app_verbatim; [reflexivity|exact Hts]
         | |- json.verbatim _ => apply plain_verbatim; reflexivity
         end.
Qed.

(** The text that [Sprintf] makes of the template is the compact text of
    the placeholder document. *)
Lemma emptyPolicy_written (timestamp platform : string) :
  Sprintf emptyPolicyFormat [timestamp; platform; timestamp]
  = json.write (placeholder timestamp platform).
Proof.
  unfold emptyPolicyFormat, placeholder.
  lazy [json.write String.concat map Sprintf json.quote].
  repeat progress (rewrite ?string_app_assoc; lazy [String.append]).
  reflexivity.
Qed.

Lemma emptyPolicy_decodes (timestamp platform : string) :
  json.verbatim timestamp → json.verbatim platform →
  ∃ doc,
    json.decode (Sprintf emptyPolicyFormat [timestamp; platform; timestamp])
    = json.Parsed (VObj doc)
    ∧ doc !! "platform" = Some (VStr platform)
    ∧ doc !! "state" = Some (VStr "locked").
Proof.
  intros Hts Hp. rewrite emptyPolicy_written.
  rewrite decode_write; [|by apply placeholder_wellFormed|by vm_compute].
  eexists. split; [reflexivity|]. split; by vm_compute.
Qed.

(** What [getPolicy] does when the identifier is a number. *)
Lemma getPolicy_numeric (rt : Runtime) (st : State) (policyID : Z) :
  Atoi (Id (d st)) = inl policyID →
  getPolicy rt st
  = (GetPolicy (api rt) (account_number (d st)) (customeruserid (d st))
       (portaltypeid (d st)) policyID,
     {| d := d st;
        config := {| AccountNumber := account_number (d st) |};
        calls := calls st ++ [CallGetPolicy (account_number (d st))
                                (customeruserid (d st)) (portaltypeid (d st))
                                policyID] |}).
Proof. intros Hid. unfold getPolicy. cbn. by rewrite Hid. Qed.

Lemma getPolicy_not_numeric (rt : Runtime) (st : State) (err : error) :
  Atoi (Id (d st)) = inr err →
  getPolicy rt st
  = (inr (fmt_Errorf "error parsing Policy ID from state file: %v" err),
     {| d := d st;
        config := {| AccountNumber := account_number (d st) |};
        calls := calls st |}).
Proof. intros Hid. unfold getPolicy. cbn. by rewrite Hid. Qed.

(** C9, as the code has it: a delete on a resource whose identifier is a
    number and whose policy, fetched afresh, has the platform [P], where
    [P] and the time stamp are strings that a JSON string literal holds as
    they are: the policy sent to AddPolicy is the template with [P] and
    the time stamp filled in; it decodes to a document whose [platform] is
    [P] and whose [state] is "locked"; when the service accepts it under a
    numeric identifier, the deploy request names that identifier and the
    environment of the resource; and when the deploy succeeds the delete
    returns no error with the stored identifier cleared.  The three
    requests are the only ones sent. *)
Theorem ResourcePolicyDelete_placeholder (rt : Runtime) (st : State)
    (policyID newID : Z) (policy : obj) (P : string)
    (added : AddPolicyOK) (deployed : DeployPolicyOK) :
  let body := Sprintf emptyPolicyFormat [Now rt; P; Now rt] in
  let request := {| Message := "Auto-submitted policy"; PolicyID := newID;
                    Environment := deploy_to (d st) |} in
  Atoi (Id (d st)) = inl policyID →
  GetPolicy (api rt) (account_number (d st)) (customeruserid (d st))
    (portaltypeid (d st)) policyID = inl policy →
  policy !! "platform" = Some (VStr P) →
  json.verbatim P → json.verbatim (Now rt) →
  AddPolicy (api rt) body (account_number (d st)) (portaltypeid (d st))
    (customeruserid (d st)) = inl added →
  Atoi (ID added) = inl newID →
  DeployPolicy (api rt) request (account_number (d st)) (portaltypeid (d st))
    (customeruserid (d st)) = inl deployed →
  ∃ st' doc,
    ResourcePolicyDelete rt st = Ok (None, st')
    ∧ calls st'
      = calls st ++
        [CallGetPolicy (account_number (d st)) (customeruserid (d st))
           (portaltypeid (d st)) policyID;
         CallAddPolicy body (account_number (d st)) (portaltypeid (d st))
           (customeruserid (d st));
         CallDeployPolicy request (account_number (d st))
           (portaltypeid (d st)) (customeruserid (d st))]
    ∧ json.decode body = json.Parsed (VObj doc)
    ∧ doc !! "platform" = Some (VStr P)
    ∧ doc !! "state" = Some (VStr "locked")
    ∧ d st' = SetId "" (d st).
Proof.
  intros body request Hid Hget Hplatform HP Hnow Hadd Hnew Hdeploy.
  destruct (emptyPolicy_decodes (Now rt) P Hnow HP) as (doc & Hdoc & Hp & Hs).
  eexists. exists doc. split; [|split; [|split_and!]].
  - unfold ResourcePolicyDelete. rewrite (getPolicy_numeric rt st policyID Hid).
    rewrite Hget, Hplatform. cbn [asString bind]. unfold addPolicy.
    cbn [d config calls logCall withData]. fold body. rewrite Hadd, Hnew.
    change (getDeployRequestData (d st) newID) with request.
    rewrite Hdeploy. reflexivity.
  - cbn. by rewrite <- !app_assoc.
  - done.
  - done.
  - done.
  - done.
Qed.

End PolicyResource.

Section PolicyResourceClaims.
Import rulesengine rulesengine_sample.

Lemma ResourcePolicyDelete_placeholder_witness :
  ∃ st' doc,
    ResourcePolicyDelete (runtime "adn") (state "7") = Ok (None, st')
    ∧ calls st'
      = calls (state "7") ++
        [CallGetPolicy "0001" "u" "1" 7;
         CallAddPolicy
           (Sprintf emptyPolicyFormat
              ["2022-10-30T07:20:00Z"; "adn"; "2022-10-30T07:20:00Z"])
           "0001" "1" "u";
         CallDeployPolicy
           {| Message := "Auto-submitted policy"; PolicyID := 8;
              Environment := "staging" |} "0001" "1" "u"]
    ∧ json.decode
        (Sprintf emptyPolicyFormat
           ["2022-10-30T07:20:00Z"; "adn"; "2022-10-30T07:20:00Z"])
      = json.Parsed (VObj doc)
    ∧ doc !! "platform" = Some (VStr "adn")
    ∧ doc !! "state" = Some (VStr "locked")
    ∧ d st' = SetId "" (d (state "7")).
Proof.
  apply (ResourcePolicyDelete_placeholder (runtime "adn") (state "7") 7 8
           {[ "id" := VStr "7"; "platform" := VStr "adn"; "rules" := VArr [] ]}
           "adn" {| ID := "8" |} {| DeployID := "9" |});
    try reflexivity; apply plain_verbatim; reflexivity.
Defined.

(** C9 as stated fails: for a platform with a double quote in its name the
    text sent to AddPolicy is not a JSON text, so it holds no policy and no
    platform field. *)
Lemma ResourcePolicyDelete_quoted_platform :
  ∃ st' body,
    GetPolicy (api (runtime quotedPlatform)) "0001" "u" "1" 7
    = inl {[ "id" := VStr "7"; "platform" := VStr quotedPlatform;
             "rules" := VArr [] ]}
    ∧ ResourcePolicyDelete (runtime quotedPlatform) (state "7") = Ok (None, st')
    ∧ calls st'
      = [CallGetPolicy "0001" "u" "1" 7;
         CallAddPolicy body "0001" "1" "u";
         CallDeployPolicy
           {| Message := "Auto-submitted policy"; PolicyID := 8;
              Environment := "staging" |} "0001" "1" "u"]
    ∧ json.decode body = json.SyntaxError.
Proof.
  eexists. eexists. split; [reflexivity|]. split; [by vm_compute|].
  split; [reflexivity|]. by vm_compute.
Qed.

(** A text that is no JSON, and a text whose value is neither an object
    nor [null], leave the map as it was and give an error. *)
Lemma Unmarshal_refused (data : string) :
  (∀ v, ¬ json.decodesTo data v)
  ∨ (∃ v, json.decodesTo data v ∧ (∀ m, v ≠ VObj m)
          ∧ json.decode data ≠ json.Parsed VNull) →
  ∃ err, json.Unmarshal data = (∅, Some err).
Proof.
  unfold json.decodesTo, json.Unmarshal.
  intros [Hno|(v & Hv & Hobj & Hnull)].
  - destruct (json.decode data) as [v|v| |]; [| |by eexists..].
    + destruct (Hno v). by left.
    + destruct (Hno v). by right.
  - destruct Hv as [Hv|Hv]; rewrite Hv.
    + destruct v as [| | | | |m|];
        [congruence|eexists; reflexivity..|by destruct (Hobj m)
        |eexists; reflexivity].
    + destruct v as [| | | | |m|];
        [eexists; reflexivity..|by destruct (Hobj m)|eexists; reflexivity].
Qed.

Lemma Unmarshal_error_not_nil (data : string) :
  snd (json.Unmarshal data) ≠ None → json.nilAfterUnmarshal data = false.
Proof.
  unfold json.Unmarshal, json.nilAfterUnmarshal.
  by destruct (json.decode data) as [[]|[]| |].
Qed.

Example Unmarshal_open_brace :
  (∃ err, json.Unmarshal "{" = (∅, Some err))
  ∧ (∃ err, json.Unmarshal "[1]" = (∅, Some err))
  ∧ (∃ err, json.Unmarshal "1e400" = (∅, Some err))
  ∧ json.nilAfterUnmarshal "1e400" = false
  ∧ json.Unmarshal "null" = (∅, None)
  ∧ json.nilAfterUnmarshal "null" = true.
Proof.
  split_and!; try (eexists; vm_compute; reflexivity); by vm_compute.
Qed.

(** A number out of the range of float64 in an object: the map is filled,
    the member of the number is nil, and the error is returned. *)
Example Unmarshal_out_of_range :
  ∃ err,
    json.Unmarshal rulesengine_sample.outOfRangePolicy
    = ({[ "rules" := VArr []; "x" := VNull ]}, Some err).
Proof. eexists. vm_compute. reflexivity. Qed.

(** The scanner reads [maxNestingDepth] arrays one inside the other, and
    refuses one more. *)
Example decode_nesting_limit :
  match json.decode
          (rulesengine_sample.nested (Z.to_nat json.maxNestingDepth) "") with
  | json.Parsed _ => True
  | _ => False
  end
  ∧ json.decode
      (rulesengine_sample.nested (S (Z.to_nat json.maxNestingDepth)) "")
    = json.SyntaxError.
Proof. split; [vm_compute; exact I|vm_compute; reflexivity]. Qed.

(** The create handler drops the error of [json.Unmarshal]: on a policy
    text that leaves the map empty, as a text that is no JSON does, it
    goes on to submit the policy [{"state":"locked"}]. *)
Lemma ResourcePolicyCreate_malformed (rt : Runtime) (st : State)
    (body : string) (refused : error) :
  json.Unmarshal (policy (d st)) = (∅, Some refused) →
  Marshal rt {[ "state" := VStr "locked" ]} = inl body →
  ResourcePolicyCreate rt st
  = match addPolicy rt body false st with
    | (Some err, st') => Ok (Some err, st')
    | (None, st') => ResourcePolicyRead rt st'
    end
  ∧ ∃ more,
      calls (addPolicy rt body false st).2
      = calls st ++
        CallAddPolicy body (account_number (d st)) (portaltypeid (d st))
          (customeruserid (d st)) :: more.
Proof.
  intros Herr Hbody. split.
  - unfold ResourcePolicyCreate.
    rewrite Unmarshal_error_not_nil by by rewrite Herr.
    rewrite Herr. cbn [fst].
    change (<["state" := VStr "locked"]> (∅ : obj))
      with ({[ "state" := VStr "locked" ]} : obj).
    by rewrite Hbody.
  - unfold addPolicy. destruct (AddPolicy _ _ _ _ _) as [added|err];
      [|by exists []].
    destruct (Atoi (ID added)) as [policyID|err]; [|by exists []].
    destruct (DeployPolicy _ _ _ _ _) as [deployed|err];
      eexists; cbn; by rewrite <- app_assoc.
Qed.

(** C8 as stated fails: a read whose identifier is not a number changes the
    resource data, it clears the identifier. *)
Lemma ResourcePolicyRead_clears_identifier :
  ∃ err st',
    ResourcePolicyRead (runtime "adn") (state "abc") = Ok (Some err, st')
    ∧ Id (d (state "abc")) = "abc"
    ∧ Id (d st') = ""
    ∧ d st' ≠ d (state "abc").
Proof.
  eexists. eexists. split; [by vm_compute|]. by split_and!.
Qed.

(** C8, as the code has it, for the two reads: a policy read whose stored
    identifier is not a number returns the error at once, sends no request,
    and leaves the resource data as it was but for the identifier, which it
    clears (the account number of the client configuration is set on the
    way); a token read whose [wait_timeout] does not parse returns the
    error at once, with no query made and nothing changed. *)
Theorem input_errors_abort :
  (∀ rt st err,
     Atoi (Id (d st)) = inr err →
     ResourcePolicyRead rt st
     = Ok (Some (fmt_Errorf "error parsing Policy ID from state file: %v" err),
           {| d := SetId "" (d st);
              config := {| AccountNumber := account_number (d st) |};
              calls := calls st |}))
  ∧ (∀ rt st m err,
       cps.ParseDuration rt (cps.wait_timeout (cps.d st)) = inr err →
       cps.DataSourceDNSTXTTokenRead rt st m
       = Ok (Some (fmt_Errorf "invalid wait_timeout: %v" err), st)).
Proof.
  split.
  - intros rt st err Hid. unfold ResourcePolicyRead.
    by rewrite (getPolicy_not_numeric rt st err Hid).
  - intros rt st m err Hd. unfold cps.DataSourceDNSTXTTokenRead.
    by rewrite Hd.
Qed.

Lemma input_errors_abort_witness :
  ResourcePolicyRead (runtime "adn") (state "abc")
  = Ok (Some (fmt_Errorf "error parsing Policy ID from state file: %v"
                (lib_error "strconv.Atoi: invalid syntax")),
        {| d := SetId "" (d (state "abc"));
           config := {| AccountNumber := "0001" |};
           calls := [] |})
  ∧ cps.DataSourceDNSTXTTokenRead cps_sample.runtime
      (cps.start (cps_sample.data true "soon")) cps.NotProviderConfig
    = Ok (Some (fmt_Errorf "invalid wait_timeout: %v"
                  (lib_error "time.ParseDuration")),
          cps.start (cps_sample.data true "soon")).
Proof.
  split.
  - apply (proj1 input_errors_abort (runtime "adn") (state "abc")).
    reflexivity.
  - apply (proj2 input_errors_abort cps_sample.runtime
             (cps.start (cps_sample.data true "soon")) cps.NotProviderConfig).
    reflexivity.
Defined.

End PolicyResourceClaims.

(** * Further properties of [standardizeMatchFeature] *)

Section Collisions.

(** X1: [standardizeMatchFeature] is idempotent: on a map it has
    standardized it changes nothing, whatever the iteration orders of the
    two runs, and also when keys of the first map collided. *)
Theorem standardizeMatchFeature_idempotent (ro ro' : RangeOrder) (m : obj) :
  standardizeMatchFeature ro' (standardizeMatchFeature ro m)
  = standardizeMatchFeature ro m.
Proof.
  unfold standardizeMatchFeature at 1.
  apply standardizeAlong_standardized, standardizeMatchFeature_standardized.
Qed.

Lemma standardizeKey_hyphen (k x : string) :
  standardizeKey k ≠ k → standardizeKey x ≠ k.
Proof. intros Hk Hx. apply Hk. by rewrite <- Hx, standardizeKey_idem. Qed.

(** The entry of a key with a hyphen stays as it is until the loop
    reaches it. *)
Lemma visit_keeps_hyphen (m : obj) (k x : string) :
  standardizeKey k ≠ k → x ≠ k → visit m x !! k = m !! k.
Proof.
  intros Hk Hx. unfold visit. destruct (m !! x) as [w|]; [|done].
  rewrite lookup_insert_ne by by apply standardizeKey_hyphen.
  by rewrite lookup_delete_ne.
Qed.

Lemma standardizeAlong_keeps_hyphen (sched : list string) (m : obj) (k : string) :
  standardizeKey k ≠ k → k ∉ sched → standardizeAlong sched m !! k = m !! k.
Proof.
  intros Hk. revert m. induction sched as [|x sched IH]; intros m Hs; [done|].
  apply not_elem_of_cons in Hs as [Hx Hs]. simpl.
  rewrite IH by done. by apply visit_keeps_hyphen.
Qed.

Lemma lastOrder_lookup (m : obj) (k : string) (v : value) :
  m !! k = Some v → standardizeKey k ≠ k →
  standardizeMatchFeature (lastOrder k) m !! standardizeKey k
  = Some (standardizeValue v).
Proof.
  intros Hm Hk. unfold standardizeMatchFeature, standardizeAlong. simpl.
  rewrite foldl_app. simpl. unfold visit at 1.
  change (foldl visit m ?l) with (standardizeAlong l m).
  rewrite standardizeAlong_keeps_hyphen, Hm; [by rewrite lookup_insert_eq|done|].
  by intros [Hne _]%list_elem_of_filter.
Qed.

(** X2: when two keys with a hyphen standardize to the same key, the
    order of the iteration decides which of the two values stays: there is
    an order that leaves the one and an order that leaves the other. *)
Theorem standardizeMatchFeature_collision_by_order (m : obj)
    (k1 k2 : string) (v1 v2 : value) :
  m !! k1 = Some v1 → m !! k2 = Some v2 →
  standardizeKey k1 ≠ k1 → standardizeKey k2 ≠ k2 →
  standardizeKey k1 = standardizeKey k2 →
  ∃ ro1 ro2,
    standardizeMatchFeature ro1 m !! standardizeKey k1
    = Some (standardizeValue v1)
    ∧ standardizeMatchFeature ro2 m !! standardizeKey k1
      = Some (standardizeValue v2).
Proof.
  intros H1 H2 Hk1 Hk2 Heq. exists (lastOrder k1), (lastOrder k2). split.
  - by apply lastOrder_lookup.
  - rewrite Heq. by apply lastOrder_lookup.
Qed.

Lemma hyphenInv_visit (m0 : obj) (seen : list string) (m : obj)
    (k x : string) (v : value) :
  standardizeKey k ≠ k →
  (∀ k2, is_Some (m0 !! k2) → standardizeKey k2 = standardizeKey k →
         k2 = k ∨ k2 = standardizeKey k) →
  loopInv m0 seen m → hyphenInv k v m → hyphenInv k v (visit m x).
Proof.
  intros Hk Htwin [Hent _] Hinv. unfold visit.
  destruct (m !! x) as [w|] eqn:Hx; [|done].
  destruct (decide (x = k)) as [->|Hxk].
  - destruct Hinv as [Hv|[Hnone _]]; [|congruence]. right.
    rewrite lookup_insert_ne by done. rewrite lookup_delete_eq.
    split; [done|]. rewrite lookup_insert_eq. congruence.
  - assert (standardizeKey x ≠ k) as Hsx by by apply standardizeKey_hyphen.
    destruct Hinv as [Hv|[Hnone Hstd]].
    + left. rewrite lookup_insert_ne by done. by rewrite lookup_delete_ne.
    + right. rewrite lookup_insert_ne by done. rewrite lookup_delete_ne by done.
      split; [done|].
      destruct (decide (standardizeKey x = standardizeKey k)) as [He|Hne].
      * assert (x = standardizeKey k) as ->.
        { destruct (Hent _ _ Hx) as [(k0 & v0 & _ & -> & _)|[H0 _]].
          - by rewrite standardizeKey_idem in He.
          - destruct (Htwin x) as [?|?]; [by eexists|done|done|done]. }
        rewrite standardizeKey_idem, lookup_insert_eq.
        rewrite Hstd in Hx. injection Hx as <-.
        by rewrite standardizeValue_idem.
      * rewrite lookup_insert_ne by done. rewrite lookup_delete_ne; [done|].
        intros ->. by rewrite standardizeKey_idem in Hne.
Qed.

Lemma hyphenInv_along (m0 : obj) (sched seen : list string) (m : obj)
    (k : string) (v : value) :
  standardizeKey k ≠ k →
  (∀ k2, is_Some (m0 !! k2) → standardizeKey k2 = standardizeKey k →
         k2 = k ∨ k2 = standardizeKey k) →
  loopInv m0 seen m → hyphenInv k v m →
  hyphenInv k v (standardizeAlong sched m).
Proof.
  intros Hk Htwin. revert seen m.
  induction sched as [|x sched IH]; intros seen m Hloop Hinv; [done|]. simpl.
  apply (IH (seen ++ [x])).
  - by apply loopInv_visit.
  - by eapply hyphenInv_visit.
Qed.

(** X3: a key with a hyphen wins over its own standardized form: when a
    map holds an entry under a key [k] with a hyphen and the only other
    key that standardizes like [k] is the standardized form of [k] itself,
    the result holds under that key the value that was under [k],
    whatever the iteration order. *)
Theorem standardizeMatchFeature_hyphen_wins (ro : RangeOrder) (m : obj)
    (k : string) (v : value) :
  m !! k = Some v → standardizeKey k ≠ k →
  (∀ k2, is_Some (m !! k2) → standardizeKey k2 = standardizeKey k →
         k2 = k ∨ k2 = standardizeKey k) →
  standardizeMatchFeature ro m !! standardizeKey k = Some (standardizeValue v).
Proof.
  intros Hm Hk Htwin. pose proof (range_keys_covers ro m) as Hcov.
  unfold standardizeMatchFeature.
  destruct (hyphenInv_along m (range_keys ro m) [] m k v Hk Htwin
              (loopInv_init m)) as [Hstill|[_ Hdone]]; [by left| |done].
  destruct (loopInv_along m (range_keys ro m) [] m (loopInv_init m))
    as [Hent _].
  destruct (Hent _ _ Hstill) as [(k0 & v0 & _ & Hk0 & _)|[_ Hseen]].
  - destruct Hk. by rewrite Hk0, standardizeKey_idem.
  - destruct Hseen. apply Hcov. by eexists.
Qed.

Lemma standardized_keys (sched : list string) (m : obj) :
  covers sched m →
  ∀ k', k' ∈ (map_to_list (standardizeAlong sched m)).*1
        ↔ k' ∈ standardizeKey <$> (map_to_list m).*1.
Proof.
  intros Hcov k'. rewrite !list_elem_of_fmap. split.
  - intros ([k0 v'] & -> & Hin). apply elem_of_map_to_list in Hin.
    destruct (standardizeAlong_entry _ _ _ _ Hcov Hin) as (k & v & Hk & -> & _).
    exists k. split; [done|]. apply list_elem_of_fmap. exists (k, v).
    split; [done|]. by apply elem_of_map_to_list.
  - intros (k & -> & ([k0 v] & -> & Hin)%list_elem_of_fmap).
    apply elem_of_map_to_list in Hin.
    destruct (standardizeAlong_key sched m k0 Hcov) as [w Hw]; [by eexists|].
    exists (standardizeKey k0, w). split; [done|]. by apply elem_of_map_to_list.
Qed.

(** X4: the loop never adds an entry, and it loses one exactly when two
    keys collide: the result has at most as many entries as the map had,
    and as many if and only if no two keys of the map standardize to the
    same key. *)
Theorem standardizeMatchFeature_size (ro : RangeOrder) (m : obj) :
  size (standardizeMatchFeature ro m) ≤ size m
  ∧ (size (standardizeMatchFeature ro m) = size m ↔ collisionFree m).
Proof.
  pose proof (range_keys_covers ro m) as Hcov. unfold standardizeMatchFeature.
  set (r := standardizeAlong (range_keys ro m) m).
  pose proof (standardized_keys _ m Hcov) as Hkeys. fold r in Hkeys.
  assert (size r = length (map_to_list r).*1) as Hr
    by by rewrite length_fmap, length_map_to_list.
  assert (size m = length (standardizeKey <$> (map_to_list m).*1)) as Hm
    by by rewrite !length_fmap, length_map_to_list.
  pose proof (NoDup_fst_map_to_list r) as Hnd.
  assert ((map_to_list r).*1 ⊆+ standardizeKey <$> (map_to_list m).*1) as Hsub.
  { apply NoDup_submseteq; [done|]. intros x. apply Hkeys. }
  split; [rewrite Hr, Hm; by apply submseteq_length|]. split.
  - intros Hsize. rewrite Hr, Hm in Hsize.
    assert ((map_to_list r).*1 ≡ₚ standardizeKey <$> (map_to_list m).*1) as Hp
      by (apply submseteq_length_Permutation; [done|lia]).
    rewrite Hp in Hnd. intros k1 k2 [v1 H1] [v2 H2].
    apply (NoDup_fmap_inj_on _ _ _ _ Hnd).
    + apply list_elem_of_fmap. exists (k1, v1). split; [done|].
      by apply elem_of_map_to_list.
    + apply list_elem_of_fmap. exists (k2, v2). split; [done|].
      by apply elem_of_map_to_list.
  - intros Hcf. rewrite Hr, Hm. apply Permutation_length.
    apply NoDup_Permutation; [done|by apply collisionFree_NoDup|].
    intros x. apply Hkeys.
Qed.

End Collisions.

Section CollisionSamples.

Lemma standardizeMatchFeature_collision_by_order_witness :
  ∃ ro1 ro2,
    standardizeMatchFeature ro1 collidingFeature !! "ignore_case_x"
    = Some (VStr "hyphen first")
    ∧ standardizeMatchFeature ro2 collidingFeature !! "ignore_case_x"
      = Some (VStr "hyphen last").
Proof.
  apply (standardizeMatchFeature_collision_by_order collidingFeature
           "ignore-case_x" "ignore_case-x" (VStr "hyphen first")
           (VStr "hyphen last")); by vm_compute.
Defined.

Lemma standardizeMatchFeature_hyphen_wins_witness :
  standardizeMatchFeature listOrder twinFeature !! "ignore_case"
  = Some (VBool true).
Proof.
  apply (standardizeMatchFeature_hyphen_wins listOrder twinFeature
           "ignore-case" (VBool true)); [by vm_compute..|].
  intros k2 [v2 Hk2] _. unfold twinFeature in Hk2.
  apply lookup_insert_Some in Hk2 as [[<- _]|[_ Hk2]]; [by left|].
  apply lookup_singleton_Some in Hk2 as [<- _]. right. by vm_compute.
Defined.

End CollisionSamples.

(** * Further properties of [cleanPolicy] *)

Section Normalizer.
Variable ro : RangeOrder.

Lemma cleanMatches_length (matches : list value) (cleaned : list obj) :
  cleanMatches ro matches = Ok cleaned → length cleaned = length matches.
Proof. rewrite cleanMatches_unfold. apply forEach_length. Qed.

Lemma not_elem_of_delete_lookup (l : list string) (k : string) :
  k ∉ l → Forall (λ x, x ≠ k) l.
Proof.
  intros Hk. apply Forall_forall. intros x Hx ->. by apply Hk.
Qed.

(** X5: what [cleanPolicy] keeps.  At the root every key other than the
    eight it deletes and [rules] holds what it held.  The rules are as
    many as before and in the same order, and in each rule every key other
    than the six deleted there and [matches] holds what it held; under
    [matches] an array has become a slice of as many maps, and anything
    else is as it was. *)
Theorem cleanPolicy_keeps_the_rest (policyMap r : obj) :
  cleanPolicy ro policyMap = Ok r →
  (∀ k, k ∉ policyMetadata → k ≠ "rules" → r !! k = policyMap !! k)
  ∧ ∃ rules ruleMaps,
      policyMap !! "rules" = Some (VArr rules)
      ∧ r !! "rules" = Some (VMaps ruleMaps)
      ∧ Forall2 ruleKept rules ruleMaps.
Proof.
  intros (rules & ruleMaps & Hrules & Hr & ->)%cleanPolicy_Ok. split.
  - intros k Hk Hkr. rewrite lookup_insert_ne by done.
    apply not_elem_of_delete_lookup in Hk. unfold policyMetadata in Hk.
    repeat (apply Forall_cons in Hk as [? Hk]).
    by rewrite !lookup_delete_ne.
  - exists rules, ruleMaps. split_and!.
    + by rewrite !lookup_delete_ne in Hrules.
    + by rewrite lookup_insert_eq.
    + apply forEach_Ok in Hr. eapply Forall2_impl; [exact Hr|].
      intros rule cleaned (m & -> & Hm)%cleanRule_Ok. exists m.
      split; [done|]. split.
      * intros k Hk Hkm. rewrite (replaceSlice_lookup_ne _ _ _ _ _ Hm) by done.
        apply not_elem_of_delete_lookup in Hk. unfold ruleMetadata in Hk.
        repeat (apply Forall_cons in Hk as [? Hk]).
        by rewrite !lookup_delete_ne.
      * apply replaceSlice_lookup in Hm
          as [(ms & cms & Hms & Hc & Hcl)|[Hms Hcl]];
          rewrite !lookup_delete_ne in * by done.
        -- rewrite Hms. exists cms. split; [done|]. by apply cleanMatches_length.
        -- rewrite Hcl. destruct (m !! "matches") as [[| | | |ms| |]|]; try done.
           by destruct (Hms ms).
Qed.

Lemma forEach_succeeds {A B} (f : A → result B) (l : list A) :
  (∃ l', forEach f l = Ok l') ↔ Forall (λ x, ∃ y, f x = Ok y) l.
Proof.
  induction l as [|x l IH]; simpl.
  - split; [by constructor|by eexists].
  - rewrite Forall_cons, <- IH. split.
    + intros (l' & (y & Hy & (ys & Hys & _)%bind_Ok)%bind_Ok).
      split; by eexists.
    + intros [[y Hy] [ys Hys]]. exists (y :: ys). by rewrite Hy, Hys.
Qed.

Lemma replaceSlice_succeeds (key : string)
    (clean : list value → result (list obj)) (m : obj) :
  (∃ m', replaceSlice key clean m = Ok m')
  ↔ ∀ xs, m !! key = Some (VArr xs) → ∃ cleaned, clean xs = Ok cleaned.
Proof.
  unfold replaceSlice. destruct (m !! key) as [[| | | |xs| |]|];
    try (split; [by intros|by eexists]).
  split.
  - intros (m' & (cleaned & Hc & _)%bind_Ok) ys [= <-]. by eexists.
  - intros Hxs. destruct (Hxs xs eq_refl) as [cleaned Hc]. rewrite Hc.
    by eexists.
Qed.

Lemma standardized_slice (m : obj) (t : string) (xs : list value) :
  underscoreFree t = true → standardizeKey t = t →
  standardizeMatchFeature ro (delete "ordinal" m) !! t = Some (VArr xs)
  ↔ t ≠ "ordinal" ∧ m !! t = Some (VArr xs) ∧ ConvertSliceToStrings xs = None.
Proof.
  intros Ht Hst. rewrite standardizeMatchFeature_lookup_plain by done.
  destruct (decide (t = "ordinal")) as [->|Hne].
  - rewrite lookup_delete_eq. split; [done|by intros [? _]].
  - rewrite lookup_delete_ne by done. split.
    + destruct (m !! t) as [v|]; [|done]. simpl.
      intros [= [-> Hxs]%standardizeValue_slice]. done.
    + intros (_ & -> & Hxs). simpl. by rewrite Hxs.
Qed.

Lemma cleanFeature_succeeds (feature : value) :
  (∃ f, cleanFeature ro feature = Ok f) ↔ isObject feature.
Proof.
  split.
  - intros [f (m & -> & _)%cleanFeature_Ok]. by exists m.
  - intros [m ->]. by eexists.
Qed.

Lemma cleanMatch_succeeds (recur : list value → result (list obj))
    (match_ : value) :
  (∃ y, cleanMatch ro recur match_ = Ok y)
  ↔ ∃ m, match_ = VObj m
      ∧ (∀ ms, m !! "matches" = Some (VArr ms) →
               ConvertSliceToStrings ms = None → ∃ r, recur ms = Ok r)
      ∧ (∀ fs, m !! "features" = Some (VArr fs) →
               ConvertSliceToStrings fs = None → Forall isObject fs).
Proof.
  split.
  - intros [y (m & m3 & -> & H3 & Hy)%cleanMatch_Ok]. exists m.
    split; [done|]. split.
    + intros ms Hms Hconv.
      apply (proj1 (replaceSlice_succeeds _ _ _) (ex_intro _ _ H3)).
      by apply standardized_slice.
    + intros fs Hfs Hconv.
      apply (Forall_impl (λ x, ∃ f, cleanFeature ro x = Ok f));
        [|intros x; apply cleanFeature_succeeds].
      apply forEach_succeeds.
      apply (proj1 (replaceSlice_succeeds _ _ _) (ex_intro _ _ Hy)).
      rewrite (replaceSlice_lookup_ne _ _ _ _ _ H3) by done.
      by apply standardized_slice.
  - intros (m & -> & Hms & Hfs). unfold cleanMatch. simpl.
    destruct (proj2 (replaceSlice_succeeds "matches" recur
                (standardizeMatchFeature ro (delete "ordinal" m)))) as [m3 H3].
    { intros ms (_ & Hm & Hconv)%standardized_slice; [|done..].
      by apply Hms. }
    rewrite H3. simpl. apply replaceSlice_succeeds. intros fs.
    rewrite (replaceSlice_lookup_ne _ _ _ _ _ H3) by done.
    intros (_ & Hf & Hconv)%standardized_slice; [|done..].
    apply forEach_succeeds.
    apply (Forall_impl isObject); [by apply Hfs|].
    intros x. apply cleanFeature_succeeds.
Qed.

Lemma Forall_iff_elem {A} (P Q : A → Prop) (l : list A) :
  (∀ x, x ∈ l → (P x ↔ Q x)) → Forall P l ↔ Forall Q l.
Proof.
  intros Hpq. rewrite !Forall_forall. split; intros H x Hx; by apply Hpq, H.
Qed.

Lemma cleanMatches_succeeds (n : nat) (matches : list value) :
  depth (VArr matches) ≤ n →
  (∃ r, cleanMatches ro matches = Ok r) ↔ Forall cleanableMatch matches.
Proof.
  revert matches. induction n as [|n IH]; intros matches Hd.
  - simpl in Hd. lia.
  - rewrite cleanMatches_unfold, forEach_succeeds. apply Forall_iff_elem.
    intros x Hx. apply depth_elem in Hx. rewrite cleanMatch_succeeds. split.
    + intros (m & -> & Hms & Hfs). constructor; [|done].
      intros ms Hm Hconv. apply IH; [|by apply Hms].
      apply depth_lookup in Hm. lia.
    + inversion 1 as [m Hms Hfs Heq]. subst x. exists m. split; [done|].
      split; [|done]. intros ms Hm Hconv. apply IH; [|by apply Hms].
      apply depth_lookup in Hm. lia.
Qed.

Lemma cleanRule_succeeds (rule : value) :
  (∃ y, cleanRule ro rule = Ok y) ↔ cleanableRule rule.
Proof.
  split.
  - intros [y (m & -> & Hm)%cleanRule_Ok]. exists m. split; [done|].
    intros ms Hms. apply (cleanMatches_succeeds (depth (VArr ms))); [done|].
    apply (proj1 (replaceSlice_succeeds _ _ _) (ex_intro _ _ Hm)).
    by rewrite !lookup_delete_ne.
  - intros (m & -> & Hms). unfold cleanRule. simpl.
    apply replaceSlice_succeeds. intros ms. rewrite !lookup_delete_ne by done.
    intros Hm. apply (cleanMatches_succeeds (depth (VArr ms))); [done|].
    by apply Hms.
Qed.

(** X6: when [cleanPolicy] panics.  It returns a cleaned policy exactly on
    the maps that hold an array of accepted rules under [rules], and it
    panics on every other map, whatever the iteration order: when [rules]
    is missing or no array, when a rule is no object or holds under
    [matches] an array with an element that is not accepted, when a match
    holds under [matches] or [features] an array that the conversion to
    strings refuses and that has an element that is not accepted there. *)
Theorem cleanPolicy_panics_iff (policyMap : obj) :
  ((∃ r, cleanPolicy ro policyMap = Ok r) ↔ cleanablePolicy policyMap)
  ∧ (cleanPolicy ro policyMap = Panic ↔ ¬ cleanablePolicy policyMap).
Proof.
  assert ((∃ r, cleanPolicy ro policyMap = Ok r) ↔ cleanablePolicy policyMap)
    as Hok.
  { split.
    - intros [r (rules & ruleMaps & Hrules & Hr & _)%cleanPolicy_Ok].
      exists rules. split; [by rewrite !lookup_delete_ne in Hrules|].
      apply (Forall_impl (λ x, ∃ y, cleanRule ro x = Ok y));
        [|intros x; apply cleanRule_succeeds].
      apply forEach_succeeds. by eexists.
    - intros (rules & Hrules & Hall). unfold cleanPolicy.
      rewrite !lookup_delete_ne, Hrules by done. cbn [asSlice bind].
      destruct (proj2 (forEach_succeeds (cleanRule ro) rules)) as [ruleMaps Hr].
      + apply (Forall_impl cleanableRule); [done|].
        intros x. apply cleanRule_succeeds.
      + rewrite Hr. by eexists. }
  split; [done|]. rewrite <- Hok. split.
  - intros Hp [r Hr]. congruence.
  - intros Hno. destruct (cleanPolicy ro policyMap) as [r| |] eqn:Hr.
    + destruct Hno. by exists r.
    + done.
    + by apply cleanPolicy_total in Hr.
Qed.


Lemma collisionFree_delete (k : string) (m : obj) :
  collisionFree m → collisionFree (delete k m).
Proof.
  intros Hcf k1 k2 [v1 [_ H1]%lookup_delete_Some] [v2 [_ H2]%lookup_delete_Some].
  apply Hcf; by eexists.
Qed.

Lemma standardizeMatchFeature_agree (ro' : RangeOrder) (m : obj) :
  collisionFree m →
  standardizeMatchFeature ro m = standardizeMatchFeature ro' m.
Proof.
  intros Hcf. unfold standardizeMatchFeature.
  rewrite !standardizeAlong_fresh; [done|done|apply range_keys_covers|done|].
  apply range_keys_covers.
Qed.

Lemma forEach_ext {A B} (f g : A → result B) (l : list A) :
  (∀ x, x ∈ l → f x = g x) → forEach f l = forEach g l.
Proof.
  induction l as [|x l IH]; intros Hfg; simpl; [done|].
  rewrite (Hfg x) by left. rewrite IH; [done|]. intros y Hy. apply Hfg.
  by right.
Qed.

Lemma replaceSlice_ext (key : string)
    (c1 c2 : list value → result (list obj)) (m : obj) :
  (∀ xs, m !! key = Some (VArr xs) → c1 xs = c2 xs) →
  replaceSlice key c1 m = replaceSlice key c2 m.
Proof.
  intros Hc. unfold replaceSlice.
  destruct (m !! key) as [[| | | |xs| |]|]; try done. by rewrite (Hc xs).
Qed.

Lemma cleanFeature_agree (ro' : RangeOrder) (feature : value) :
  (∀ f, feature = VObj f → collisionFree f) →
  cleanFeature ro feature = cleanFeature ro' feature.
Proof.
  intros Hcf. destruct feature as [| | | | |f|]; try done.
  unfold cleanFeature. simpl. f_equal.
  by apply standardizeMatchFeature_agree, collisionFree_delete, Hcf.
Qed.

Lemma cleanMatch_agree (ro' : RangeOrder)
    (recur recur' : list value → result (list obj)) (match_ : value) :
  collisionFreeMatch match_ →
  (∀ m ms, match_ = VObj m → m !! "matches" = Some (VArr ms) →
           recur ms = recur' ms) →
  cleanMatch ro recur match_ = cleanMatch ro' recur' match_.
Proof.
  intros Hcf Hrec. destruct Hcf as [m Hm Hms Hfs|v Hv].
  - unfold cleanMatch. simpl.
    rewrite <- (standardizeMatchFeature_agree ro' (delete "ordinal" m))
      by by apply collisionFree_delete.
    rewrite (replaceSlice_ext "matches" recur recur').
    + destruct (replaceSlice "matches" recur' _) as [m3| |] eqn:H3; [|done..].
      simpl. apply replaceSlice_ext. intros fs.
      rewrite (replaceSlice_lookup_ne _ _ _ _ _ H3) by done.
      intros (_ & Hf & _)%standardized_slice; [|done..].
      apply forEach_ext. intros x Hx. apply cleanFeature_agree.
      intros f ->. by eapply Hfs.
    + intros ms (_ & Hm' & _)%standardized_slice; [|done..]. by eapply Hrec.
  - destruct v as [| | | | |m|]; try done. destruct Hv. by exists m.
Qed.

Lemma cleanMatchesFuel_agree (ro' : RangeOrder) (fuel : nat)
    (matches : list value) :
  Forall collisionFreeMatch matches →
  cleanMatchesFuel ro fuel matches = cleanMatchesFuel ro' fuel matches.
Proof.
  revert matches. induction fuel as [|fuel IH]; intros matches Hcf; [done|].
  simpl. apply forEach_ext. intros x Hx.
  pose proof (proj1 (Forall_forall _ _) Hcf x Hx) as Hxcf.
  apply cleanMatch_agree; [done|]. intros m ms -> Hm. apply IH.
  inversion Hxcf as [m' _ Hms _|v Hv]; [by apply Hms|].
  destruct Hv. by exists m.
Qed.

(** X7: the result of [cleanPolicy] does not depend on the iteration
    order of the maps when in no match and in no feature two keys
    standardize alike: any two orders give the same cleaned policy, or
    the same panic. *)
Theorem cleanPolicy_order_independent (ro' : RangeOrder) (policyMap : obj) :
  collisionFreePolicy policyMap →
  cleanPolicy ro policyMap = cleanPolicy ro' policyMap.
Proof.
  intros Hcf. unfold cleanPolicy. rewrite !lookup_delete_ne by done.
  destruct (policyMap !! "rules") as [[| | | |rules| |]|] eqn:Hrules; try done.
  cbn [asSlice bind]. rewrite (forEach_ext (cleanRule ro) (cleanRule ro'));
    [done|].
  intros rule Hrule. destruct rule as [| | | | |m|]; try done.
  unfold cleanRule. simpl. apply replaceSlice_ext. intros ms.
  rewrite !lookup_delete_ne by done. intros Hms.
  apply cleanMatchesFuel_agree. by eapply Hcf.
Qed.

Lemma insert_standardized (m : obj) (key : string) (l : list obj) :
  standardizeKey key = key → standardized m →
  standardized (<[key := VMaps l]> m).
Proof.
  intros Hkey Hm k v. destruct (decide (k = key)) as [->|Hne].
  - rewrite lookup_insert_eq. by intros [= <-].
  - rewrite lookup_insert_ne by done. apply Hm.
Qed.

Lemma replaceSlice_standardized (key : string)
    (clean : list value → result (list obj)) (m m' : obj) :
  standardizeKey key = key → standardized m →
  replaceSlice key clean m = Ok m' → standardized m'.
Proof.
  intros Hkey Hm [(xs & cleaned & _ & _ & ->)|[_ ->]]%replaceSlice_Ok; [|done].
  by apply insert_standardized.
Qed.

Lemma cleanMatch_standardized
    (recur : list value → result (list obj)) (match_ : value) (y : obj) :
  (∀ cs ccs, Forall decoded cs → recur cs = Ok ccs →
             Forall standardizedMatch ccs) →
  decoded match_ → cleanMatch ro recur match_ = Ok y → standardizedMatch y.
Proof.
  intros Hrec Hdec (m & m3 & -> & H3 & Hy)%cleanMatch_Ok.
  set (m2 := standardizeMatchFeature ro (delete "ordinal" m)) in *.
  assert (decoded (VObj m2)) as Hm2
    by by apply decoded_standardizeMatchFeature, decoded_delete.
  assert (standardized m2) as Hst2 by apply standardizeMatchFeature_standardized.
  assert (standardized m3) as Hst3
    by exact (replaceSlice_standardized "matches" recur m2 m3 eq_refl Hst2 H3).
  assert (m3 !! "features" = m2 !! "features") as Hf3
    by by rewrite (replaceSlice_lookup_ne _ _ _ _ _ H3).
  assert (∀ c, c ∈ children "matches" m3 → standardizedMatch c) as Hc3.
  { apply replaceSlice_Ok in H3 as [(cs & ccs & Hcs & Hr & ->)|[Hcs ->]].
    - unfold children. rewrite lookup_insert_eq. simpl. intros c Hc.
      eapply Forall_forall; [|exact Hc]. eapply Hrec; [|done].
      apply decoded_VArr. rewrite decoded_VObj in Hm2. by apply (Hm2 "matches").
    - rewrite children_decoded_nil by done. by intros c ?%elem_of_nil. }
  constructor.
  - exact (replaceSlice_standardized "features" _ m3 y eq_refl Hst3 Hy).
  - apply replaceSlice_Ok in Hy as [(fs & cfs & Hfs & Hr & ->)|[Hfs ->]].
    + unfold children. rewrite lookup_insert_eq. simpl. intros f Hf.
      destruct (forEach_Ok_elem _ _ _ _ Hr Hf)
        as (x & _ & (mf & -> & ->)%cleanFeature_Ok).
      apply standardizeMatchFeature_standardized.
    + rewrite Hf3 in Hfs. assert (children "features" m3 = []) as ->.
      { unfold children. rewrite Hf3.
        pose proof (children_decoded_nil "features" m2 Hm2 Hfs) as Hnil.
        by unfold children in Hnil. }
      by intros f ?%elem_of_nil.
  - apply replaceSlice_Ok in Hy as [(fs & cfs & Hfs & Hr & ->)|[Hfs ->]];
      [|done].
    unfold children in *. by rewrite lookup_insert_ne.
Qed.

Lemma cleanMatchesFuel_standardized (fuel : nat)
    (matches : list value) (cleaned : list obj) :
  Forall decoded matches → cleanMatchesFuel ro fuel matches = Ok cleaned →
  Forall standardizedMatch cleaned.
Proof.
  revert matches cleaned. induction fuel as [|fuel IH]; [done|].
  intros matches cleaned Hdec Hc. simpl in Hc. apply Forall_forall. intros y Hy.
  destruct (forEach_Ok_elem _ _ _ _ Hc Hy) as (x & Hx & Hxy).
  eapply cleanMatch_standardized; [apply IH| |exact Hxy].
  by eapply Forall_forall in Hdec.
Qed.

Lemma matchBelow_standardized (rule m : obj) :
  (∀ c, c ∈ children "matches" rule → standardizedMatch c) →
  matchBelow rule m → standardizedMatch m.
Proof.
  intros Htop. induction 1 as [m Hm|m m' _ IH Hm']; [by apply Htop|].
  destruct IH as [m _ _ Hnested]. by apply Hnested.
Qed.

(** X8: after [cleanPolicy], on a decoded policy tree that it accepts,
    every match below a rule, at any depth of nested matches, and every
    feature of such a match is standardized as a whole: none of its keys
    has a hyphen, and none of its values is an array that
    [standardizeMatchFeature] would join. *)
Theorem cleanPolicy_standardizes_everywhere (policyMap r : obj) :
  decoded (VObj policyMap) → cleanPolicy ro policyMap = Ok r →
  ∀ rule m, rule ∈ children "rules" r → matchBelow rule m →
    (∀ k v, m !! k = Some v → standardizeKey k = k ∧ standardizeValue v = v)
    ∧ ∀ f k v, f ∈ children "features" m → f !! k = Some v →
               standardizeKey k = k ∧ standardizeValue v = v.
Proof.
  intros Hdec (rules & ruleMaps & Hrules & Hr & ->)%cleanPolicy_Ok rule mt
         Hrule Hmt.
  unfold children in Hrule. rewrite lookup_insert_eq in Hrule. simpl in Hrule.
  destruct (forEach_Ok_elem _ _ _ _ Hr Hrule)
    as (x & Hx & (m & -> & Hm)%cleanRule_Ok).
  assert (decoded (VObj m)) as Hdm.
  { do 8 apply lookup_delete_Some in Hrules as [_ Hrules].
    rewrite decoded_VObj in Hdec. specialize (Hdec _ _ Hrules).
    apply decoded_VArr in Hdec. by eapply Forall_forall in Hdec. }
  set (stripped := delete "updated_at" _) in Hm.
  assert (decoded (VObj stripped)) as Hds by by do 6 apply decoded_delete.
  assert (standardizedMatch mt) as [mt' Hst Hf _].
  { eapply matchBelow_standardized; [|exact Hmt].
    apply replaceSlice_Ok in Hm as [(ms & cms & Hms & Hc & ->)|[Hms ->]].
    - unfold children. rewrite lookup_insert_eq. simpl. intros c Hc'.
      eapply Forall_forall; [|exact Hc'].
      eapply cleanMatchesFuel_standardized; [|exact Hc].
      apply decoded_VArr. rewrite decoded_VObj in Hds.
      by apply (Hds "matches").
    - rewrite children_decoded_nil by done. by intros c ?%elem_of_nil. }
  split; [exact Hst|]. intros f k v Hfm. by apply Hf.
Qed.

End Normalizer.

Section NormalizerSamples.

Lemma cleanPolicy_keeps_the_rest_witness :
  (∀ k, k ∉ policyMetadata → k ≠ "rules" →
        sampleCleaned !! k = samplePolicy !! k)
  ∧ ∃ rules ruleMaps,
      samplePolicy !! "rules" = Some (VArr rules)
      ∧ sampleCleaned !! "rules" = Some (VMaps ruleMaps)
      ∧ Forall2 ruleKept rules ruleMaps.
Proof.
  apply (cleanPolicy_keeps_the_rest listOrder samplePolicy sampleCleaned).
  by vm_compute.
Defined.

Lemma cleanPolicy_panics_iff_witness : cleanablePolicy samplePolicy.
Proof.
  apply (proj1 (proj1 (cleanPolicy_panics_iff listOrder samplePolicy))).
  exists sampleCleaned. by vm_compute.
Defined.

Lemma hyphenPolicy_collisionFree : collisionFreePolicy hyphenPolicy.
Proof.
  intros rules rule ms Hrules Hrule Hms. unfold hyphenPolicy in Hrules.
  rewrite lookup_singleton_eq in Hrules. injection Hrules as <-.
  apply list_elem_of_singleton in Hrule. injection Hrule as ->.
  rewrite lookup_singleton_eq in Hms. injection Hms as <-.
  repeat constructor.
  - apply collisionFreeb_collisionFree. by vm_compute.
  - intros ms Hms. vm_compute in Hms. injection Hms as <-.
    repeat constructor.
    + apply collisionFreeb_collisionFree. by vm_compute.
    + intros ms Hms. by vm_compute in Hms.
    + intros fs f Hfs. by vm_compute in Hfs.
  - intros fs f Hfs Hf. vm_compute in Hfs. injection Hfs as <-.
    apply list_elem_of_singleton in Hf. injection Hf as ->.
    apply collisionFreeb_collisionFree. by vm_compute.
Qed.

Lemma cleanPolicy_order_independent_witness :
  cleanPolicy listOrder hyphenPolicy
  = cleanPolicy (lastOrder "type") hyphenPolicy.
Proof.
  apply (cleanPolicy_order_independent listOrder (lastOrder "type")
           hyphenPolicy hyphenPolicy_collisionFree).
Defined.


Example cleanPolicy_hyphenPolicy :
  cleanPolicy listOrder hyphenPolicy = Ok hyphenCleaned.
Proof. by vm_compute. Qed.

Lemma cleanPolicy_standardizes_everywhere_witness :
  (∀ k v, hyphenMatch !! k = Some v →
          standardizeKey k = k ∧ standardizeValue v = v)
  ∧ ∀ f k v, f ∈ children "features" hyphenMatch → f !! k = Some v →
             standardizeKey k = k ∧ standardizeValue v = v.
Proof.
  apply (cleanPolicy_standardizes_everywhere listOrder hyphenPolicy
           hyphenCleaned ltac:(by vm_compute) cleanPolicy_hyphenPolicy
           {[ "matches" := VMaps [ hyphenMatch ] ]} hyphenMatch).
  - unfold children, hyphenCleaned. rewrite lookup_singleton_eq. by left.
  - apply matchBelow_top. unfold children. rewrite lookup_singleton_eq. by left.
Defined.

End NormalizerSamples.

(** * Further properties of the token read *)

Section TokenReadLoop.
Import cps.
Variable rt : Runtime.

Lemma retryFunc_cases (svc : CpsService) (certID : Z) (retry : bool)
    (st : PollState) :
  ∃ r st', retryFunc rt svc certID retry st = Ok (r, st')
    ∧ queries st' = S (queries st)
    ∧ (∃ more, calls st' = calls st ++ CallCertificateGet certID :: more)
    ∧ (retry = false → ∀ err, r ≠ Some (RetryableError err))
    ∧ (d st' = d st ∨ (r = None ∧ tokenStored rt st st')).
Proof.
  unfold retryFunc.
  destruct (CertificateGet svc certID (queries st)) as [resp|err].
  2:{ eexists _, _. split; [reflexivity|]. cbn. split_and!; try done.
      - by eexists.
      - by left. }
  destruct (CertificateGetCertificateStatus svc certID (queries st))
    as [statusresp|err].
  2:{ eexists _, _. split; [reflexivity|]. cbn. split_and!; try done.
      - rewrite <- app_assoc. by eexists.
      - by left. }
  destruct (negb _).
  { eexists _, _. split; [reflexivity|]. cbn. split_and!; try done.
    - rewrite <- app_assoc. by eexists.
    - by left. }
  destruct (0 <? _).
  { eexists _, _. split; [reflexivity|]. cbn. split_and!; try done.
    - rewrite <- app_assoc. by eexists.
    - by left. }
  cbv zeta.
  destruct (CheckForRetry rt _ statusresp) eqn:Hcheck.
  - destruct retry.
    + eexists _, _. split; [reflexivity|]. cbn. split_and!; try done.
      * rewrite <- app_assoc. by eexists.
      * by left.
    + eexists _, _. split; [reflexivity|]. cbn. split_and!; try done.
      * rewrite <- app_assoc. by eexists.
      * by left.
  - pose proof Hcheck as Hc.
    apply (CheckForRetry_false rt) in Hcheck
      as (first & rest & token & Hmd & Htok & Hfirst).
    rewrite Hfirst. eexists _, _. split; [reflexivity|]. cbn.
    split_and!; try done.
    + rewrite <- app_assoc. by eexists.
    + right. split; [done|]. exists (Token token). split; [|done].
      unfold CheckForRetry in Hc. destruct (String.eqb _ _); [done|].
      rewrite Hmd, Htok in Hc. intros He. by rewrite He in Hc.
Qed.


Lemma RetryContext_returns (svc : CpsService) (certID : Z) (retry : bool)
    (budget : nat) (st : PollState) :
  ∃ diag st',
    RetryContext budget (retryFunc rt svc certID retry) st = Ok (diag, st').
Proof.
  revert st. induction budget as [|budget IH]; intros st;
    destruct (retryFunc_cases svc certID retry st) as (r & st1 & Hq & _);
    simpl; rewrite Hq; simpl.
  - destruct r as [[err|err]|]; by eexists _, _.
  - destruct r as [[err|err]|]; [apply IH|by eexists _, _..].
Qed.

(** X9: a query never panics: [metadata[0]] and the token object behind it
    are read only after [CheckForRetry] has found them there (the
    responses and the entries of [metadata] being non-nil, as they are
    taken here); and so the read as a whole returns, with diagnostics or
    without. *)
Theorem token_read_never_panics :
  (∀ svc certID retry st,
     ∃ r st', retryFunc rt svc certID retry st = Ok (r, st'))
  ∧ (∀ st m, ∃ diag st', DataSourceDNSTXTTokenRead rt st m = Ok (diag, st')).
Proof.
  split.
  - intros svc certID retry st.
    destruct (retryFunc_cases svc certID retry st) as (r & st' & Hq & _).
    by exists r, st'.
  - intros st m. unfold DataSourceDNSTXTTokenRead.
    destruct (ParseDuration rt _) as [timeout|err]; [|by eexists _, _].
    destruct m as [|[svc|err]]; [by eexists _, _| |by eexists _, _].
    destruct (ParseInt64 rt _) as [certID|err]; [|by eexists _, _].
    apply RetryContext_returns.
Qed.

Lemma RetryContext_data (svc : CpsService) (certID : Z) (retry : bool)
    (budget : nat) (st st' : PollState) (diag : Diagnostics) :
  RetryContext budget (retryFunc rt svc certID retry) st = Ok (diag, st') →
  d st' = d st
  ∨ (diag = None
     ∧ ∃ token n, token ≠ ""
         ∧ d st' = {| certificate_id := certificate_id (d st);
                      wait_until_available := wait_until_available (d st);
                      wait_timeout := wait_timeout (d st);
                      value := Some token;
                      Id := GetUnixTimeStamp rt n |}).
Proof.
  revert st. induction budget as [|budget IH]; intros st;
    destruct (retryFunc_cases svc certID retry st)
      as (r & st1 & Hq & _ & _ & _ & Hd);
    simpl; rewrite Hq; simpl.
  - destruct r as [[err|err]|]; intros [= <- <-].
    + destruct Hd as [?|[? _]]; [by left|done].
    + destruct Hd as [?|[? _]]; [by left|done].
    + destruct Hd as [?|[_ (token & Hne & Hst)]]; [by left|right].
      split; [done|]. by exists token, (queries st).
  - destruct r as [[err|err]|].
    + destruct Hd as [Hd|[? _]]; [|done]. intros Hrec.
      destruct (IH _ Hrec) as [Hd'|(-> & token & n & Hne & Hd')].
      * left. congruence.
      * right. split; [done|]. exists token, n. by rewrite Hd', Hd.
    + intros [= <- <-]. destruct Hd as [?|[? _]]; [by left|done].
    + intros [= <- <-].
      destruct Hd as [?|[_ (token & Hne & Hst)]]; [by left|right].
      split; [done|]. by exists token, (queries st).
Qed.

(** X10: the read changes the resource data in one way only: it stores a
    token that is not empty, together with a time stamp as identifier, and
    then it returns no error.  In every other case, every error among
    them, the resource data is as it was. *)
Theorem token_read_stores_token_or_nothing (st st' : PollState)
    (m : ProviderMeta) (diag : Diagnostics) :
  DataSourceDNSTXTTokenRead rt st m = Ok (diag, st') →
  d st' = d st
  ∨ (diag = None
     ∧ ∃ token n, token ≠ ""
         ∧ d st' = {| certificate_id := certificate_id (d st);
                      wait_until_available := wait_until_available (d st);
                      wait_timeout := wait_timeout (d st);
                      value := Some token;
                      Id := GetUnixTimeStamp rt n |}).
Proof.
  unfold DataSourceDNSTXTTokenRead.
  destruct (ParseDuration rt _) as [timeout|err]; [|intros [= <- <-]; by left].
  destruct m as [|[svc|err]]; [intros [= <- <-]; by left| |intros [= <- <-]; by left].
  destruct (ParseInt64 rt _) as [certID|err]; [|intros [= <- <-]; by left].
  apply RetryContext_data.
Qed.

(** X11: without [wait_until_available] a read that gets as far as the retry
    loop makes one query and no more, whatever the service answers: of its
    two API calls it makes [CertificateGet] once and
    [CertificateGetCertificateStatus] at most once, and an error it returns
    is never the one of the deadline. *)
Theorem one_query_without_wait (d0 : ResourceData) (m : ProviderMeta)
    (svc : CpsService) (certID : Z) :
  readyToPoll rt d0 m svc certID →
  wait_until_available d0 = false →
  ∃ diag st',
    DataSourceDNSTXTTokenRead rt (start d0) m = Ok (diag, st')
    ∧ queries st' = 1
    ∧ (calls st' = [CallCertificateGet certID]
       ∨ calls st' = [CallCertificateGet certID;
                      CallCertificateGetCertificateStatus certID])
    ∧ ∀ err, diag = Some err → fatal err.
Proof.
  intros Hready Hretry.
  destruct (read_polls rt _ _ _ _ Hready) as [budget ->]. rewrite Hretry.
  assert (∃ r st1,
    retryFunc rt svc certID false (start d0) = Ok (r, st1)
    ∧ queries st1 = 1
    ∧ (calls st1 = [CallCertificateGet certID]
       ∨ calls st1 = [CallCertificateGet certID;
                      CallCertificateGetCertificateStatus certID])
    ∧ (r = None ∨ ∃ err, r = Some (NonRetryableError err) ∧ fatal err))
    as (r & st1 & Hq & Hn & Hc & Hr).
  { unfold retryFunc. cbn [start d calls queries logCall app].
    destruct (CertificateGet svc certID 0) as [resp|err];
      [|eexists _, _; split_and!; [done..|by left|right; by eexists]].
    destruct (CertificateGetCertificateStatus svc certID 0) as [statusresp|err];
      [|eexists _, _; split_and!; [done..|by right|right; by eexists]].
    destruct (negb _);
      [eexists _, _; split_and!; [done..|by right|right; by eexists]|].
    destruct (0 <? _);
      [eexists _, _; split_and!; [done..|by right|right; by eexists]|].
    cbv zeta. destruct (CheckForRetry rt _ statusresp) eqn:Hcheck.
    - eexists _, _; split_and!; [done..|by right|by left].
    - apply (CheckForRetry_false rt) in Hcheck
        as (first & rest & token & Hmd & Htok & Hfirst).
      rewrite Hfirst. eexists _, _; split_and!; [done..|by right|by left]. }
  destruct Hr as [->|(err & -> & Hfatal)].
  - exists None, st1. split_and!; [|done..].
    destruct budget; simpl; by rewrite Hq.
  - exists (Some err), st1. split_and!; [|done|done|by intros ? [= <-]].
    destruct budget; simpl; by rewrite Hq.
Qed.

(** X12: a workflow error of a DV certificate ends the read at the first
    query, with the message of the workflow in the error, whatever
    [wait_until_available] says; nothing is stored, and the two calls of
    that query are the only ones. *)
Theorem workflow_error_is_fatal (d0 : ResourceData) (m : ProviderMeta)
    (svc : CpsService) (certID : Z) (resp : CertificateGetOK)
    (statusresp : CertificateGetCertificateStatusOK) :
  readyToPoll rt d0 m svc certID →
  CertificateGet svc certID 0 = inl resp →
  CertificateGetCertificateStatus svc certID 0 = inl statusresp →
  ValidationType resp = CdnProvidedCertificateValidationTypeDV →
  WorkflowErrorMessage resp ≠ "" →
  DataSourceDNSTXTTokenRead rt (start d0) m
  = Ok (Some (fmt_Errorf_s "error in workflow: %s" (WorkflowErrorMessage resp)),
        {| d := d0;
           calls := [CallCertificateGet certID;
                     CallCertificateGetCertificateStatus certID];
           queries := 1 |}).
Proof.
  intros Hready Hget Hstatus Hdv Hwf.
  destruct (read_polls rt _ _ _ _ Hready) as [budget ->].
  assert ((0 <? String.length (WorkflowErrorMessage resp)) = true) as Hlen.
  { apply Nat.ltb_lt. destruct (WorkflowErrorMessage resp); [done|simpl; lia]. }
  destruct budget; simpl; unfold retryFunc; simpl;
    by rewrite Hget, Hstatus, Hdv, Hlen.
Qed.

(** X13: an error of either API call ends the read at the first query,
    whatever [wait_until_available] says, and nothing is stored; after a
    failed [CertificateGet] the status is not asked for. *)
Theorem api_errors_are_fatal (d0 : ResourceData) (m : ProviderMeta)
    (svc : CpsService) (certID : Z) :
  readyToPoll rt d0 m svc certID →
  (∀ err, CertificateGet svc certID 0 = inr err →
     DataSourceDNSTXTTokenRead rt (start d0) m
     = Ok (Some (fmt_Errorf "error while retrieving certificate details: %w"
                   err),
           {| d := d0; calls := [CallCertificateGet certID]; queries := 1 |}))
  ∧ (∀ resp err,
       CertificateGet svc certID 0 = inl resp →
       CertificateGetCertificateStatus svc certID 0 = inr err →
       DataSourceDNSTXTTokenRead rt (start d0) m
       = Ok (Some (fmt_Errorf "error while retrieving certificate details: %w"
                     err),
             {| d := d0;
                calls := [CallCertificateGet certID;
                          CallCertificateGetCertificateStatus certID];
                queries := 1 |})).
Proof.
  intros Hready. destruct (read_polls rt _ _ _ _ Hready) as [budget ->]. split.
  - intros err Hget.
    destruct budget; simpl; unfold retryFunc; simpl; by rewrite Hget.
  - intros resp err Hget Hstatus.
    destruct budget; simpl; unfold retryFunc; simpl; by rewrite Hget, Hstatus.
Qed.

(** X14: the inputs are checked before anything is asked of the service,
    in this order: the timeout, the provider configuration, the service
    built from it, the certificate identifier.  A read either reports the
    first of these that fails, with no query made and nothing changed, or
    it finds all of them in order and hands the query function to the
    retry loop with the parsed timeout.  Every run of that function is one
    query whose first call is [CertificateGet] for the certificate.  How
    often the loop runs it is the SDK's matter and no part of this
    statement. *)
Theorem inputs_are_checked_first (st : PollState) (m : ProviderMeta) :
  (∃ err,
     DataSourceDNSTXTTokenRead rt st m = Ok (Some err, st)
     ∧ ((∃ e, ParseDuration rt (wait_timeout (d st)) = inr e
              ∧ err = fmt_Errorf "invalid wait_timeout: %v" e)
        ∨ (∃ timeout, ParseDuration rt (wait_timeout (d st)) = inl timeout)
          ∧ ((m = NotProviderConfig
              ∧ err = errors_New "failed to load configuration")
             ∨ (∃ e, m = ProviderConfig (inr e)
                     ∧ err = fmt_Errorf "failed to build CPS Service: %v" e)
             ∨ (∃ svc e, m = ProviderConfig (inl svc)
                         ∧ ParseInt64 rt (certificate_id (d st)) = inr e
                         ∧ err = fmt_Errorf
                                   "failed to parse certificate ID: %v" e))))
  ∨ (∃ svc certID timeout,
       ParseDuration rt (wait_timeout (d st)) = inl timeout
       ∧ m = ProviderConfig (inl svc)
       ∧ ParseInt64 rt (certificate_id (d st)) = inl certID
       ∧ DataSourceDNSTXTTokenRead rt st m
         = RetryContext (attemptsWithin rt timeout)
             (retryFunc rt svc certID (wait_until_available (d st))) st
       ∧ ∀ st0, ∃ r st1 more,
           retryFunc rt svc certID (wait_until_available (d st)) st0
           = Ok (r, st1)
           ∧ queries st1 = S (queries st0)
           ∧ calls st1 = calls st0 ++ CallCertificateGet certID :: more).
Proof.
  unfold DataSourceDNSTXTTokenRead.
  destruct (ParseDuration rt _) as [timeout|e] eqn:Ht.
  2:{ left. eexists. split; [done|]. left. by eexists. }
  destruct m as [|[svc|e]].
  - left. eexists. split; [done|]. right. split; [by eexists|]. by left.
  - destruct (ParseInt64 rt _) as [certID|e] eqn:Hid.
    + right. exists svc, certID, timeout. split_and!; [done..|].
      intros st0.
      destruct (retryFunc_cases svc certID (wait_until_available (d st)) st0)
        as (r & st1 & Hrun & Hq & [more Hc] & _).
      by exists r, st1, more.
    + left. eexists. split; [done|]. right. split; [by eexists|].
      right. right. by eexists _, _.
  - left. eexists. split; [done|]. right. split; [by eexists|].
    right. left. by eexists.
Qed.

Lemma retryFunc_pending (svc : CpsService) (certID : Z) (st : PollState) :
  pendingAt rt svc certID (queries st) →
  retryFunc rt svc certID true st
  = Ok (Some (RetryableError (errors_New "token not available")),
        {| d := d st;
           calls := calls st ++ callsOfQueries certID 1;
           queries := S (queries st) |}).
Proof.
  intros (resp & statusresp & Hget & Hstatus & Hdv & Hwf & Hcheck).
  unfold retryFunc. rewrite Hget, Hstatus, Hdv, Hwf. cbn. rewrite Hcheck.
  unfold logCall. cbn. by rewrite <- app_assoc.
Qed.

Lemma retryFunc_available (svc : CpsService) (certID : Z) (retry : bool)
    (st : PollState) (token : string) :
  availableAt rt svc certID (queries st) token →
  retryFunc rt svc certID retry st
  = Ok (None,
        {| d := {| certificate_id := certificate_id (d st);
                   wait_until_available := wait_until_available (d st);
                   wait_timeout := wait_timeout (d st);
                   value := Some token;
                   Id := GetUnixTimeStamp rt (queries st) |};
           calls := calls st ++ callsOfQueries certID 1;
           queries := S (queries st) |}).
Proof.
  intros (resp & statusresp & first & rest & Hget & Hstatus & Hdv & Hwf
          & Hcheck & Hmd & Htok).
  unfold retryFunc. rewrite Hget, Hstatus, Hdv, Hwf. cbn. rewrite Hcheck, Hmd.
  cbn. rewrite Htok. unfold logCall. cbn. by rewrite <- app_assoc.
Qed.

Lemma callsOfQueries_app (certID : Z) (a b : nat) :
  callsOfQueries certID a ++ callsOfQueries certID b
  = callsOfQueries certID (a + b).
Proof. induction a as [|a IH]; simpl; [done|]. by rewrite IH. Qed.

Lemma RetryContext_until_available (svc : CpsService) (certID : Z)
    (n budget : nat) (st : PollState) (token : string) :
  n ≤ budget →
  (∀ i, i < n → pendingAt rt svc certID (queries st + i)) →
  availableAt rt svc certID (queries st + n) token →
  RetryContext budget (retryFunc rt svc certID true) st
  = Ok (None,
        {| d := {| certificate_id := certificate_id (d st);
                   wait_until_available := wait_until_available (d st);
                   wait_timeout := wait_timeout (d st);
                   value := Some token;
                   Id := GetUnixTimeStamp rt (queries st + n) |};
           calls := calls st ++ callsOfQueries certID (S n);
           queries := S (queries st + n) |}).
Proof.
  revert budget st. induction n as [|n IH]; intros budget st Hle Hpend Havail.
  - rewrite Nat.add_0_r in *.
    destruct budget; simpl; by rewrite (retryFunc_available _ _ _ _ _ Havail).
  - destruct budget as [|budget]; [lia|]. simpl.
    rewrite retryFunc_pending
      by (specialize (Hpend 0); rewrite Nat.add_0_r in Hpend; apply Hpend; lia).
    simpl. rewrite (IH budget _); [| lia | |].
    + cbn [d calls queries]. rewrite <- app_assoc.
      change ([CallCertificateGet certID;
               CallCertificateGetCertificateStatus certID]
              ++ callsOfQueries certID (S n))
        with (callsOfQueries certID (S (S n))).
      by rewrite <- !Nat.add_succ_comm.
    + intros i Hi. cbn [queries]. rewrite Nat.add_succ_comm. apply Hpend. lia.
    + cbn [queries]. by rewrite Nat.add_succ_comm.
Qed.

(** X15: with [wait_until_available] the read asks again as long as the
    token is not there: when the first [n] queries ask for a retry, the
    timeout allows [n] further attempts, and query [n] finds the token,
    the read returns no error after [n + 1] queries of two calls each,
    with that token stored and the time stamp taken at that query as
    identifier. *)
Theorem read_polls_until_available (d0 : ResourceData) (svc : CpsService)
    (certID timeout : Z) (n : nat) (token : string) :
  ParseDuration rt (wait_timeout d0) = inl timeout →
  ParseInt64 rt (certificate_id d0) = inl certID →
  wait_until_available d0 = true →
  n ≤ attemptsWithin rt timeout →
  (∀ i, i < n → pendingAt rt svc certID i) →
  availableAt rt svc certID n token →
  DataSourceDNSTXTTokenRead rt (start d0) (ProviderConfig (inl svc))
  = Ok (None,
        {| d := {| certificate_id := certificate_id d0;
                   wait_until_available := true;
                   wait_timeout := wait_timeout d0;
                   value := Some token;
                   Id := GetUnixTimeStamp rt n |};
           calls := callsOfQueries certID (S n);
           queries := S n |}).
Proof.
  intros Ht Hid Hretry Hn Hpend Havail. unfold DataSourceDNSTXTTokenRead.
  cbn [start d]. rewrite Ht, Hid, Hretry.
  rewrite (RetryContext_until_available svc certID n _ _ token);
    [simpl; by rewrite Hretry|done..].
Qed.

End TokenReadLoop.

Section TokenReadLoopSamples.
Import cps cps_sample.

Lemma token_read_stores_token_or_nothing_witness :
  let st := start (data true "20m") in
  let st' := {| d := {| certificate_id := "42"; wait_until_available := true;
                        wait_timeout := "20m"; value := Some "XYZ";
                        Id := "1667114400" |};
                calls := callsOfQueries 42 1; queries := 1 |} in
  d st' = d st
  ∨ ((None : Diagnostics) = None
     ∧ ∃ token n, token ≠ ""
         ∧ d st' = {| certificate_id := certificate_id (d st);
                      wait_until_available := wait_until_available (d st);
                      wait_timeout := wait_timeout (d st);
                      value := Some token;
                      Id := GetUnixTimeStamp runtime n |}).
Proof.
  intros st st'.
  apply (token_read_stores_token_or_nothing runtime st st'
           (ProviderConfig (inl (service "DV" "complete" (Some "XYZ")))) None).
  by vm_compute.
Defined.

Lemma one_query_without_wait_witness :
  ∃ diag st',
    DataSourceDNSTXTTokenRead runtime (start (data false "20m"))
      (ProviderConfig (inl (service "DV" "processing" None)))
    = Ok (diag, st')
    ∧ queries st' = 1
    ∧ (calls st' = [CallCertificateGet 42]
       ∨ calls st' = [CallCertificateGet 42;
                      CallCertificateGetCertificateStatus 42])
    ∧ ∀ err, diag = Some err → fatal err.
Proof.
  apply (one_query_without_wait runtime (data false "20m") _
           (service "DV" "processing" None) 42);
    [apply sample_ready|done].
Defined.

Lemma workflow_error_is_fatal_witness :
  let resp := {| ValidationType := "DV";
                 WorkflowErrorMessage := "domain not reachable" |} in
  DataSourceDNSTXTTokenRead runtime (start (data true "20m"))
    (ProviderConfig
       (inl (serviceFrom (inl resp) (inl {| Status := "complete" |}) 0 "XYZ")))
  = Ok (Some (fmt_Errorf_s "error in workflow: %s" "domain not reachable"),
        {| d := data true "20m";
           calls := [CallCertificateGet 42;
                     CallCertificateGetCertificateStatus 42];
           queries := 1 |}).
Proof.
  intros resp.
  apply (workflow_error_is_fatal runtime (data true "20m") _
           (serviceFrom (inl resp) (inl {| Status := "complete" |}) 0 "XYZ")
           42 resp {| Status := "complete" |});
    [apply sample_ready|done..].
Defined.

Lemma api_errors_are_fatal_witness :
  let svc := serviceFrom (inr (lib_error "cps: 503"))
               (inl {| Status := "complete" |}) 0 "XYZ" in
  DataSourceDNSTXTTokenRead runtime (start (data true "20m"))
    (ProviderConfig (inl svc))
  = Ok (Some (fmt_Errorf "error while retrieving certificate details: %w"
                (lib_error "cps: 503")),
        {| d := data true "20m"; calls := [CallCertificateGet 42];
           queries := 1 |}).
Proof.
  intros svc.
  apply (proj1 (api_errors_are_fatal runtime (data true "20m") _ svc 42
                  (sample_ready true svc))).
  done.
Defined.

Lemma read_polls_until_available_witness :
  let svc := serviceFrom (inl (certificate "DV"))
               (inl {| Status := "complete" |}) 2 "XYZ" in
  DataSourceDNSTXTTokenRead runtime (start (data true "20m"))
    (ProviderConfig (inl svc))
  = Ok (None,
        {| d := {| certificate_id := "42"; wait_until_available := true;
                   wait_timeout := "20m"; value := Some "XYZ";
                   Id := "1667114400" |};
           calls := callsOfQueries 42 3;
           queries := 3 |}).
Proof.
  intros svc.
  apply (read_polls_until_available runtime (data true "20m") svc 42
           1200000000000 2 "XYZ"); try reflexivity.
  - vm_compute. lia.
  - intros i Hi. exists (certificate "DV"), {| Status := "complete" |}.
    destruct i as [|[|i]]; [by vm_compute..|lia].
  - exists (certificate "DV"), {| Status := "complete" |}. by eexists _, _.
Defined.

End TokenReadLoopSamples.

(** * Further properties of the policy handlers *)

Section PolicyHandlers.
Import rulesengine.
Variable rt : Runtime.

(** X16: the three ways [addPolicy] fails.  When AddPolicy fails, or answers
    with an identifier that is not a number, the error is returned with no
    deploy request sent and the resource data as it was.  When the deploy
    request fails, the error is returned too, but for a policy that is not
    the placeholder the identifier and the policy attribute have been set
    to the added policy by then; [deploy_request_id] is as it was. *)
Theorem addPolicy_failures (policy : string) (isEmptyPolicy : bool)
    (st : State) :
  let customerID := account_number (d st) in
  let portalTypeID := portaltypeid (d st) in
  let customerUserID := customeruserid (d st) in
  let add := CallAddPolicy policy customerID portalTypeID customerUserID in
  (∀ err,
     AddPolicy (api rt) policy customerID portalTypeID customerUserID = inr err →
     addPolicy rt policy isEmptyPolicy st
     = (Some (fmt_Errorf "addPolicy: %v" err),
        {| d := d st; config := config st; calls := calls st ++ [add] |}))
  ∧ (∀ added err,
       AddPolicy (api rt) policy customerID portalTypeID customerUserID
       = inl added →
       Atoi (ID added) = inr err →
       addPolicy rt policy isEmptyPolicy st
       = (Some (fmt_Errorf "addPolicy: parsing policy ID: %v" err),
          {| d := d st; config := config st; calls := calls st ++ [add] |}))
  ∧ (∀ added policyID deployErr,
       let request := {| Message := "Auto-submitted policy";
                         PolicyID := policyID;
                         Environment := deploy_to (d st) |} in
       AddPolicy (api rt) policy customerID portalTypeID customerUserID
       = inl added →
       Atoi (ID added) = inl policyID →
       DeployPolicy (api rt) request customerID portalTypeID customerUserID
       = inr deployErr →
       addPolicy rt policy isEmptyPolicy st
       = (Some (fmt_Errorf "addPolicy: %v" deployErr),
          {| d := if isEmptyPolicy then d st
                  else Set_policy policy (SetId (ID added) (d st));
             config := config st;
             calls := calls st ++
                      [add; CallDeployPolicy request customerID portalTypeID
                              customerUserID] |})).
Proof.
  intros customerID portalTypeID customerUserID add. split_and!.
  - intros err Hadd. unfold addPolicy. fold customerID portalTypeID customerUserID.
    by rewrite Hadd.
  - intros added err Hadd Hid. unfold addPolicy.
    fold customerID portalTypeID customerUserID. by rewrite Hadd, Hid.
  - intros added policyID deployErr request Hadd Hid Hdeploy. unfold addPolicy.
    fold customerID portalTypeID customerUserID. rewrite Hadd, Hid.
    destruct isEmptyPolicy; cbn [d config calls logCall withData];
      (change (getDeployRequestData _ policyID) with request);
      rewrite Hdeploy; unfold logCall, withData; cbn; by rewrite <- app_assoc.
Qed.

Lemma addPolicy_data (policy : string) (isEmptyPolicy : bool) (st st' : State)
    (err : option error) :
  addPolicy rt policy isEmptyPolicy st = (err, st') →
  config st' = config st
  ∧ (∃ more, calls st' = calls st ++ more)
  ∧ (isEmptyPolicy = true →
     d st' = match err with Some _ => d st | None => SetId "" (d st) end).
Proof.
  unfold addPolicy. destruct (AddPolicy _ _ _ _ _) as [added|e];
    [|intros [= <- <-]; split_and!; [done|by eexists|done]].
  destruct (Atoi (ID added)) as [policyID|e];
    [|intros [= <- <-]; split_and!; [done|by eexists|done]].
  destruct isEmptyPolicy;
    destruct (DeployPolicy _ _ _ _ _) as [deployed|e]; intros [= <- <-];
    (split_and!; [done| |done]); cbn; rewrite <- app_assoc; by eexists.
Qed.

Lemma ResourcePolicyDelete_Ok (st st' : State) (diag : Diagnostics) :
  ResourcePolicyDelete rt st = Ok (diag, st') →
  d st' = match diag with
          | Some _ => d st
          | None => SetId "" (d st)
          end
  ∧ config st' = {| AccountNumber := account_number (d st) |}
  ∧ ∃ more, calls st' = calls st ++ more.
Proof.
  unfold ResourcePolicyDelete.
  destruct (Atoi (Id (d st))) as [policyID|e] eqn:Hid.
  - rewrite (getPolicy_numeric rt st policyID Hid).
    destruct (GetPolicy _ _ _ _ _) as [policy|e];
      [|intros [= <- <-]; split_and!; [done..|by eexists]].
    destruct (asString _) as [platform| |]; [|done..]. cbn [bind].
    destruct (addPolicy _ _ _ _) as [err st1] eqn:Hadd. intros [= <- <-].
    destruct (addPolicy_data _ _ _ _ _ Hadd) as (Hc & [more Hm] & Hd).
    split_and!; [by apply Hd|done|].
    rewrite Hm. cbn. rewrite <- app_assoc. by eexists.
  - rewrite (getPolicy_not_numeric rt st e Hid). intros [= <- <-].
    split_and!; [done..|]. exists []. by rewrite app_nil_r.
Qed.

(** X17: what a delete changes, in every run that returns.  Of the
    resource data it changes the identifier only, and only when it returns
    no error: then the identifier is cleared; after an error, whichever of
    its steps failed, the resource data is as it was.  The account number
    of the client configuration is set to the one of the resource, and the
    requests sent so far are added to, never dropped. *)
Theorem ResourcePolicyDelete_data (st st' : State) (diag : Diagnostics) :
  ResourcePolicyDelete rt st = Ok (diag, st') →
  (∀ err, diag = Some err → d st' = d st)
  ∧ (diag = None → d st' = SetId "" (d st))
  ∧ config st' = {| AccountNumber := account_number (d st) |}
  ∧ ∃ more, calls st' = calls st ++ more.
Proof.
  intros (Hd & Hc & Hcalls)%ResourcePolicyDelete_Ok.
  split_and!; [|by intros ->|done..]. by intros err ->.
Qed.

(** X18: a read that follows a delete that went through finds the
    identifier cleared: it reports that the identifier is no number and
    sends no request. *)
Theorem read_after_delete (rt' : Runtime) (st st' : State) :
  ResourcePolicyDelete rt st = Ok (None, st') →
  ResourcePolicyRead rt' st'
  = Ok (Some (fmt_Errorf "error parsing Policy ID from state file: %v"
                (lib_error "strconv.Atoi: invalid syntax")),
        {| d := SetId "" (d st);
           config := {| AccountNumber := account_number (d st) |};
           calls := calls st' |}).
Proof.
  intros (Hd & _)%ResourcePolicyDelete_Ok. unfold ResourcePolicyRead.
  rewrite (getPolicy_not_numeric rt' st' (lib_error "strconv.Atoi: invalid syntax"))
    by by rewrite Hd.
  by rewrite Hd.
Qed.

Lemma cleanPolicy_rules_not_slice (ro : RangeOrder) (policyMap : obj) :
  (∀ rules, policyMap !! "rules" ≠ Some (VArr rules)) →
  cleanPolicy ro policyMap = Panic.
Proof.
  intros Hr. unfold cleanPolicy. rewrite !lookup_delete_ne by done.
  destruct (policyMap !! "rules") as [[| | | |rules| |]|]; try done.
  by destruct (Hr rules).
Qed.

(** X19: the single-value type assertions of the handlers, and the store
    into the map of the create.  A delete panics, before any policy is
    added, when the policy it fetched has no string under [platform]; a
    read panics when the policy it fetched has no string under [id], or
    no array under [rules]; a create panics on a policy text that reads
    as [null]. *)
Theorem handlers_panic (st : State) :
  (∀ policyID policy,
     Atoi (Id (d st)) = inl policyID →
     GetPolicy (api rt) (account_number (d st)) (customeruserid (d st))
       (portaltypeid (d st)) policyID = inl policy →
     ((∀ s, policy !! "platform" ≠ Some (VStr s)) →
      ResourcePolicyDelete rt st = Panic)
     ∧ ((∀ s, policy !! "id" ≠ Some (VStr s)) →
        ResourcePolicyRead rt st = Panic)
     ∧ ((∀ rules, policy !! "rules" ≠ Some (VArr rules)) →
        ResourcePolicyRead rt st = Panic))
  ∧ (json.decode (policy (d st)) = json.Parsed VNull →
     ResourcePolicyCreate rt st = Panic).
Proof.
  split.
  - intros policyID policy Hid Hget. split_and!.
    + intros Hp. unfold ResourcePolicyDelete.
      rewrite (getPolicy_numeric rt st policyID Hid), Hget.
      destruct (policy !! "platform") as [[| | |s| | |]|]; try done.
      by destruct (Hp s).
    + intros Hp. unfold ResourcePolicyRead.
      rewrite (getPolicy_numeric rt st policyID Hid), Hget.
      destruct (policy !! "id") as [[| | |s| | |]|]; try done.
      by destruct (Hp s).
    + intros Hr. unfold ResourcePolicyRead.
      rewrite (getPolicy_numeric rt st policyID Hid), Hget.
      destruct (policy !! "id") as [[| | |id| | |]|]; try done.
      cbn [asString bind]. by rewrite cleanPolicy_rules_not_slice.
  - intros Hnull. unfold ResourcePolicyCreate, json.nilAfterUnmarshal.
    by rewrite Hnull.
Qed.

(** X20: a read whose identifier is a number and whose policy comes back
    with a string under [id] and is accepted by [cleanPolicy]: the stored
    identifier becomes the one of the policy's body, and the policy
    attribute becomes the text of the cleaned policy; when that text
    cannot be made, the error is returned with the identifier cleared.
    The one request sent is GetPolicy, for the account of the resource. *)
Theorem ResourcePolicyRead_stores_cleaned (st : State) (policyID : Z)
    (fetched r : obj) (id : string) :
  let st1 := {| d := d st;
                config := {| AccountNumber := account_number (d st) |};
                calls := calls st ++
                         [CallGetPolicy (account_number (d st))
                            (customeruserid (d st)) (portaltypeid (d st))
                            policyID] |} in
  Atoi (Id (d st)) = inl policyID →
  GetPolicy (api rt) (account_number (d st)) (customeruserid (d st))
    (portaltypeid (d st)) policyID = inl fetched →
  fetched !! "id" = Some (VStr id) →
  cleanPolicy (order rt) fetched = Ok r →
  (∀ text, Marshal rt r = inl text →
     ResourcePolicyRead rt st
     = Ok (None, withData (λ d, Set_policy text (SetId id d)) st1))
  ∧ (∀ err, Marshal rt r = inr err →
       ResourcePolicyRead rt st
       = Ok (Some (fmt_Errorf "error marshaling policy to json : %v" err),
             withData (SetId "") st1)).
Proof.
  intros st1 Hid Hget Hbody Hclean.
  split; intros x Hx; unfold ResourcePolicyRead;
    rewrite (getPolicy_numeric rt st policyID Hid), Hget, Hbody;
    cbn [asString bind]; rewrite Hclean; cbn [bind]; by rewrite Hx.
Qed.

(** X21: a create on a policy text that reads as an object.  The policy it
    adds is that object with [state] set to "locked", whatever the text
    says about the state; once the service has taken it under a numeric
    identifier and accepted the deploy request for that identifier and the
    environment of the resource, the create goes on as a read of the
    resource, whose identifier is the one the service gave: the policy
    fetched is the added one, and what ends up in the policy attribute is
    the cleaned text of what was fetched. *)
Theorem ResourcePolicyCreate_adds_deploys_reads (st : State) (m : obj)
    (body : string) (added : AddPolicyOK) (newID : Z)
    (deployed : DeployPolicyOK) :
  let customerID := account_number (d st) in
  let portalTypeID := portaltypeid (d st) in
  let customerUserID := customeruserid (d st) in
  let request := {| Message := "Auto-submitted policy"; PolicyID := newID;
                    Environment := deploy_to (d st) |} in
  let sent := [CallAddPolicy body customerID portalTypeID customerUserID;
               CallDeployPolicy request customerID portalTypeID
                 customerUserID] in
  let d1 := Set_deploy_request_id (DeployID deployed)
              (Set_policy body (SetId (ID added) (d st))) in
  json.decode (policy (d st)) = json.Parsed (VObj m) →
  Marshal rt (<["state" := VStr "locked"]> m) = inl body →
  AddPolicy (api rt) body customerID portalTypeID customerUserID = inl added →
  Atoi (ID added) = inl newID →
  DeployPolicy (api rt) request customerID portalTypeID customerUserID
  = inl deployed →
  ResourcePolicyCreate rt st
  = ResourcePolicyRead rt
      {| d := d1; config := config st; calls := calls st ++ sent |}
  ∧ ∀ fetched r id text,
      GetPolicy (api rt) customerID customerUserID portalTypeID newID
      = inl fetched →
      fetched !! "id" = Some (VStr id) →
      cleanPolicy (order rt) fetched = Ok r →
      Marshal rt r = inl text →
      ResourcePolicyCreate rt st
      = Ok (None,
            {| d := Set_policy text (SetId id d1);
               config := {| AccountNumber := customerID |};
               calls := calls st ++ sent ++
                        [CallGetPolicy customerID customerUserID portalTypeID
                           newID] |}).
Proof.
  intros customerID portalTypeID customerUserID request sent d1
         Hdec Hbody Hadd Hnew Hdeploy.
  assert (ResourcePolicyCreate rt st
          = ResourcePolicyRead rt
              {| d := d1; config := config st; calls := calls st ++ sent |})
    as Hcreate.
  { unfold ResourcePolicyCreate, json.nilAfterUnmarshal, json.Unmarshal.
    rewrite Hdec. cbn [fst]. rewrite Hbody. unfold addPolicy.
    fold customerID portalTypeID customerUserID. rewrite Hadd, Hnew.
    cbn [d config calls logCall withData].
    change (getDeployRequestData _ newID) with request. rewrite Hdeploy.
    unfold logCall, withData. cbn [d config calls]. by rewrite <- app_assoc. }
  split; [done|]. intros fetched r id text Hget Hid Hclean Htext.
  rewrite Hcreate.
  set (st1 := {| d := d1; config := config st; calls := calls st ++ sent |}).
  assert (Atoi (Id (d st1)) = inl newID) as Hid1 by done.
  unfold ResourcePolicyRead. rewrite (getPolicy_numeric rt st1 newID Hid1).
  cbn [st1 d d1 Set_deploy_request_id Set_policy SetId account_number
       customeruserid portaltypeid].
  fold customerID customerUserID portalTypeID. rewrite Hget, Hid.
  cbn [asString bind]. rewrite Hclean. cbn [bind]. rewrite Htext.
  unfold withData. cbn. by rewrite <- app_assoc.
Qed.

Lemma String_length_zero (s : string) :
  (String.length s =? 0) = true ↔ s = "".
Proof. destruct s; split; done. Qed.

(** X22: [cleanPolicyForTerrafomState], the function that normalizes the
    policy text of a configuration.  The empty text is returned as it is.
    The decoder builds the object of a text also when a number of the text
    is out of the range of float64, with nil for that number, and the
    function drops the decoder's error; so an object counts here as the
    decoder builds it, with or without that error.  Any other text from
    which no object with an array under [rules] is built makes the function
    panic: a text that is no JSON, [null], a JSON value that is no object,
    an object without rules.  And on a text whose object [cleanPolicy]
    accepts, the result is the text of the cleaned object, with a panic
    when that text cannot be made. *)
Theorem cleanPolicyForTerrafomState_cases :
  cleanPolicyForTerrafomState rt "" = Ok ""
  ∧ (∀ val,
       val ≠ "" →
       (∀ m rules, json.decodesTo val (VObj m) →
                   m !! "rules" ≠ Some (VArr rules)) →
       cleanPolicyForTerrafomState rt val = Panic)
  ∧ (∀ val m r,
       json.decodesTo val (VObj m) →
       cleanPolicy (order rt) m = Ok r →
       cleanPolicyForTerrafomState rt val
       = match Marshal rt r with
         | inl text => Ok text
         | inr _ => Panic
         end).
Proof.
  split_and!.
  - done.
  - intros val Hne Hrules. unfold cleanPolicyForTerrafomState.
    destruct (String.length val =? 0) eqn:Hlen;
      [by apply String_length_zero in Hlen|].
    rewrite cleanPolicy_rules_not_slice; [done|]. intros rules.
    unfold json.decodesTo in Hrules. unfold json.Unmarshal.
    destruct (json.decode val) as [[| | | | |m|]|[| | | | |m|]| |];
      try done; cbn [fst]; apply Hrules; (by left) || (by right).
  - intros val m r Hdec Hclean. unfold cleanPolicyForTerrafomState.
    destruct (String.length val =? 0) eqn:Hlen.
    { apply String_length_zero in Hlen. subst val.
      by destruct Hdec as [Hdec|Hdec]; vm_compute in Hdec. }
    unfold json.Unmarshal.
    destruct Hdec as [Hdec|Hdec]; rewrite Hdec; cbn [fst]; by rewrite Hclean.
Qed.

(** X23: the text a read stores is a fixed point of the function that
    normalizes the policy text of a configuration.  For a decoded policy
    that [cleanPolicy] turns into [r] and whose text reads back as the
    tree it was written from, normalizing that text gives the text
    itself, whatever the iteration orders of the maps. *)
Theorem stored_policy_is_normal (rt' : Runtime) (policyMap r : obj)
    (text : string) :
  decoded (VObj policyMap) →
  cleanPolicy (order rt) policyMap = Ok r →
  Marshal rt' r = inl text →
  json.decode text = json.Parsed (VObj (reload <$> r)) →
  cleanPolicyForTerrafomState rt' text = Ok text.
Proof.
  intros Hdec Hclean Htext Hback.
  assert (cleanPolicy (order rt') (reload <$> r) = Ok r) as Hagain.
  { apply cleanPolicy_Ok in Hclean as (rules & ruleMaps & Hrules & Hr & ->).
    set (stripped := delete "updated_at" _) in *.
    assert (decoded (VObj stripped)) as Hds by by do 8 apply decoded_delete.
    pose proof (proj1 (decoded_VObj _) Hds) as Hdv.
    rewrite fmap_insert, (decoded_obj_fmap _ Hds).
    change (reload (VMaps ruleMaps)) with (VArr (reloadMaps ruleMaps)).
    set (n := <["rules" := VArr (reloadMaps ruleMaps)]> stripped).
    assert (∀ k, k ∈ policyMetadata → n !! k = None) as Hnone.
    { intros k Hk. unfold n. rewrite lookup_insert_ne.
      - by apply policyMetadata_deleted.
      - intros <-. unfold policyMetadata in Hk.
        repeat (apply elem_of_cons in Hk as [?|Hk]; [done|]).
        by apply elem_of_nil in Hk. }
    unfold cleanPolicy.
    repeat match goal with
           | |- context [delete ?k n] =>
               rewrite (delete_id n k)
                 by (apply Hnone; unfold policyMetadata; set_solver)
           end.
    unfold n at 1. rewrite lookup_insert_eq. cbn [asSlice bind].
    unfold reloadMaps at 1. rewrite forEach_fmap_id.
    - simpl. unfold n. by rewrite insert_insert_eq.
    - intros y Hy. destruct (forEach_Ok_elem _ _ _ _ Hr Hy) as (x & Hx & Hxy).
      eapply cleanRule_again; [|exact Hxy].
      specialize (Hdv _ _ Hrules). apply decoded_VArr in Hdv.
      by eapply Forall_forall in Hdv. }
  unfold cleanPolicyForTerrafomState.
  destruct (String.length text =? 0) eqn:Hlen.
  { apply String_length_zero in Hlen. subst text. by vm_compute in Hback. }
  unfold json.Unmarshal. rewrite Hback. cbn [fst]. rewrite Hagain. cbn [bind].
  by rewrite Htext.
Qed.


Lemma addPolicy_ignores_identifier (policy id' : string) (st : State) :
  let st2 := withData (SetId id') st in
  match addPolicy rt policy false st, addPolicy rt policy false st2 with
  | (None, s), (None, s') => s = s'
  | (Some err, s), (Some err', s') => err = err' ∧ calls s = calls s'
  | _, _ => False
  end.
Proof.
  unfold addPolicy. cbn [withData d calls config SetId account_number
    portaltypeid customeruserid].
  destruct (AddPolicy _ _ _ _ _) as [added|err]; [|done].
  destruct (Atoi (ID added)) as [policyID|err]; [|done].
  unfold getDeployRequestData, logCall, withData.
  cbn [d calls config SetId Set_policy deploy_to account_number portaltypeid
       customeruserid].
  by destruct (DeployPolicy _ _ _ _ _) as [deployed|err].
Qed.

(** X24: an update is a create, and a create never looks at the stored
    identifier before it has set it: an update adds and deploys a new
    policy and then reads that one, so that for any two identifiers the
    resource may hold, the requests sent and the outcome are the same. *)
Theorem ResourcePolicyUpdate_ignores_identifier (st : State) (id' : string) :
  match ResourcePolicyUpdate rt st,
        ResourcePolicyUpdate rt (withData (SetId id') st) with
  | Ok (diag, s), Ok (diag', s') => diag = diag' ∧ calls s = calls s'
  | Panic, Panic => True
  | _, _ => False
  end.
Proof.
  unfold ResourcePolicyUpdate, ResourcePolicyCreate.
  cbn [withData d SetId policy].
  destruct (json.nilAfterUnmarshal _); [done|].
  destruct (Marshal rt _) as [body|err]; [|done].
  pose proof (addPolicy_ignores_identifier body id' st) as Hadd. cbv zeta in Hadd.
  destruct (addPolicy rt body false st) as [[err|] s];
    destruct (addPolicy rt body false (withData (SetId id') st)) as [[err'|] s'];
    try done.
  - by destruct Hadd as [-> ?].
  - subst s'. destruct (ResourcePolicyRead rt s) as [[diag s1]| |] eqn:Hread;
      [done|done|].
    unfold ResourcePolicyRead in Hread.
    destruct (getPolicy rt s) as [[fetched|err] s1]; [|done].
    destruct (fetched !! "id") as [[| | |id| | |]|]; try done.
    cbn [asString bind] in Hread.
    pose proof (cleanPolicy_total (order rt) fetched) as Htot.
    destruct (cleanPolicy (order rt) fetched); try done.
    cbn [bind] in Hread. by destruct (Marshal rt _).
Qed.

End PolicyHandlers.

Section PolicyHandlerSamples.
Import rulesengine rulesengine_sample.

Lemma addPolicy_failures_witness :
  let service := serviceWith (inl fetchedPolicy) (inl {| ID := "8" |})
                   (inr (lib_error "deploy: 500")) in
  let request := {| Message := "Auto-submitted policy"; PolicyID := 8;
                    Environment := "staging" |} in
  addPolicy (runtimeWith service) "{}" false (stateOf "7" "{}")
  = (Some (fmt_Errorf "addPolicy: %v" (lib_error "deploy: 500")),
     {| d := Set_policy "{}" (SetId "8" (d (stateOf "7" "{}")));
        config := {| AccountNumber := "" |};
        calls := [CallAddPolicy "{}" "0001" "1" "u";
                  CallDeployPolicy request "0001" "1" "u"] |}).
Proof.
  intros service request.
  apply (proj2 (proj2 (addPolicy_failures (runtimeWith service) "{}" false
                         (stateOf "7" "{}"))) {| ID := "8" |} 8%Z
           (lib_error "deploy: 500"));
    reflexivity.
Defined.

Lemma ResourcePolicyDelete_data_witness :
  let failing := serviceWith (inl fetchedPolicy) (inr (lib_error "add: 500"))
                   (inr (lib_error "deploy: 500")) in
  let body := Sprintf emptyPolicyFormat
                ["2022-10-30T07:20:00Z"; "adn"; "2022-10-30T07:20:00Z"] in
  let st' := {| d := d (stateOf "7" "{}");
                config := {| AccountNumber := "0001" |};
                calls := [CallGetPolicy "0001" "u" "1" 7;
                          CallAddPolicy body "0001" "1" "u"] |} in
  (∀ err, Some (fmt_Errorf "addPolicy: %v" (lib_error "add: 500")) = Some err →
          d st' = d (stateOf "7" "{}"))
  ∧ (Some (fmt_Errorf "addPolicy: %v" (lib_error "add: 500")) = None →
     d st' = SetId "" (d (stateOf "7" "{}")))
  ∧ config st' = {| AccountNumber := "0001" |}
  ∧ ∃ more, calls st' = calls (stateOf "7" "{}") ++ more.
Proof.
  intros failing body st'.
  apply (ResourcePolicyDelete_data (runtimeWith failing) (stateOf "7" "{}") st'
           (Some (fmt_Errorf "addPolicy: %v" (lib_error "add: 500")))).
  by vm_compute.
Defined.

Lemma read_after_delete_witness :
  let body := Sprintf emptyPolicyFormat
                ["2022-10-30T07:20:00Z"; "adn"; "2022-10-30T07:20:00Z"] in
  let request := {| Message := "Auto-submitted policy"; PolicyID := 8;
                    Environment := "staging" |} in
  let st' := {| d := SetId "" (d (state "7"));
                config := {| AccountNumber := "0001" |};
                calls := [CallGetPolicy "0001" "u" "1" 7;
                          CallAddPolicy body "0001" "1" "u";
                          CallDeployPolicy request "0001" "1" "u"] |} in
  ResourcePolicyRead (runtime "adn") st'
  = Ok (Some (fmt_Errorf "error parsing Policy ID from state file: %v"
                (lib_error "strconv.Atoi: invalid syntax")),
        {| d := SetId "" (d (state "7"));
           config := {| AccountNumber := "0001" |};
           calls := calls st' |}).
Proof.
  intros body request st'.
  apply (read_after_delete (runtime "adn") (runtime "adn") (state "7") st').
  by vm_compute.
Defined.

Lemma handlers_panic_witness :
  let service := serviceWith (inl {[ "id" := VStr "7"; "rules" := VArr [] ]})
                   (inl {| ID := "8" |}) (inl {| DeployID := "9" |}) in
  ResourcePolicyDelete (runtimeWith service) (stateOf "7" "{}") = Panic.
Proof.
  intros service.
  apply (proj1 (proj1 (handlers_panic (runtimeWith service) (stateOf "7" "{}"))
                  7%Z {[ "id" := VStr "7"; "rules" := VArr [] ]}
                  eq_refl eq_refl)).
  intros s. by vm_compute.
Defined.

Lemma ResourcePolicyRead_stores_cleaned_witness :
  let service := serviceWith (inl fetchedPolicy) (inl {| ID := "8" |})
                   (inl {| DeployID := "9" |}) in
  ResourcePolicyRead (runtimeWith service) (stateOf "7" "{}")
  = Ok (None,
        {| d := Set_policy (textOf fetchedCleaned)
                  (SetId "8" (d (stateOf "7" "{}")));
           config := {| AccountNumber := "0001" |};
           calls := [CallGetPolicy "0001" "u" "1" 7] |}).
Proof.
  intros service.
  apply (proj1 (ResourcePolicyRead_stores_cleaned (runtimeWith service)
                  (stateOf "7" "{}") 7%Z fetchedPolicy fetchedCleaned "8"
                  eq_refl eq_refl eq_refl ltac:(by vm_compute))).
  by vm_compute.
Defined.

Lemma ResourcePolicyCreate_adds_deploys_reads_witness :
  let service := serviceWith (inl fetchedPolicy) (inl {| ID := "8" |})
                   (inl {| DeployID := "9" |}) in
  let body := textOf {[ "state" := VStr "locked" ]} in
  let request := {| Message := "Auto-submitted policy"; PolicyID := 8;
                    Environment := "staging" |} in
  ResourcePolicyCreate (runtimeWith service) (stateOf "" "{}")
  = Ok (None,
        {| d := Set_policy (textOf fetchedCleaned)
                  (SetId "8"
                     (Set_deploy_request_id "9"
                        (Set_policy body (SetId "8" (d (stateOf "" "{}"))))));
           config := {| AccountNumber := "0001" |};
           calls := [CallAddPolicy body "0001" "1" "u";
                     CallDeployPolicy request "0001" "1" "u";
                     CallGetPolicy "0001" "u" "1" 8] |}).
Proof.
  intros service body request.
  apply (proj2 (ResourcePolicyCreate_adds_deploys_reads (runtimeWith service)
                  (stateOf "" "{}") ∅ body {| ID := "8" |} 8%Z
                  {| DeployID := "9" |}
                  ltac:(by vm_compute) ltac:(by vm_compute) eq_refl eq_refl
                  eq_refl)
           fetchedPolicy fetchedCleaned "8" (textOf fetchedCleaned));
    by vm_compute.
Defined.

Lemma cleanPolicyForTerrafomState_cases_witness :
  let rt := runtimeWith (service "adn") in
  cleanPolicyForTerrafomState rt "[]" = Panic
  ∧ cleanPolicyForTerrafomState rt outOfRangePolicy
    = Ok (textOf {[ "rules" := VMaps []; "x" := VNull ]}).
Proof.
  intros rt.
  destruct (cleanPolicyForTerrafomState_cases rt) as (_ & Hpanic & Hclean).
  split.
  - apply Hpanic; [done|].
    intros m rules [Hdec|Hdec]; vm_compute in Hdec; discriminate Hdec.
  - rewrite (Hclean outOfRangePolicy {[ "rules" := VArr []; "x" := VNull ]}
               {[ "rules" := VMaps []; "x" := VNull ]}).
    + vm_compute. reflexivity.
    + right. vm_compute. reflexivity.
    + vm_compute. reflexivity.
Defined.

Lemma stored_policy_is_normal_witness :
  let service := serviceWith (inl fetchedPolicy) (inl {| ID := "8" |})
                   (inl {| DeployID := "9" |}) in
  cleanPolicyForTerrafomState (runtimeWith service) (textOf fetchedCleaned)
  = Ok (textOf fetchedCleaned).
Proof.
  intros service.
  apply (stored_policy_is_normal (runtimeWith service) (runtimeWith service)
           fetchedPolicy fetchedCleaned (textOf fetchedCleaned));
    by vm_compute.
Defined.


End PolicyHandlerSamples.
